(** * BMP toolkit: crop, quantize, horizontal flip

    A shallow embedding of the three programs of the toolkit
    ([Image_cropping.cpp], [Quantization_Resolution.cpp],
    [flip_horizontally.cpp]) and the properties of their pixel transforms
    and header handling.

    Conventions of the embedding:
    - [uint8_t] is [byte]; a [vector<uint8_t>] is a [list byte];
    - [int] is a [Z] kept in the 32-bit signed range by [wrap32], written
      out at every arithmetic operation (two's-complement wrap-around);
      [uint32_t] is a [Z] reduced by [u32];
    - what C++ leaves undefined (division by zero, an access outside a
      vector, a vector of impossible size, the use of struct bytes that no
      read filled) is a [Crash]; an early [return 1] of a [main] is an
      [Err]; everything else is [Ok]. *)

From Stdlib Require Import ZArith Lia.
From Stdlib Require Import Strings.Byte.
From stdpp Require Import base tactics option list list_numbers strings.

Local Open Scope Z_scope.

(** ** Machine integers and bytes *)

Definition wrap32 (z : Z) : Z := (z + 2 ^ 31) `mod` 2 ^ 32 - 2 ^ 31.
Definition u32 (z : Z) : Z := z `mod` 2 ^ 32.

Definition INT_MAX : Z := 2 ^ 31 - 1.
Definition INT_MIN : Z := - 2 ^ 31.

Definition byte_to_Z (b : byte) : Z := Z.of_N (Byte.to_N b).
Definition Z_to_byte (z : Z) : byte :=
  default Byte.x00 (Byte.of_N (Z.to_N (z `mod` 256))).

(** ** Outcomes *)

(** Undefined behaviour the programs can run into. *)
Inductive fault : Set :=
  | DivisionByZero      (* [a / 0] *)
  | ShiftOutOfRange     (* [a << n] with [n] outside [0, 32) *)
  | OutOfBounds         (* element access or [memcpy] outside a vector *)
  | BadAlloc            (* a vector sized by a negative [int] *)
  | IndeterminateValue. (* use of struct bytes that [read] did not fill *)

(** The error kinds of the specification.  The programs report the first
    four: "Can't open file." / "Cannot open output file." ([OpenError]),
    "Input file is not a BMP file." ([FormatError]), "Only supports 24-bit
    or 32-bit uncompressed BMP." ([UnsupportedFormatError]) and "Cropping
    area exceeds image bounds." ([BoundsError]); each is followed by
    [return 1].  No statement of the programs reports the last two. *)
Inductive error : Set :=
  | OpenError
  | FormatError
  | UnsupportedFormatError
  | BoundsError
  | TruncatedDataError
  | InvalidParameterError.

Inductive result (A : Type) : Type :=
  | Ok (a : A)
  | Err (e : error)
  | Crash (f : fault).
Arguments Ok {A} a.
Arguments Err {A} e.
Arguments Crash {A} f.

#[global] Instance result_ret : MRet result := λ A a, Ok a.
#[global] Instance result_bind : MBind result := λ A B k m,
  match m with
  | Ok a => k a
  | Err e => Err e
  | Crash f => Crash f
  end.

(** [for (int i = 0; i < n; ++i) body], the loop state threaded through. *)
Fixpoint forM {A S : Type} (body : A → S → result S) (l : list A) (s : S)
  : result S :=
  match l with
  | [] => Ok s
  | a :: l => s' ← body a s; forM body l s'
  end.

Definition for_lt {S : Type} (n : Z) (body : Z → S → result S) (s : S)
  : result S :=
  forM body (seqZ 0 n) s.

(** ** Vectors of bytes *)

Definition in_range (buf : list byte) (i : Z) : bool :=
  bool_decide (0 ≤ i < Z.of_nat (length buf)).

(** [buf[i]] read. *)
Definition load (buf : list byte) (i : Z) : result byte :=
  if in_range buf i
  then match buf !! Z.to_nat i with Some v => Ok v | None => Crash OutOfBounds end
  else Crash OutOfBounds.

(** [buf[i] = v]. *)
Definition store (buf : list byte) (i : Z) (v : byte) : result (list byte) :=
  if in_range buf i then Ok (<[Z.to_nat i := v]> buf) else Crash OutOfBounds.

(** [std::swap(buf[i], buf[j])]. *)
Definition swap (i j : Z) (buf : list byte) : result (list byte) :=
  a ← load buf i;
  b ← load buf j;
  buf ← store buf i b;
  store buf j a.

(** [a / b] on [int]. *)
Definition idiv (a b : Z) : result Z :=
  if bool_decide (b = 0) then Crash DivisionByZero
  else Ok (wrap32 (Z.quot a b)).

(** [a << n] on [int]. *)
Definition ishl (a n : Z) : result Z :=
  if bool_decide (0 ≤ n < 32) then Ok (wrap32 (a ≪ n))
  else Crash ShiftOutOfRange.

(** [(n + 3) & (~3)] on [int]: the row stride of a row of [n] bytes. *)
Definition align4 (n : Z) : Z := Z.land (wrap32 (n + 3)) (Z.lnot 3).

(** ** Quantization_Resolution.cpp : quantizePixelData *)

(** The right-hand side of [colorValue = (colorValue / factor) * factor]:
    the operand is promoted to [int], the result converted back to
    [uint8_t]; a zero [factor] makes the division undefined. *)
Definition quantizeValue (factor : Z) (colorValue : byte) : result byte :=
  quotient ← idiv (byte_to_Z colorValue) factor;
  Ok (Z_to_byte (wrap32 (quotient * factor))).

Definition quantizePixelData (pixelData : list byte)
    (bytesPerPixel width height rowSize quantizationBits : Z)
  : result (list byte) :=
  levels ← ishl 1 quantizationBits;
  let maxValue := 255 in
  factor ← idiv maxValue (wrap32 (levels - 1));
  for_lt height (λ y pixelData,
    let row := wrap32 (y * rowSize) in
    for_lt width (λ x pixelData,
      for_lt 3 (λ byte pixelData,
        let i := row + wrap32 (wrap32 (x * bytesPerPixel) + byte) in
        colorValue ← load pixelData i;
        colorValue ← quantizeValue factor colorValue;
        store pixelData i colorValue)
      pixelData)
    pixelData)
  pixelData.

(** ** flip_horizontally.cpp : flipHorizontally *)

Definition flipHorizontally (pixelData : list byte)
    (width height rowSize bytesPerPixel : Z) : result (list byte) :=
  for_lt height (λ y pixelData,
    let row := wrap32 (y * rowSize) in
    for_lt (Z.quot width 2) (λ x pixelData,
      for_lt bytesPerPixel (λ byte pixelData,
        swap (row + wrap32 (wrap32 (x * bytesPerPixel) + byte))
             (row + wrap32 (wrap32 (wrap32 (wrap32 (width - x) - 1)
                                    * bytesPerPixel) + byte))
             pixelData)
      pixelData)
    pixelData)
  pixelData.

(** ** Image_cropping.cpp : cropImage *)

(** [v.resize(n)] with [n] an [int]: a negative [n] converts to a size no
    vector can have; otherwise the elements kept are followed by zeros. *)
Definition resize (n : Z) (v : list byte) : result (list byte) :=
  if bool_decide (n < 0) then Crash BadAlloc
  else Ok (take (Z.to_nat n) v
           ++ replicate (Z.to_nat n - length v)%nat Byte.x00).

(** [memcpy(&dst[destOffset], &src[srcOffset], n)]: both blocks have to lie
    inside their vectors. *)
Definition memcpy (dst : list byte) (destOffset : Z)
    (src : list byte) (srcOffset n : Z) : result (list byte) :=
  if bool_decide (0 ≤ n
                  ∧ 0 ≤ destOffset ∧ destOffset + n ≤ Z.of_nat (length dst)
                  ∧ 0 ≤ srcOffset ∧ srcOffset + n ≤ Z.of_nat (length src))
  then Ok (take (Z.to_nat destOffset) dst
           ++ take (Z.to_nat n) (drop (Z.to_nat srcOffset) src)
           ++ drop (Z.to_nat (destOffset + n)) dst)
  else Crash OutOfBounds.

Definition cropImage (inputPixelData croppedPixelData : list byte)
    (originalWidth originalHeight bytesPerPixel rowSize x y
     cropWidth cropHeight : Z) : result (list byte) :=
  let croppedRowSize := align4 (wrap32 (cropWidth * bytesPerPixel)) in
  croppedPixelData ←
    resize (wrap32 (croppedRowSize * cropHeight)) croppedPixelData;
  for_lt cropHeight (λ j croppedPixelData,
    let srcY := wrap32 (y + j) in
    let srcOffset :=
      wrap32 (wrap32 (srcY * rowSize) + wrap32 (x * bytesPerPixel)) in
    let destOffset := wrap32 (j * croppedRowSize) in
    memcpy croppedPixelData destOffset inputPixelData srcOffset
           (wrap32 (cropWidth * bytesPerPixel)))
  croppedPixelData.

(** ** The two headers ([#pragma pack(1)], little-endian host) *)

Record BMPFileHeader : Set := {
  bfType : Z;       (* uint16_t *)
  bfSize : Z;       (* uint32_t *)
  bfReserved1 : Z;  (* uint16_t *)
  bfReserved2 : Z;  (* uint16_t *)
  bfOffBits : Z     (* uint32_t *)
}.

(** [biWidth] and [biHeight] are [uint32_t] in Image_cropping.cpp and
    [int32_t] in the other two programs. *)
Record BMPInfoHeader : Set := {
  biSize : Z;           (* uint32_t *)
  biWidth : Z;
  biHeight : Z;
  biPlanes : Z;         (* uint16_t *)
  biBitCount : Z;       (* uint16_t *)
  biCompression : Z;    (* uint32_t *)
  biSizeImage : Z;      (* uint32_t *)
  biXPelsPerMeter : Z;  (* int32_t *)
  biYPelsPerMeter : Z;  (* int32_t *)
  biClrUsed : Z;        (* uint32_t *)
  biClrImportant : Z    (* uint32_t *)
}.

(** The unsigned value of a little-endian byte string, and the [n] bytes of
    a value (two's complement for a negative one). *)
Definition le_val (bs : list byte) : Z :=
  little_endian_to_Z 8 (byte_to_Z <$> bs).
Definition le_bytes (n : Z) (z : Z) : list byte :=
  Z_to_byte <$> Z_to_little_endian n 8 z.

Definition field (off len : nat) (bs : list byte) : Z :=
  le_val (take len (drop off bs)).

(** The struct a full 14-byte read leaves in memory. *)
Definition parseFileHeader (bs : list byte) : BMPFileHeader :=
  {| bfType := field 0 2 bs;
     bfSize := field 2 4 bs;
     bfReserved1 := field 6 2 bs;
     bfReserved2 := field 8 2 bs;
     bfOffBits := field 10 4 bs |}.

Definition dim (unsigned_dims : bool) (z : Z) : Z :=
  if unsigned_dims then z else wrap32 z.

(** The struct a full 40-byte read leaves in memory. *)
Definition parseInfoHeader (unsigned_dims : bool) (bs : list byte)
  : BMPInfoHeader :=
  {| biSize := field 0 4 bs;
     biWidth := dim unsigned_dims (field 4 4 bs);
     biHeight := dim unsigned_dims (field 8 4 bs);
     biPlanes := field 12 2 bs;
     biBitCount := field 14 2 bs;
     biCompression := field 16 4 bs;
     biSizeImage := field 20 4 bs;
     biXPelsPerMeter := wrap32 (field 24 4 bs);
     biYPelsPerMeter := wrap32 (field 28 4 bs);
     biClrUsed := field 32 4 bs;
     biClrImportant := field 36 4 bs |}.

(** The bytes [write(reinterpret_cast<char*>(&h), sizeof(h))] emits. *)
Definition serializeFileHeader (h : BMPFileHeader) : list byte :=
  le_bytes 2 (bfType h) ++ le_bytes 4 (bfSize h)
  ++ le_bytes 2 (bfReserved1 h) ++ le_bytes 2 (bfReserved2 h)
  ++ le_bytes 4 (bfOffBits h).

Definition serializeInfoHeader (h : BMPInfoHeader) : list byte :=
  le_bytes 4 (biSize h) ++ le_bytes 4 (biWidth h) ++ le_bytes 4 (biHeight h)
  ++ le_bytes 2 (biPlanes h) ++ le_bytes 2 (biBitCount h)
  ++ le_bytes 4 (biCompression h) ++ le_bytes 4 (biSizeImage h)
  ++ le_bytes 4 (biXPelsPerMeter h) ++ le_bytes 4 (biYPelsPerMeter h)
  ++ le_bytes 4 (biClrUsed h) ++ le_bytes 4 (biClrImportant h).

(** ** Input stream *)

Record ifstream : Set := {
  content : list byte;
  pos : nat;
  failbit : bool
}.

(** [s.read(p, n)]: the bytes stored at [p] and the stream afterwards.  A
    failed stream reads nothing; a short read sets the fail bit. *)
Definition read (n : nat) (s : ifstream) : list byte * ifstream :=
  if failbit s then ([], s)
  else
    let got := take n (drop (pos s) (content s)) in
    (got, {| content := content s;
             pos := pos s + length got;
             failbit := bool_decide (length got < n)%nat |}).

(** [s.seekg(off, ios::beg)]: no effect on a failed stream; a position
    past the end is accepted. *)
Definition seekg (off : Z) (s : ifstream) : ifstream :=
  if failbit s then s
  else {| content := content s; pos := Z.to_nat off; failbit := false |}.

(** ** The part the three [main] functions share *)

Record image : Set := {
  img_fileHeader : BMPFileHeader;
  img_infoHeader : BMPInfoHeader;
  img_width : Z;
  img_height : Z;
  img_bytesPerPixel : Z;
  img_rowSize : Z;
  img_pixelData : list byte
}.

Definition open (input : option (list byte)) : result ifstream :=
  match input with
  | Some bs => Ok {| content := bs; pos := 0; failbit := false |}
  | None => Err OpenError
  end.

(** From the read of the file header to [inputFile.close()].  A struct
    that its read did not fill completely is treated as indeterminate as
    soon as the program goes on past the signature check. *)
Definition decode (unsigned_dims : bool) (inputFile : ifstream)
  : result image :=
  let '(fhb, inputFile) := read 14 inputFile in
  if bool_decide (length fhb < 2)%nat then Crash IndeterminateValue
  else if bool_decide (field 0 2 fhb ≠ 19778 (* 0x4D42 *)) then Err FormatError
  else
    let '(ihb, inputFile) := read 40 inputFile in
    if bool_decide (length fhb < 14 ∨ length ihb < 40)%nat
    then Crash IndeterminateValue
    else
      let fileHeader := parseFileHeader fhb in
      let infoHeader := parseInfoHeader unsigned_dims ihb in
      let width := wrap32 (biWidth infoHeader) in
      let height := wrap32 (biHeight infoHeader) in
      let bitCount := biBitCount infoHeader in
      let bytesPerPixel := Z.quot bitCount 8 in
      if bool_decide (bitCount ≠ 24) && bool_decide (bitCount ≠ 32)
         || bool_decide (biCompression infoHeader ≠ 0)
      then Err UnsupportedFormatError
      else
        let rowSize := align4 (wrap32 (width * bytesPerPixel)) in
        pixelData ← resize (wrap32 (rowSize * height)) [];
        let inputFile := seekg (bfOffBits fileHeader) inputFile in
        let '(got, inputFile) := read (length pixelData) inputFile in
        Ok {| img_fileHeader := fileHeader;
              img_infoHeader := infoHeader;
              img_width := width;
              img_height := height;
              img_bytesPerPixel := bytesPerPixel;
              img_rowSize := rowSize;
              img_pixelData := got ++ drop (length got) pixelData |}.

(** Opening the input and decoding it: each [main] up to
    [inputFile.close()]. *)
Definition decode_file (unsigned_dims : bool) (input : option (list byte))
  : result image :=
  inputFile ← open input; decode unsigned_dims inputFile.

(** The three [write] calls that emit a file. *)
Definition encode (fileHeader : BMPFileHeader) (infoHeader : BMPInfoHeader)
    (pixelData : list byte) : list byte :=
  serializeFileHeader fileHeader ++ serializeInfoHeader infoHeader
  ++ pixelData.

(** What a run leaves behind: the files it wrote, in order, and how it
    ended ([Ok tt] is [return 0]). *)
Record run : Type := Run {
  written : list (string * list byte);
  status : result unit
}.

Definition stopped {A} (files : list (string * list byte)) (r : result A)
  : run :=
  match r with
  | Ok _ => Run files (Ok tt)
  | Err e => Run files (Err e)
  | Crash f => Run files (Crash f)
  end.

(** ** Image_cropping.cpp : main *)

Module Crop.

Definition outputFileName : string := "output2_crop.bmp".

(** [main] with the region of interest as a parameter; [openable] tells
    which output paths the environment lets the program open. *)
Definition main_roi (input : option (list byte)) (openable : string → bool)
    (cropX cropY cropWidth cropHeight : Z) : run :=
  match decode_file true input with
  | Ok img =>
    let fileHeader := img_fileHeader img in
    let infoHeader := img_infoHeader img in
    let width := img_width img in
    let height := img_height img in
    let bytesPerPixel := img_bytesPerPixel img in
    if bool_decide (wrap32 (cropX + cropWidth) > width)
       || bool_decide (wrap32 (cropY + cropHeight) > height)
    then Run [] (Err BoundsError)
    else
      match cropImage (img_pixelData img) [] width height bytesPerPixel
                      (img_rowSize img) cropX cropY cropWidth cropHeight with
      | Ok croppedPixelData =>
        let croppedRowSize := align4 (wrap32 (cropWidth * bytesPerPixel)) in
        let croppedInfoHeader :=
          {| biSize := biSize infoHeader;
             biWidth := u32 cropWidth;
             biHeight := u32 cropHeight;
             biPlanes := biPlanes infoHeader;
             biBitCount := biBitCount infoHeader;
             biCompression := biCompression infoHeader;
             biSizeImage := u32 (wrap32 (croppedRowSize * cropHeight));
             biXPelsPerMeter := biXPelsPerMeter infoHeader;
             biYPelsPerMeter := biYPelsPerMeter infoHeader;
             biClrUsed := biClrUsed infoHeader;
             biClrImportant := biClrImportant infoHeader |} in
        let croppedFileHeader :=
          {| bfType := bfType fileHeader;
             bfSize := u32 (biSizeImage croppedInfoHeader
                            + bfOffBits fileHeader);
             bfReserved1 := bfReserved1 fileHeader;
             bfReserved2 := bfReserved2 fileHeader;
             bfOffBits := bfOffBits fileHeader |} in
        if openable outputFileName
        then Run [(outputFileName,
                   encode croppedFileHeader croppedInfoHeader croppedPixelData)]
                 (Ok tt)
        else Run [] (Err OpenError)
      | r => stopped [] r
      end
  | r => stopped [] r
  end.

Definition main (input : option (list byte)) (openable : string → bool)
  : run :=
  main_roi input openable 120 150 100 100.

End Crop.

(** ** Quantization_Resolution.cpp : main *)

Module Quantization.

(** One "Process" block: copy the buffer, quantize the copy, write it.  The
    program does not test whether the output stream opened; writes to a
    stream that did not open leave no file. *)
Definition process (img : image) (openable : string → bool)
    (outputFileName : string) (quantizationBits : Z) (r : run) : run :=
  match status r with
  | Ok _ =>
    match quantizePixelData (img_pixelData img) (img_bytesPerPixel img)
            (img_width img) (img_height img) (img_rowSize img)
            quantizationBits with
    | Ok pixelData =>
      Run (written r
           ++ if openable outputFileName
              then [(outputFileName,
                     encode (img_fileHeader img) (img_infoHeader img)
                            pixelData)]
              else [])
          (Ok tt)
    | q => stopped (written r) q
    end
  | _ => r
  end.

Definition main (input : option (list byte)) (openable : string → bool)
  : run :=
  match decode_file false input with
  | Ok img =>
    process img openable "output2_3.bmp" 2
      (process img openable "output2_2.bmp" 4
         (process img openable "output2_1.bmp" 6 (Run [] (Ok tt))))
  | r => stopped [] r
  end.

End Quantization.

(** ** flip_horizontally.cpp : main *)

Module Flip.

Definition outputFileName : string := "output1_filp.bmp".

Definition main (input : option (list byte)) (openable : string → bool)
  : run :=
  match decode_file false input with
  | Ok img =>
    match flipHorizontally (img_pixelData img) (img_width img)
            (img_height img) (img_rowSize img) (img_bytesPerPixel img) with
    | Ok pixelData =>
      if openable outputFileName
      then Run [(outputFileName,
                 encode (img_fileHeader img) (img_infoHeader img) pixelData)]
               (Ok tt)
      else Run [] (Err OpenError)
    | r => stopped [] r
    end
  | r => stopped [] r
  end.

End Flip.

(** ** Loop bodies, index sets of the loops, and well-formed buffers *)

(** [buf[i] = f(buf[i])] for a total [f]: what the body of the quantization
    loop amounts to when its factor is not zero. *)
Definition modify (f : byte → byte) (i : Z) (buf : list byte)
  : result (list byte) :=
  v ← load buf i; store buf i (f v).

(** The byte [v / step * step], both operations on mathematical
    integers, the division rounding down. *)
Definition quantized (step : Z) (v : byte) : byte :=
  Z_to_byte (byte_to_Z v / step * step).

(** The element indexes [quantizePixelData] visits, in program order. *)
Definition channel_indexes (bytesPerPixel width height rowSize : Z) : list Z :=
  y ← seqZ 0 height; x ← seqZ 0 width; byte ← seqZ 0 3;
  [wrap32 (y * rowSize) + wrap32 (wrap32 (x * bytesPerPixel) + byte)].

(** The pairs of element indexes [flipHorizontally] swaps, in program
    order. *)
Definition flip_pairs (bytesPerPixel width height rowSize : Z)
  : list (Z * Z) :=
  y ← seqZ 0 height; x ← seqZ 0 (Z.quot width 2); byte ← seqZ 0 bytesPerPixel;
  [(wrap32 (y * rowSize) + wrap32 (wrap32 (x * bytesPerPixel) + byte),
    wrap32 (y * rowSize)
    + wrap32 (wrap32 (wrap32 (wrap32 (width - x) - 1) * bytesPerPixel)
              + byte))].

(** All the indexes a list of swaps touches. *)
Definition touched (pairs : list (Z * Z)) : list Z :=
  pairs ≫= λ p, [p.1; p.2].

(** A buffer of [height] rows of [rowSize] bytes whose first
    [width * bytesPerPixel] bytes are pixels, allocated through an [int]
    size. *)
Definition buffer_ok (buf : list byte) (bytesPerPixel width height rowSize : Z)
  : Prop :=
  0 ≤ bytesPerPixel ∧ 0 ≤ width ∧ 0 ≤ height
  ∧ width * bytesPerPixel ≤ rowSize
  ∧ Z.of_nat (length buf) = rowSize * height
  ∧ rowSize * height ≤ INT_MAX.

(** ** Well-formed headers and decoded images *)

(** Every field within the range of its C type. *)
Definition fileHeader_ok (h : BMPFileHeader) : Prop :=
  0 ≤ bfType h < 2 ^ 16 ∧ 0 ≤ bfSize h < 2 ^ 32
  ∧ 0 ≤ bfReserved1 h < 2 ^ 16 ∧ 0 ≤ bfReserved2 h < 2 ^ 16
  ∧ 0 ≤ bfOffBits h < 2 ^ 32.

Definition dim_ok (unsigned_dims : bool) (z : Z) : Prop :=
  if unsigned_dims then 0 ≤ z < 2 ^ 32 else INT_MIN ≤ z ≤ INT_MAX.

Definition infoHeader_ok (unsigned_dims : bool) (h : BMPInfoHeader) : Prop :=
  0 ≤ biSize h < 2 ^ 32
  ∧ dim_ok unsigned_dims (biWidth h) ∧ dim_ok unsigned_dims (biHeight h)
  ∧ 0 ≤ biPlanes h < 2 ^ 16 ∧ 0 ≤ biBitCount h < 2 ^ 16
  ∧ 0 ≤ biCompression h < 2 ^ 32 ∧ 0 ≤ biSizeImage h < 2 ^ 32
  ∧ INT_MIN ≤ biXPelsPerMeter h ≤ INT_MAX
  ∧ INT_MIN ≤ biYPelsPerMeter h ≤ INT_MAX
  ∧ 0 ≤ biClrUsed h < 2 ^ 32 ∧ 0 ≤ biClrImportant h < 2 ^ 32.

(** The stride and the buffer size of a decoded image were computed
    without leaving the range of [int]. *)
Definition no_overflow (img : image) : Prop :=
  img_width img * img_bytesPerPixel img + 3 ≤ INT_MAX
  ∧ img_rowSize img * img_height img ≤ INT_MAX.

(** ** Sample files *)

Definition sample_infoHeader : BMPInfoHeader :=
  {| biSize := 40; biWidth := 1; biHeight := 1; biPlanes := 1;
     biBitCount := 24; biCompression := 0; biSizeImage := 4;
     biXPelsPerMeter := 2835; biYPelsPerMeter := 2835;
     biClrUsed := 0; biClrImportant := 0 |}.

Definition sample_pixels : list byte :=
  [Byte.x10; Byte.x20; Byte.x30; Byte.x00].

(** A 1x1 24-bit image: 54 header bytes, then one padded row. *)
Definition bmp_1x1 : list byte :=
  encode {| bfType := 19778; bfSize := 58; bfReserved1 := 0;
            bfReserved2 := 0; bfOffBits := 54 |}
         sample_infoHeader sample_pixels.

(** The same image with four more bytes between the headers and the pixel
    data, [bfOffBits] and [bfSize] saying so. *)
Definition bmp_gap : list byte :=
  encode {| bfType := 19778; bfSize := 62; bfReserved1 := 0;
            bfReserved2 := 0; bfOffBits := 58 |}
         sample_infoHeader
         ([Byte.xde; Byte.xad; Byte.xbe; Byte.xef] ++ sample_pixels).


(** What decoding [bmp_1x1] gives. *)
Definition sample_image : image :=
  {| img_fileHeader :=
       {| bfType := 19778; bfSize := 58; bfReserved1 := 0;
          bfReserved2 := 0; bfOffBits := 54 |};
     img_infoHeader := sample_infoHeader;
     img_width := 1;
     img_height := 1;
     img_bytesPerPixel := 3;
     img_rowSize := 4;
     img_pixelData := sample_pixels |}.

(** The image of [bmp_1x1] stored top-down: a height of -1. *)
Definition bmp_top_down : list byte :=
  encode {| bfType := 19778; bfSize := 58; bfReserved1 := 0;
            bfReserved2 := 0; bfOffBits := 54 |}
         {| biSize := 40; biWidth := 1; biHeight := -1; biPlanes := 1;
            biBitCount := 24; biCompression := 0; biSizeImage := 4;
            biXPelsPerMeter := 2835; biYPelsPerMeter := 2835;
            biClrUsed := 0; biClrImportant := 0 |}
         sample_pixels.

(** An 8-bit (palette) image header followed by one padded row. *)
Definition bmp_8bit : list byte :=
  encode {| bfType := 19778; bfSize := 58; bfReserved1 := 0;
            bfReserved2 := 0; bfOffBits := 54 |}
         {| biSize := 40; biWidth := 1; biHeight := 1; biPlanes := 1;
            biBitCount := 8; biCompression := 0; biSizeImage := 4;
            biXPelsPerMeter := 2835; biYPelsPerMeter := 2835;
            biClrUsed := 0; biClrImportant := 0 |}
         sample_pixels.

(** The first bytes of a PNG file. *)
Definition not_a_bmp : list byte :=
  [Byte.x89; Byte.x50; Byte.x4e; Byte.x47; Byte.x0d; Byte.x0a].

(** The headers of a 220 by 250 image of 24 bits, with no pixel data behind
    them. *)
Definition bmp_220x250_header : list byte :=
  encode {| bfType := 19778; bfSize := 165054; bfReserved1 := 0;
            bfReserved2 := 0; bfOffBits := 54 |}
         {| biSize := 40; biWidth := 220; biHeight := 250; biPlanes := 1;
            biBitCount := 24; biCompression := 0; biSizeImage := 165000;
            biXPelsPerMeter := 2835; biYPelsPerMeter := 2835;
            biClrUsed := 0; biClrImportant := 0 |}
         [].

(** * Properties *)

(** ** Integers and bytes *)

Lemma wrap32_id z : INT_MIN ≤ z ≤ INT_MAX → wrap32 z = z.
Proof.
  unfold wrap32, INT_MIN, INT_MAX. intros H.
  rewrite Z.mod_small; lia.
Qed.

Lemma wrap32_range z : INT_MIN ≤ wrap32 z ≤ INT_MAX.
Proof.
  unfold wrap32, INT_MIN, INT_MAX.
  pose proof (Z.mod_pos_bound (z + 2 ^ 31) (2 ^ 32)). lia.
Qed.

Lemma byte_to_Z_range b : 0 ≤ byte_to_Z b < 256.
Proof.
  unfold byte_to_Z. pose proof (Byte.to_N_bounded b). lia.
Qed.

Lemma byte_to_Z_to_byte z : byte_to_Z (Z_to_byte z) = z `mod` 256.
Proof.
  unfold byte_to_Z, Z_to_byte.
  pose proof (Z.mod_pos_bound z 256).
  destruct (Byte.of_N (Z.to_N (z `mod` 256))) as [b|] eqn:E; simpl.
  - apply Byte.to_of_N in E. rewrite E. lia.
  - apply Byte.of_N_None_iff in E. lia.
Qed.

Lemma Z_to_byte_to_Z b : Z_to_byte (byte_to_Z b) = b.
Proof.
  unfold Z_to_byte. pose proof (byte_to_Z_range b).
  rewrite Z.mod_small by lia. unfold byte_to_Z.
  rewrite N2Z.id, Byte.of_to_N. done.
Qed.

Lemma byte_to_Z_inj a b : byte_to_Z a = byte_to_Z b → a = b.
Proof.
  intros H. rewrite <- (Z_to_byte_to_Z a), <- (Z_to_byte_to_Z b). by rewrite H.
Qed.

Lemma Ok_inj {A} (a b : A) : Ok a = Ok b → a = b.
Proof. by intros [= ->]. Qed.

(** ** Loads and stores *)

Lemma load_Ok buf i v :
  load buf i = Ok v ↔ 0 ≤ i ∧ buf !! Z.to_nat i = Some v.
Proof.
  unfold load, in_range. case_bool_decide as Hr.
  - destruct (buf !! Z.to_nat i) eqn:E.
    + split; [intros [= ->]; split; [lia|done] | by intros [_ [= ->]]].
    + split; [done | by intros [_ ?]].
  - split; [done|]. intros [? Hl]. apply lookup_lt_Some in Hl. lia.
Qed.

Lemma load_in_range buf i :
  0 ≤ i < Z.of_nat (length buf) → ∃ v, load buf i = Ok v.
Proof.
  intros H. destruct (lookup_lt_is_Some_2 buf (Z.to_nat i)) as [v Hv]; [lia|].
  exists v. apply load_Ok. split; [lia|done].
Qed.

Lemma store_Ok buf i v :
  0 ≤ i < Z.of_nat (length buf) →
  store buf i v = Ok (<[Z.to_nat i := v]> buf).
Proof. intros H. unfold store, in_range. by rewrite bool_decide_eq_true_2. Qed.

(** ** Loops *)

Lemma forM_app {A S} (body : A → S → result S) l1 l2 s :
  forM body (l1 ++ l2) s = s' ← forM body l1 s; forM body l2 s'.
Proof.
  revert s. induction l1 as [|a l1 IH]; intros s; simpl; [done|].
  destruct (body a s); simpl; auto.
Qed.

(** Nested loops run the innermost body over the flattened index list. *)
Lemma forM_bind {A B S} (body : B → S → result S) (f : A → list B) l s :
  forM (λ a, forM body (f a)) l s = forM body (l ≫= f) s.
Proof.
  revert s. induction l as [|a l IH]; intros s; [done|].
  rewrite bind_cons, forM_app. simpl.
  destruct (forM body (f a) s); simpl; auto.
Qed.

Lemma forM_ext {A S} (body1 body2 : A → S → result S) l s :
  (∀ a s, a ∈ l → body1 a s = body2 a s) →
  forM body1 l s = forM body2 l s.
Proof.
  revert s. induction l as [|a l IH]; intros s H; simpl; [done|].
  rewrite H by left. destruct (body2 a s); simpl; [|done..].
  apply IH. intros. apply H. by right.
Qed.

(** The same update applied along a list of in-range indexes: for an
    idempotent update, a visited element is updated, whatever the number of
    visits, and the others are kept. *)
Lemma forM_modify (f : byte → byte) idxs buf :
  (∀ v, f (f v) = f v) →
  Forall (λ i, 0 ≤ i < Z.of_nat (length buf)) idxs →
  ∃ buf', forM (modify f) idxs buf = Ok buf'
    ∧ length buf' = length buf
    ∧ ∀ k : nat, buf' !! k
        = (if decide (Z.of_nat k ∈ idxs) then f else id) <$> buf !! k.
Proof.
  intros Hf. revert buf. induction idxs as [|i idxs IH]; intros buf Hin.
  { exists buf. split_and!; [done..|]. intros k.
    destruct (decide (Z.of_nat k ∈ [])) as [H|_]; [by apply elem_of_nil in H|].
    by destruct (buf !! k). }
  apply Forall_cons in Hin as [Hi Hin].
  destruct (load_in_range buf i Hi) as [v Hv].
  destruct (IH (<[Z.to_nat i := f v]> buf)) as (buf' & Hrun & Hlen & Hget).
  { by rewrite length_insert. }
  exists buf'. split_and!.
  - simpl. unfold modify. rewrite Hv. simpl. rewrite store_Ok by done. done.
  - by rewrite Hlen, length_insert.
  - intros k. rewrite Hget. apply load_Ok in Hv as [_ Hv].
    destruct (decide (k = Z.to_nat i)) as [->|Hne].
    + rewrite list_lookup_insert_eq by lia. rewrite Hv. simpl.
      rewrite Z2Nat.id by lia.
      rewrite (decide_True (P := i ∈ i :: idxs)) by left.
      case_decide; simpl; by rewrite ?Hf.
    + rewrite list_lookup_insert_ne by done.
      assert (Z.of_nat k ≠ i) by lia.
      destruct (decide (Z.of_nat k ∈ idxs)).
      * by rewrite decide_True by (by right).
      * rewrite decide_False; [done|]. rewrite elem_of_cons. by intros [?|?].
Qed.

(** ** Quantize *)

Lemma quantize_factor bits :
  1 ≤ bits ≤ 8 →
  (levels ← ishl 1 bits; idiv 255 (wrap32 (levels - 1)))
    = Ok (255 / (2 ^ bits - 1))
  ∧ 1 ≤ 255 / (2 ^ bits - 1) ≤ 255.
Proof.
  intros H.
  assert (bits = 1 ∨ bits = 2 ∨ bits = 3 ∨ bits = 4
          ∨ bits = 5 ∨ bits = 6 ∨ bits = 7 ∨ bits = 8) as Hb by lia.
  destruct_or!; subst bits; split; (reflexivity || (vm_compute; by split)).
Qed.

Lemma quantized_Z step v :
  1 ≤ step ≤ 255 →
  byte_to_Z (quantized step v) = byte_to_Z v / step * step.
Proof.
  intros Hf. pose proof (byte_to_Z_range v) as Hv.
  unfold quantized. rewrite byte_to_Z_to_byte.
  pose proof (Z.mul_div_le (byte_to_Z v) step ltac:(lia)).
  pose proof (Z.div_pos (byte_to_Z v) step ltac:(lia) ltac:(lia)).
  apply Z.mod_small. nia.
Qed.

Lemma quantized_idem step v :
  1 ≤ step ≤ 255 → quantized step (quantized step v) = quantized step v.
Proof.
  intros Hf. apply byte_to_Z_inj.
  rewrite !quantized_Z by done. by rewrite Z.div_mul by lia.
Qed.

(** With a factor in [1, 255] the assignment of the loop body neither
    divides by zero nor wraps. *)
Lemma quantizeValue_Ok factor v :
  1 ≤ factor ≤ 255 → quantizeValue factor v = Ok (quantized factor v).
Proof.
  intros Hf. pose proof (byte_to_Z_range v) as Hv.
  unfold quantizeValue, idiv, quantized.
  rewrite bool_decide_eq_false_2 by lia. cbn [mbind result_bind].
  rewrite Z.quot_div_nonneg by lia.
  pose proof (Z.mul_div_le (byte_to_Z v) factor ltac:(lia)).
  pose proof (Z.div_pos (byte_to_Z v) factor ltac:(lia) ltac:(lia)).
  rewrite (wrap32_id (_ / _)) by (unfold INT_MIN, INT_MAX; nia).
  rewrite wrap32_id by (unfold INT_MIN, INT_MAX; nia).
  done.
Qed.

Lemma quantize_body factor i buf :
  1 ≤ factor ≤ 255 →
  (colorValue ← load buf i;
   colorValue ← quantizeValue factor colorValue;
   store buf i colorValue)
  = modify (quantized factor) i buf.
Proof.
  intros Hf. unfold modify. destruct (load buf i) as [v| |]; [|done..].
  cbn [mbind result_bind]. by rewrite quantizeValue_Ok.
Qed.

Lemma quantize_loops factor buf bpp width height rowSize :
  1 ≤ factor ≤ 255 →
  for_lt height (λ y pixelData,
    for_lt width (λ x pixelData,
      for_lt 3 (λ byte pixelData,
        colorValue ←
          load pixelData
               (wrap32 (y * rowSize) + wrap32 (wrap32 (x * bpp) + byte));
        colorValue ← quantizeValue factor colorValue;
        store pixelData
              (wrap32 (y * rowSize) + wrap32 (wrap32 (x * bpp) + byte))
              colorValue)
      pixelData)
    pixelData)
  buf
  = forM (modify (quantized factor))
         (channel_indexes bpp width height rowSize) buf.
Proof.
  intros Hf. unfold channel_indexes, for_lt.
  rewrite <- forM_bind. apply forM_ext; intros y s _.
  rewrite <- forM_bind. apply forM_ext; intros x s' _.
  rewrite <- forM_bind. apply forM_ext; intros c s'' _.
  rewrite quantize_body by done.
  simpl. by destruct (modify _ _ _).
Qed.

Lemma quantizePixelData_eq buf bpp width height rowSize bits :
  1 ≤ bits ≤ 8 →
  quantizePixelData buf bpp width height rowSize bits
  = forM (modify (quantized (255 / (2 ^ bits - 1))))
         (channel_indexes bpp width height rowSize) buf.
Proof.
  intros Hbits. destruct (quantize_factor bits Hbits) as [Hfac Hrange].
  unfold quantizePixelData.
  destruct (ishl 1 bits) as [levels| |]; [|done..].
  cbn [mbind result_bind] in Hfac |- *. rewrite Hfac.
  cbn [mbind result_bind]. by apply quantize_loops.
Qed.

(** Inside a well-formed buffer the index arithmetic does not wrap. *)
Lemma pixel_index buf bpp width height rowSize y x c :
  buffer_ok buf bpp width height rowSize →
  0 ≤ y < height → 0 ≤ x < width → 0 ≤ c < bpp →
  wrap32 (y * rowSize) + wrap32 (wrap32 (x * bpp) + c)
    = y * rowSize + x * bpp + c
  ∧ 0 ≤ y * rowSize + x * bpp + c < Z.of_nat (length buf).
Proof.
  intros (Hb & Hw & Hh & Hrs & Hlen & Hmax) Hy Hx Hc.
  unfold INT_MAX in Hmax.
  assert (0 ≤ rowSize) by nia.
  assert (0 ≤ y * rowSize ∧ y * rowSize + rowSize ≤ rowSize * height) by nia.
  assert (0 ≤ x * bpp ∧ x * bpp + bpp ≤ width * bpp) by nia.
  rewrite (wrap32_id (x * bpp)), (wrap32_id (x * bpp + c)),
    (wrap32_id (y * rowSize)) by (unfold INT_MIN, INT_MAX; lia).
  lia.
Qed.

Lemma channel_indexes_elem bpp width height rowSize i :
  i ∈ channel_indexes bpp width height rowSize ↔
  ∃ y x c, 0 ≤ y < height ∧ 0 ≤ x < width ∧ 0 ≤ c < 3
    ∧ i = wrap32 (y * rowSize) + wrap32 (wrap32 (x * bpp) + c).
Proof.
  unfold channel_indexes. split.
  - intros (y & (x & (c & Hi & Hc)%list_elem_of_bind & Hx)%list_elem_of_bind
            & Hy)%list_elem_of_bind.
    apply list_elem_of_singleton in Hi. apply elem_of_seqZ in Hc, Hx, Hy.
    exists y, x, c. split_and!; (done || lia).
  - intros (y & x & c & Hy & Hx & Hc & ->).
    apply list_elem_of_bind. exists y. split; [|apply elem_of_seqZ; lia].
    apply list_elem_of_bind. exists x. split; [|apply elem_of_seqZ; lia].
    apply list_elem_of_bind. exists c. split; [|apply elem_of_seqZ; lia].
    by apply list_elem_of_singleton.
Qed.

(** What [quantizePixelData] returns for a bit depth in [1, 8]: every
    visited element quantized with step [255 / (2 ^ bits - 1)], the others
    kept. *)
Lemma quantizePixelData_spec buf bpp width height rowSize bits :
  buffer_ok buf bpp width height rowSize → 3 ≤ bpp → 1 ≤ bits ≤ 8 →
  ∃ buf',
    quantizePixelData buf bpp width height rowSize bits = Ok buf'
    ∧ length buf' = length buf
    ∧ ∀ k : nat, buf' !! k
        = (if decide (Z.of_nat k ∈ channel_indexes bpp width height rowSize)
           then quantized (255 / (2 ^ bits - 1)) else id) <$> buf !! k.
Proof.
  intros Hok Hbpp Hbits.
  destruct (quantize_factor bits Hbits) as [Hfac Hrange].
  rewrite quantizePixelData_eq by done.
  apply forM_modify.
  - intros v. by apply quantized_idem.
  - apply Forall_forall. intros i (y & x & c & Hy & Hx & Hc & ->)%channel_indexes_elem.
    destruct (pixel_index buf bpp width height rowSize y x c) as [-> ?];
      (done || lia).
Qed.

(** C1. For a bit depth in [1, 8], [quantizePixelData] replaces every
    colour-channel byte [v] (bytes 0, 1, 2 of every pixel of every row) by
    [v / step * step] with [step = 255 / (2 ^ bits - 1)], both divisions
    rounding down; for [bits = 1] the byte 255 stays 255 and every other
    byte becomes 0. *)
Theorem quantize_channel_bytes buf bpp width height rowSize bits :
  buffer_ok buf bpp width height rowSize → 3 ≤ bpp → 1 ≤ bits ≤ 8 →
  ∃ buf',
    quantizePixelData buf bpp width height rowSize bits = Ok buf'
    ∧ ∀ y x c, 0 ≤ y < height → 0 ≤ x < width → 0 ≤ c < 3 →
      ∃ v v',
        load buf (y * rowSize + x * bpp + c) = Ok v
        ∧ load buf' (y * rowSize + x * bpp + c) = Ok v'
        ∧ byte_to_Z v'
          = byte_to_Z v / (255 / (2 ^ bits - 1)) * (255 / (2 ^ bits - 1))
        ∧ (bits = 1 →
           byte_to_Z v' = if bool_decide (byte_to_Z v = 255) then 255 else 0).
Proof.
  intros Hok Hbpp Hbits.
  destruct (quantizePixelData_spec buf bpp width height rowSize bits)
    as (buf' & Hrun & Hlen & Hget); [done..|].
  exists buf'. split; [done|]. intros y x c Hy Hx Hc.
  destruct (pixel_index buf bpp width height rowSize y x c) as [Hi Hin];
    [done || lia..|].
  destruct (load_in_range buf _ Hin) as [v Hv].
  pose proof Hv as [_ Hv']%load_Ok.
  specialize (Hget (Z.to_nat (y * rowSize + x * bpp + c))).
  rewrite Z2Nat.id, Hv', decide_True in Hget; [|  | lia].
  2:{ apply channel_indexes_elem. exists y, x, c. by rewrite Hi. }
  simpl in Hget.
  exists v, (quantized (255 / (2 ^ bits - 1)) v).
  split_and!; [done | apply load_Ok; split; [lia|done] | |].
  - apply quantized_Z. by apply quantize_factor.
  - intros ->. rewrite quantized_Z by (by vm_compute).
    change (255 / (2 ^ 1 - 1)) with 255.
    pose proof (byte_to_Z_range v). case_bool_decide as Hv255.
    + by rewrite Hv255.
    + rewrite Z.div_small by lia. done.
Qed.

Lemma quantize_channel_bytes_witness :
  ∃ buf',
    quantizePixelData [Byte.x10; Byte.xff; Byte.x7f; Byte.x00] 3 1 1 4 1
      = Ok buf'
    ∧ ∀ y x c, 0 ≤ y < 1 → 0 ≤ x < 1 → 0 ≤ c < 3 →
      ∃ v v',
        load [Byte.x10; Byte.xff; Byte.x7f; Byte.x00] (y * 4 + x * 3 + c)
          = Ok v
        ∧ load buf' (y * 4 + x * 3 + c) = Ok v'
        ∧ byte_to_Z v'
          = byte_to_Z v / (255 / (2 ^ 1 - 1)) * (255 / (2 ^ 1 - 1))
        ∧ (1 = 1 →
           byte_to_Z v' = if bool_decide (byte_to_Z v = 255) then 255 else 0).
Proof.
  apply (quantize_channel_bytes
           [Byte.x10; Byte.xff; Byte.x7f; Byte.x00] 3 1 1 4 1).
  - unfold buffer_ok, INT_MAX. simpl. lia.
  - lia.
  - lia.
Defined.

(** C10. For a fixed bit depth in [1, 8], quantizing an already quantized
    buffer returns it unchanged. *)
Theorem quantize_idempotent buf bpp width height rowSize bits :
  buffer_ok buf bpp width height rowSize → 3 ≤ bpp → 1 ≤ bits ≤ 8 →
  ∃ buf',
    quantizePixelData buf bpp width height rowSize bits = Ok buf'
    ∧ quantizePixelData buf' bpp width height rowSize bits = Ok buf'.
Proof.
  intros Hok Hbpp Hbits.
  destruct (quantizePixelData_spec buf bpp width height rowSize bits)
    as (buf1 & Hrun1 & Hlen1 & Hget1); [done..|].
  assert (buffer_ok buf1 bpp width height rowSize) as Hok1.
  { unfold buffer_ok in *. by rewrite Hlen1. }
  destruct (quantizePixelData_spec buf1 bpp width height rowSize bits)
    as (buf2 & Hrun2 & Hlen2 & Hget2); [done..|].
  exists buf1. split; [done|]. rewrite Hrun2. f_equal.
  apply list_eq. intros k. rewrite Hget2, Hget1.
  destruct (buf !! k) as [v|]; [|done]. simpl.
  case_decide; simpl; [|done].
  f_equal. apply quantized_idem. by apply quantize_factor.
Qed.

Lemma quantize_idempotent_witness :
  ∃ buf',
    quantizePixelData [Byte.x10; Byte.xff; Byte.x7f; Byte.x00] 3 1 1 4 2
      = Ok buf'
    ∧ quantizePixelData buf' 3 1 1 4 2 = Ok buf'.
Proof.
  apply (quantize_idempotent
           [Byte.x10; Byte.xff; Byte.x7f; Byte.x00] 3 1 1 4 2).
  - unfold buffer_ok, INT_MAX. simpl. lia.
  - lia.
  - lia.
Defined.

Lemma forM_not_Err {A S} (body : A → S → result S) l s e :
  (∀ a s e, body a s ≠ Err e) → forM body l s ≠ Err e.
Proof.
  intros Hbody. revert s. induction l as [|a l IH]; intros s; simpl; [done|].
  destruct (body a s) eqn:E; simpl; [apply IH | by apply Hbody in E | done].
Qed.

Lemma quantize_body_not_Err factor i buf e :
  (colorValue ← load buf i;
   colorValue ← quantizeValue factor colorValue;
   store buf i colorValue) ≠ Err e.
Proof.
  unfold load, store, quantizeValue, idiv.
  destruct (in_range buf i); [|done].
  destruct (buf !! Z.to_nat i); [|done]. cbn [mbind result_bind].
  by case_bool_decide.
Qed.

(** With [quantizationBits = 0] the divisor [levels - 1] is zero and
    nothing stands between the call and the division. *)
Lemma quantizePixelData_bits0 buf bpp width height rowSize :
  quantizePixelData buf bpp width height rowSize 0 = Crash DivisionByZero.
Proof. reflexivity. Qed.

(** C4, as the specification states it, fails: with [bits = 0] a 1x1
    24-bit buffer makes [quantizePixelData] divide by zero; no
    [InvalidParameterError] is reported. *)
Lemma quantize_bits0_not_rejected :
  quantizePixelData [Byte.x10; Byte.xff; Byte.x7f; Byte.x00] 3 1 1 4 0
    = Crash DivisionByZero
  ∧ quantizePixelData [Byte.x10; Byte.xff; Byte.x7f; Byte.x00] 3 1 1 4 0
    ≠ Err InvalidParameterError.
Proof. split; [reflexivity | discriminate]. Qed.

(** C4, amended. [quantizePixelData] does not validate its bit depth: with
    [bits = 0] the division [255 / (levels - 1)] by zero is reached, for
    every buffer and every geometry, and for no bit depth at all does the
    function report an error. *)
Theorem quantize_no_parameter_check buf bpp width height rowSize :
  quantizePixelData buf bpp width height rowSize 0 = Crash DivisionByZero
  ∧ ∀ bits e, quantizePixelData buf bpp width height rowSize bits ≠ Err e.
Proof.
  split; [apply quantizePixelData_bits0|].
  intros bits e. unfold quantizePixelData.
  destruct (ishl 1 bits) as [levels| |] eqn:Hl; cbn [mbind result_bind];
    [|by unfold ishl in Hl; case_bool_decide|done].
  destruct (idiv 255 (wrap32 (levels - 1))) as [factor| |] eqn:Hf;
    cbn [mbind result_bind];
    [|by unfold idiv in Hf; case_bool_decide|done].
  apply forM_not_Err. intros y s1 e1.
  apply forM_not_Err. intros x s2 e2.
  apply forM_not_Err. intros c s3 e3.
  apply quantize_body_not_Err.
Qed.

(** ** FlipHorizontal *)

Lemma swap_Ok buf i j a b :
  0 ≤ i < Z.of_nat (length buf) → 0 ≤ j < Z.of_nat (length buf) →
  buf !! Z.to_nat i = Some a → buf !! Z.to_nat j = Some b →
  swap i j buf = Ok (<[Z.to_nat j := a]> (<[Z.to_nat i := b]> buf)).
Proof.
  intros Hi Hj Ha Hb. unfold swap.
  rewrite (proj2 (load_Ok buf i a)) by (split; [lia|done]). simpl.
  rewrite (proj2 (load_Ok buf j b)) by (split; [lia|done]). simpl.
  rewrite store_Ok by done. simpl.
  rewrite store_Ok by (rewrite length_insert; done). done.
Qed.

Lemma touched_cons i j pairs : touched ((i, j) :: pairs) = i :: j :: touched pairs.
Proof. done. Qed.

Lemma touched_elem pairs k :
  k ∈ touched pairs ↔ ∃ i j, (i, j) ∈ pairs ∧ (k = i ∨ k = j).
Proof.
  unfold touched. rewrite list_elem_of_bind. split.
  - intros ([i j] & Hk & Hp). exists i, j. split; [done|].
    simpl in Hk. rewrite !elem_of_cons, elem_of_nil in Hk. tauto.
  - intros (i & j & Hp & Hk). exists (i, j). split; [|done].
    simpl. rewrite !elem_of_cons. tauto.
Qed.

(** A run of swaps over pairwise distinct in-range indexes exchanges the
    two elements of every pair and keeps every other element. *)
Lemma forM_swap pairs buf :
  NoDup (touched pairs) →
  Forall (λ p, (0 ≤ p.1 < Z.of_nat (length buf))
               ∧ (0 ≤ p.2 < Z.of_nat (length buf))) pairs →
  ∃ buf',
    forM (λ p, swap p.1 p.2) pairs buf = Ok buf'
    ∧ length buf' = length buf
    ∧ (∀ i j, (i, j) ∈ pairs →
         buf' !! Z.to_nat i = buf !! Z.to_nat j
         ∧ buf' !! Z.to_nat j = buf !! Z.to_nat i)
    ∧ (∀ k : nat, Z.of_nat k ∉ touched pairs → buf' !! k = buf !! k).
Proof.
  revert buf. induction pairs as [|[i j] pairs IH]; intros buf Hnd Hin.
  { exists buf. split_and!; [done..| |done]. intros i j H. by apply elem_of_nil in H. }
  rewrite touched_cons in Hnd.
  apply NoDup_cons in Hnd as [Hi Hnd]. apply NoDup_cons in Hnd as [Hj Hnd].
  apply not_elem_of_cons in Hi as [Hij Hi].
  apply Forall_cons in Hin as [[Hri Hrj] Hin]. simpl in Hri, Hrj.
  destruct (lookup_lt_is_Some_2 buf (Z.to_nat i)) as [a Ha]; [lia|].
  destruct (lookup_lt_is_Some_2 buf (Z.to_nat j)) as [b Hb]; [lia|].
  set (buf1 := <[Z.to_nat j := a]> (<[Z.to_nat i := b]> buf)).
  assert (length buf1 = length buf) as Hlen1
    by (unfold buf1; by rewrite !length_insert).
  assert (Z.to_nat i ≠ Z.to_nat j) as Hnij by lia.
  assert (∀ k : nat, k ≠ Z.to_nat i → k ≠ Z.to_nat j → buf1 !! k = buf !! k)
    as Hother.
  { intros k ??. unfold buf1. by rewrite !list_lookup_insert_ne. }
  assert (buf1 !! Z.to_nat i = Some b) as H1i.
  { unfold buf1. rewrite list_lookup_insert_ne by done.
    rewrite list_lookup_insert_eq by lia. done. }
  assert (buf1 !! Z.to_nat j = Some a) as H1j.
  { unfold buf1. rewrite list_lookup_insert_eq; [done|].
    rewrite length_insert. lia. }
  destruct (IH buf1) as (buf' & Hrun & Hlen & Hsw & Hfr); [done| |].
  { eapply Forall_impl; [done|]. intros p. rewrite Hlen1. done. }
  assert (∀ i' j', (i', j') ∈ pairs →
            0 ≤ i' ∧ 0 ≤ j' ∧ i' ≠ i ∧ i' ≠ j ∧ j' ≠ i ∧ j' ≠ j) as Hps.
  { intros i' j' Hp.
    pose proof (proj1 (Forall_forall _ _) Hin _ Hp) as [??]. simpl in *.
    assert (i' ∈ touched pairs) by (apply touched_elem; eauto).
    assert (j' ∈ touched pairs) by (apply touched_elem; eauto).
    split_and!; try lia; congruence. }
  exists buf'. split_and!.
  - simpl. rewrite (swap_Ok buf i j a b) by done. done.
  - congruence.
  - intros i' j' [[= -> ->]|Hp]%elem_of_cons.
    + rewrite !Hfr by (rewrite Z2Nat.id by lia; done). by rewrite H1i, H1j, Ha, Hb.
    + destruct (Hps _ _ Hp) as (? & ? & ? & ? & ? & ?).
      destruct (Hsw _ _ Hp) as [-> ->].
      rewrite !Hother by lia. done.
  - intros k Hk. rewrite touched_cons, !not_elem_of_cons in Hk.
    destruct Hk as (? & ? & Hk). rewrite Hfr by done. apply Hother; lia.
Qed.

Lemma quot2_lt w x : 0 ≤ w → (x < Z.quot w 2 ↔ 2 * x + 2 ≤ w).
Proof.
  intros Hw. rewrite Z.quot_div_nonneg by lia.
  pose proof (Z.div_mod w 2 ltac:(lia)).
  pose proof (Z.mod_pos_bound w 2 ltac:(lia)). lia.
Qed.

Lemma touched_bind {A} (f : A → list (Z * Z)) l :
  touched (l ≫= f) = l ≫= λ a, touched (f a).
Proof.
  unfold touched. induction l as [|a l IH]; [done|].
  by rewrite !bind_cons, bind_app, IH.
Qed.

Section geometry.
Context (buf : list byte) (bpp width height rowSize : Z).
Context (Hok : buffer_ok buf bpp width height rowSize).

Local Abbreviation pix y x c := (y * rowSize + x * bpp + c).

(** Distinct (row, column, byte) triples name distinct elements. *)
Lemma pix_inj y1 x1 c1 y2 x2 c2 :
  0 ≤ y1 < height → 0 ≤ x1 < width → 0 ≤ c1 < bpp →
  0 ≤ y2 < height → 0 ≤ x2 < width → 0 ≤ c2 < bpp →
  pix y1 x1 c1 = pix y2 x2 c2 → y1 = y2 ∧ x1 = x2 ∧ c1 = c2.
Proof.
  destruct Hok as (Hb & Hw & Hh & Hrs & Hlen & Hmax).
  intros Hy1 Hx1 Hc1 Hy2 Hx2 Hc2 Heq.
  assert (0 ≤ x1 * bpp ∧ x1 * bpp + bpp ≤ width * bpp) by nia.
  assert (0 ≤ x2 * bpp ∧ x2 * bpp + bpp ≤ width * bpp) by nia.
  assert (y1 = y2) as -> by nia.
  assert (x1 = x2) as -> by nia.
  split_and!; [done..|lia].
Qed.

Lemma mirror_index y x c :
  0 ≤ y < height → 0 ≤ x < width → 0 ≤ c < bpp →
  wrap32 (y * rowSize)
  + wrap32 (wrap32 (wrap32 (wrap32 (width - x) - 1) * bpp) + c)
  = pix y (width - 1 - x) c.
Proof.
  intros Hy Hx Hc.
  destruct (pixel_index buf bpp width height rowSize y (width - 1 - x) c)
    as [<- _]; [done || lia..|].
  destruct Hok as (Hb & Hw & Hh & Hrs & Hlen & Hmax). unfold INT_MAX in Hmax.
  assert (width ≤ rowSize * height) by nia.
  rewrite (wrap32_id (width - x)) by (unfold INT_MIN, INT_MAX; lia).
  rewrite (wrap32_id (width - x - 1)) by (unfold INT_MIN, INT_MAX; lia).
  do 4 f_equal. lia.
Qed.

Lemma flip_pairs_pure :
  flip_pairs bpp width height rowSize
  = (y ← seqZ 0 height; x ← seqZ 0 (Z.quot width 2); c ← seqZ 0 bpp;
     [(pix y x c, pix y (width - 1 - x) c)]).
Proof.
  pose proof Hok as (Hb & Hw & Hh & Hrs & Hlen & Hmax).
  unfold flip_pairs.
  apply Forall_bind_ext, Forall_forall. intros y Hy%elem_of_seqZ.
  apply Forall_bind_ext, Forall_forall. intros x Hx%elem_of_seqZ.
  apply Forall_bind_ext, Forall_forall. intros c Hc%elem_of_seqZ.
  assert (2 * x + 2 ≤ width) by (apply quot2_lt; lia).
  rewrite mirror_index by lia.
  destruct (pixel_index buf bpp width height rowSize y x c) as [-> _];
    (done || lia).
Qed.

Lemma flip_pairs_elem i j :
  (i, j) ∈ flip_pairs bpp width height rowSize ↔
  ∃ y x c, 0 ≤ y < height ∧ 0 ≤ x ∧ 2 * x + 2 ≤ width ∧ 0 ≤ c < bpp
    ∧ i = pix y x c ∧ j = pix y (width - 1 - x) c.
Proof.
  pose proof Hok as (Hb & Hw & Hh & Hrs & Hlen & Hmax).
  rewrite flip_pairs_pure. split.
  - intros (y & (x & (c & Hi & Hc)%list_elem_of_bind & Hx)%list_elem_of_bind
            & Hy)%list_elem_of_bind.
    apply list_elem_of_singleton in Hi as [= -> ->].
    apply elem_of_seqZ in Hc, Hx, Hy.
    assert (2 * x + 2 ≤ width) by (apply quot2_lt; lia).
    exists y, x, c. split_and!; (done || lia).
  - intros (y & x & c & Hy & Hx & Hx' & Hc & -> & ->).
    assert (x < Z.quot width 2) by (apply quot2_lt; lia).
    apply list_elem_of_bind. exists y. split; [|apply elem_of_seqZ; lia].
    apply list_elem_of_bind. exists x. split; [|apply elem_of_seqZ; lia].
    apply list_elem_of_bind. exists c. split; [|apply elem_of_seqZ; lia].
    by apply list_elem_of_singleton.
Qed.

Lemma flip_pairs_in_range :
  Forall (λ p, (0 ≤ p.1 < Z.of_nat (length buf))
               ∧ (0 ≤ p.2 < Z.of_nat (length buf)))
         (flip_pairs bpp width height rowSize).
Proof.
  apply Forall_forall.
  intros [i j] (y & x & c & Hy & Hx & Hx' & Hc & -> & ->)%flip_pairs_elem.
  simpl. split.
  - apply (pixel_index buf bpp width height rowSize); (done || lia).
  - apply (pixel_index buf bpp width height rowSize); (done || lia).
Qed.
Lemma flip_touched_NoDup : NoDup (touched (flip_pairs bpp width height rowSize)).
Proof.
  pose proof Hok as (Hb & Hw & Hh & Hrs & Hlen & Hmax).
  rewrite flip_pairs_pure.
  assert (∀ y x c k, y ∈ seqZ 0 height → x ∈ seqZ 0 (Z.quot width 2) →
            c ∈ seqZ 0 bpp →
            k ∈ touched [(pix y x c, pix y (width - 1 - x) c)] →
            0 ≤ y < height ∧ 0 ≤ x ∧ 2 * x + 2 ≤ width ∧ 0 ≤ c < bpp
            ∧ (k = pix y x c ∨ k = pix y (width - 1 - x) c)) as Hcase.
  { intros y x c k Hy%elem_of_seqZ Hx%elem_of_seqZ Hc%elem_of_seqZ Hk.
    assert (2 * x + 2 ≤ width) by (apply quot2_lt; lia).
    rewrite touched_cons, !elem_of_cons in Hk.
    split_and!; try lia.
    destruct Hk as [?|[?|Hk]]; [by left|by right|by apply elem_of_nil in Hk]. }
  rewrite touched_bind. apply NoDup_bind; [| |apply NoDup_seqZ].
  - intros y1 y2 k Hy1 Hy2.
    rewrite !touched_bind.
    intros (x1 & Hk1 & Hx1)%list_elem_of_bind (x2 & Hk2 & Hx2)%list_elem_of_bind.
    rewrite touched_bind in Hk1, Hk2.
    apply list_elem_of_bind in Hk1 as (c1 & Hk1 & Hc1).
    apply list_elem_of_bind in Hk2 as (c2 & Hk2 & Hc2).
    apply Hcase in Hk1 as (? & ? & ? & ? & Hk1); [|done..].
    apply Hcase in Hk2 as (? & ? & ? & ? & Hk2); [|done..].
    destruct Hk1 as [->| ->], Hk2 as [Hk2|Hk2];
      apply pix_inj in Hk2 as (? & ? & ?); lia.
  - intros y Hy. rewrite touched_bind.
    apply NoDup_bind; [| |apply NoDup_seqZ].
    + intros x1 x2 k Hx1 Hx2.
      rewrite !touched_bind.
      intros (c1 & Hk1 & Hc1)%list_elem_of_bind
             (c2 & Hk2 & Hc2)%list_elem_of_bind.
      apply Hcase in Hk1 as (? & ? & ? & ? & Hk1); [|done..].
      apply Hcase in Hk2 as (? & ? & ? & ? & Hk2); [|done..].
      destruct Hk1 as [->| ->], Hk2 as [Hk2|Hk2];
        apply pix_inj in Hk2 as (? & ? & ?); lia.
    + intros x Hx. rewrite touched_bind.
      apply NoDup_bind; [| |apply NoDup_seqZ].
      * intros c1 c2 k Hc1 Hc2 Hk1 Hk2.
        apply Hcase in Hk1 as (? & ? & ? & ? & Hk1); [|done..].
        apply Hcase in Hk2 as (? & ? & ? & ? & Hk2); [|done..].
        destruct Hk1 as [->| ->], Hk2 as [Hk2|Hk2];
          apply pix_inj in Hk2 as (? & ? & ?); lia.
      * intros c Hc. rewrite touched_cons.
        apply elem_of_seqZ in Hy, Hx, Hc.
        assert (2 * x + 2 ≤ width) by (apply quot2_lt; lia).
        apply NoDup_cons. split; [|apply NoDup_singleton].
        intros Heq%list_elem_of_singleton.
        apply pix_inj in Heq as (? & ? & ?); lia.
Qed.
Lemma pad_not_pix y o y0 x0 c0 :
  0 ≤ y < height → width * bpp ≤ o < rowSize →
  0 ≤ y0 < height → 0 ≤ x0 < width → 0 ≤ c0 < bpp →
  y * rowSize + o ≠ pix y0 x0 c0.
Proof.
  destruct Hok as (Hb & Hw & Hh & Hrs & Hlen & Hmax).
  intros Hy Ho Hy0 Hx0 Hc0 Heq.
  assert (0 ≤ x0 * bpp ∧ x0 * bpp + bpp ≤ width * bpp) by nia.
  assert (y = y0) as -> by nia. lia.
Qed.

Lemma pad_in_range y o :
  0 ≤ y < height → width * bpp ≤ o < rowSize →
  0 ≤ y * rowSize + o < Z.of_nat (length buf).
Proof.
  destruct Hok as (Hb & Hw & Hh & Hrs & Hlen & Hmax). intros Hy Ho. nia.
Qed.

Lemma flipHorizontally_unfold pixelData :
  flipHorizontally pixelData width height rowSize bpp
  = forM (λ p, swap p.1 p.2) (flip_pairs bpp width height rowSize) pixelData.
Proof.
  unfold flipHorizontally, flip_pairs, for_lt.
  rewrite <- forM_bind. apply forM_ext; intros y s _.
  rewrite <- forM_bind. apply forM_ext; intros x s' _.
  rewrite <- forM_bind. apply forM_ext; intros c s'' _.
  simpl. by destruct (swap _ _ _).
Qed.

(** What [flipHorizontally] returns on a well-formed buffer. *)
Lemma flipHorizontally_spec :
  ∃ buf',
    flipHorizontally buf width height rowSize bpp = Ok buf'
    ∧ length buf' = length buf
    ∧ (∀ i j, (i, j) ∈ flip_pairs bpp width height rowSize →
         buf' !! Z.to_nat i = buf !! Z.to_nat j
         ∧ buf' !! Z.to_nat j = buf !! Z.to_nat i)
    ∧ (∀ k : nat, Z.of_nat k ∉ touched (flip_pairs bpp width height rowSize) →
         buf' !! k = buf !! k).
Proof.
  rewrite flipHorizontally_unfold.
  apply forM_swap; [apply flip_touched_NoDup | apply flip_pairs_in_range].
Qed.

(** Every pixel byte of the result is the byte of the mirrored column. *)
Lemma flipHorizontally_pixel buf' y x c :
  flipHorizontally buf width height rowSize bpp = Ok buf' →
  0 ≤ y < height → 0 ≤ x < width → 0 ≤ c < bpp →
  ∃ v, load buf (pix y (width - 1 - x) c) = Ok v
       ∧ load buf' (pix y x c) = Ok v.
Proof.
  intros Hrun Hy Hx Hc.
  destruct flipHorizontally_spec as (buf1 & Hrun1 & Hlen & Hsw & Hfr).
  rewrite Hrun in Hrun1. injection Hrun1 as <-.
  destruct (pixel_index buf bpp width height rowSize y x c) as [_ Hin];
    [done..|].
  destruct (pixel_index buf bpp width height rowSize y (width - 1 - x) c)
    as [_ Hin']; [done || lia..|].
  destruct (load_in_range buf _ Hin') as [v Hv]. exists v. split; [done|].
  apply load_Ok in Hv as [_ Hv]. apply load_Ok. split; [lia|].
  rewrite <- Hv.
  destruct (Z_lt_le_dec (2 * x + 1) width) as [Hleft|Hright];
    [|destruct (Z.eq_dec (2 * x + 1) width) as [Hmid|Hne]].
  - apply (Hsw (pix y x c) (pix y (width - 1 - x) c)).
    apply flip_pairs_elem. exists y, x, c. split_and!; (done || lia).
  - replace (width - 1 - x) with x by lia.
    rewrite <- (Z2Nat.id (pix y x c)) in Hin by lia.
    apply Hfr. rewrite Z2Nat.id by lia.
    intros (i & j & (y0 & x0 & c0 & ? & ? & ? & ? & -> & ->)%flip_pairs_elem
            & [Heq|Heq])%touched_elem;
      apply pix_inj in Heq as (? & ? & ?); lia.
  - apply (Hsw (pix y (width - 1 - x) c) (pix y x c)).
    apply flip_pairs_elem. exists y, (width - 1 - x), c.
    split_and!; (done || lia).
Qed.

(** The padding bytes of every row are kept. *)
Lemma flipHorizontally_padding buf' y o :
  flipHorizontally buf width height rowSize bpp = Ok buf' →
  0 ≤ y < height → width * bpp ≤ o < rowSize →
  ∃ v, load buf (y * rowSize + o) = Ok v
       ∧ load buf' (y * rowSize + o) = Ok v.
Proof.
  intros Hrun Hy Ho.
  destruct flipHorizontally_spec as (buf1 & Hrun1 & Hlen & Hsw & Hfr).
  rewrite Hrun in Hrun1. injection Hrun1 as <-.
  pose proof (pad_in_range y o Hy Ho) as Hin.
  destruct (load_in_range buf _ Hin) as [v Hv]. exists v. split; [done|].
  apply load_Ok in Hv as [_ Hv]. apply load_Ok. split; [lia|].
  rewrite <- Hv. apply Hfr. rewrite Z2Nat.id by lia.
  intros (i & j & (y0 & x0 & c0 & ? & ? & ? & ? & -> & ->)%flip_pairs_elem
          & [Heq|Heq])%touched_elem;
    by apply pad_not_pix in Heq; (done || lia).
Qed.
End geometry.

(** Flipping twice restores every element. *)
Lemma flipHorizontally_twice buf bpp width height rowSize :
  buffer_ok buf bpp width height rowSize →
  ∃ buf',
    flipHorizontally buf width height rowSize bpp = Ok buf'
    ∧ flipHorizontally buf' width height rowSize bpp = Ok buf.
Proof.
  intros Hok.
  destruct (flipHorizontally_spec buf bpp width height rowSize Hok)
    as (buf1 & Hrun1 & Hlen1 & Hsw1 & Hfr1).
  assert (buffer_ok buf1 bpp width height rowSize) as Hok1.
  { unfold buffer_ok in *. by rewrite Hlen1. }
  destruct (flipHorizontally_spec buf1 bpp width height rowSize Hok1)
    as (buf2 & Hrun2 & Hlen2 & Hsw2 & Hfr2).
  exists buf1. split; [done|]. rewrite Hrun2. f_equal.
  apply list_eq. intros k.
  destruct (decide (Z.of_nat k ∈ touched (flip_pairs bpp width height rowSize)))
    as [Hk|Hk].
  - apply touched_elem in Hk as (i & j & Hp & Hk).
    destruct (Hsw1 _ _ Hp) as [H1i H1j]. destruct (Hsw2 _ _ Hp) as [H2i H2j].
    destruct Hk as [<-|<-]; rewrite Nat2Z.id in *; congruence.
  - by rewrite Hfr2, Hfr1.
Qed.

(** C3. In every row [flipHorizontally] exchanges the pixel of column [x]
    with the pixel of column [width - 1 - x], byte for byte; for an odd
    width the middle pixel is kept, and so are the padding bytes of every
    row (offsets from [width * bytesPerPixel] up to the stride). *)
Theorem flip_swaps_pixels buf bpp width height rowSize :
  buffer_ok buf bpp width height rowSize →
  ∃ buf',
    flipHorizontally buf width height rowSize bpp = Ok buf'
    ∧ (∀ y x c, 0 ≤ y < height → 0 ≤ x < width → 0 ≤ c < bpp →
         ∃ v, load buf (y * rowSize + (width - 1 - x) * bpp + c) = Ok v
              ∧ load buf' (y * rowSize + x * bpp + c) = Ok v)
    ∧ (∀ y x c, 0 ≤ y < height → 0 ≤ x < width → 0 ≤ c < bpp →
         2 * x + 1 = width →
         ∃ v, load buf (y * rowSize + x * bpp + c) = Ok v
              ∧ load buf' (y * rowSize + x * bpp + c) = Ok v)
    ∧ (∀ y o, 0 ≤ y < height → width * bpp ≤ o < rowSize →
         ∃ v, load buf (y * rowSize + o) = Ok v
              ∧ load buf' (y * rowSize + o) = Ok v).
Proof.
  intros Hok.
  destruct (flipHorizontally_spec buf bpp width height rowSize Hok)
    as (buf' & Hrun & _).
  exists buf'. split_and!; [done| | |].
  - intros y x c. by apply flipHorizontally_pixel.
  - intros y x c Hy Hx Hc Hmid.
    destruct (flipHorizontally_pixel buf bpp width height rowSize Hok
                buf' y x c) as (v & Hv & Hv'); [done..|].
    exists v. split; [|done]. rewrite <- Hv. do 3 f_equal. lia.
  - intros y o. by apply flipHorizontally_padding.
Qed.

Lemma flip_swaps_pixels_witness :
  ∃ buf',
    flipHorizontally
      [Byte.x01; Byte.x02; Byte.x03; Byte.x04; Byte.x05; Byte.x06;
       Byte.x07; Byte.x08; Byte.x09; Byte.xaa; Byte.xbb; Byte.xcc]
      3 1 12 3 = Ok buf'
    ∧ (∀ y x c, 0 ≤ y < 1 → 0 ≤ x < 3 → 0 ≤ c < 3 →
         ∃ v, load
                [Byte.x01; Byte.x02; Byte.x03; Byte.x04; Byte.x05; Byte.x06;
                 Byte.x07; Byte.x08; Byte.x09; Byte.xaa; Byte.xbb; Byte.xcc]
                (y * 12 + (3 - 1 - x) * 3 + c) = Ok v
              ∧ load buf' (y * 12 + x * 3 + c) = Ok v)
    ∧ (∀ y x c, 0 ≤ y < 1 → 0 ≤ x < 3 → 0 ≤ c < 3 →
         2 * x + 1 = 3 →
         ∃ v, load
                [Byte.x01; Byte.x02; Byte.x03; Byte.x04; Byte.x05; Byte.x06;
                 Byte.x07; Byte.x08; Byte.x09; Byte.xaa; Byte.xbb; Byte.xcc]
                (y * 12 + x * 3 + c) = Ok v
              ∧ load buf' (y * 12 + x * 3 + c) = Ok v)
    ∧ (∀ y o, 0 ≤ y < 1 → 3 * 3 ≤ o < 12 →
         ∃ v, load
                [Byte.x01; Byte.x02; Byte.x03; Byte.x04; Byte.x05; Byte.x06;
                 Byte.x07; Byte.x08; Byte.x09; Byte.xaa; Byte.xbb; Byte.xcc]
                (y * 12 + o) = Ok v
              ∧ load buf' (y * 12 + o) = Ok v).
Proof.
  apply (flip_swaps_pixels
           [Byte.x01; Byte.x02; Byte.x03; Byte.x04; Byte.x05; Byte.x06;
            Byte.x07; Byte.x08; Byte.x09; Byte.xaa; Byte.xbb; Byte.xcc]
           3 3 1 12).
  unfold buffer_ok, INT_MAX. simpl. lia.
Defined.

(** C6. On every pixel buffer, whatever its width, height, stride and
    bytes per pixel, two successive calls of [flipHorizontally] return the
    buffer the first call started from. *)
Theorem flip_involution buf bpp width height rowSize :
  buffer_ok buf bpp width height rowSize →
  ∃ buf',
    flipHorizontally buf width height rowSize bpp = Ok buf'
    ∧ flipHorizontally buf' width height rowSize bpp = Ok buf.
Proof. apply flipHorizontally_twice. Qed.

Lemma flip_involution_witness :
  ∃ buf',
    flipHorizontally
      [Byte.x01; Byte.x02; Byte.x03; Byte.x04; Byte.x05; Byte.x06;
       Byte.x07; Byte.x08; Byte.x09; Byte.xaa; Byte.xbb; Byte.xcc]
      3 1 12 3 = Ok buf'
    ∧ flipHorizontally buf' 3 1 12 3
      = Ok [Byte.x01; Byte.x02; Byte.x03; Byte.x04; Byte.x05; Byte.x06;
            Byte.x07; Byte.x08; Byte.x09; Byte.xaa; Byte.xbb; Byte.xcc].
Proof.
  apply (flip_involution
           [Byte.x01; Byte.x02; Byte.x03; Byte.x04; Byte.x05; Byte.x06;
            Byte.x07; Byte.x08; Byte.x09; Byte.xaa; Byte.xbb; Byte.xcc]
           3 3 1 12).
  unfold buffer_ok, INT_MAX. simpl. lia.
Defined.

(** ** Stride arithmetic *)

Lemma land_lnot3 m : Z.land m (Z.lnot 3) = 4 * (m / 4).
Proof.
  change 3 with (Z.ones 2).
  rewrite <- Z.ldiff_land, Z.ldiff_ones_r by lia.
  rewrite Z.shiftr_div_pow2, Z.shiftl_mul_pow2 by lia.
  change (2 ^ 2) with 4. lia.
Qed.

Lemma align4_spec n :
  0 ≤ n → n + 3 ≤ INT_MAX →
  align4 n = Z.land (n + 3) (Z.lnot 3)
  ∧ n ≤ align4 n ≤ n + 3 ∧ align4 n `mod` 4 = 0.
Proof.
  intros Hn Hmax. unfold align4.
  rewrite wrap32_id by (unfold INT_MIN, INT_MAX in *; lia).
  rewrite land_lnot3.
  pose proof (Z.div_mod (n + 3) 4 ltac:(lia)).
  pose proof (Z.mod_pos_bound (n + 3) 4 ltac:(lia)).
  split_and!; try lia.
  rewrite Z.mul_comm. apply Z.mod_mul. lia.
Qed.

Lemma align4_le_stride n rowSize :
  0 ≤ n ≤ rowSize → rowSize `mod` 4 = 0 → rowSize ≤ INT_MAX →
  n + 3 ≤ INT_MAX ∧ align4 n ≤ rowSize.
Proof.
  intros Hn Hmod Hmax. unfold INT_MAX in *.
  pose proof (Z.div_mod rowSize 4 ltac:(lia)).
  assert (n + 3 ≤ 2 ^ 31 - 1) by lia.
  destruct (align4_spec n) as (-> & _ & _); [lia|done|].
  rewrite land_lnot3.
  pose proof (Z.div_mod (n + 3) 4 ltac:(lia)).
  pose proof (Z.mod_pos_bound (n + 3) 4 ltac:(lia)). lia.
Qed.

(** ** Crop *)

Lemma memcpy_Ok dst d src s n :
  0 ≤ n → 0 ≤ d → d + n ≤ Z.of_nat (length dst) →
  0 ≤ s → s + n ≤ Z.of_nat (length src) →
  ∃ r, memcpy dst d src s n = Ok r
    ∧ length r = length dst
    ∧ (∀ t, 0 ≤ t < n → r !! Z.to_nat (d + t) = src !! Z.to_nat (s + t))
    ∧ (∀ k : nat, Z.of_nat k < d ∨ d + n ≤ Z.of_nat k → r !! k = dst !! k).
Proof.
  intros Hn Hd Hdn Hs Hsn. unfold memcpy.
  rewrite bool_decide_eq_true_2 by done.
  eexists. split; [done|].
  assert (length (take (Z.to_nat d) dst) = Z.to_nat d) as Hl1
    by (rewrite length_take; lia).
  assert (length (take (Z.to_nat n) (drop (Z.to_nat s) src)) = Z.to_nat n)
    as Hl2 by (rewrite length_take, length_drop; lia).
  split_and!.
  - rewrite !length_app, Hl1, Hl2, length_drop. lia.
  - intros t Ht.
    rewrite lookup_app_r by lia. rewrite Hl1.
    rewrite lookup_app_l by lia.
    rewrite lookup_take_lt by lia. rewrite lookup_drop. f_equal. lia.
  - intros k [Hk|Hk].
    + rewrite lookup_app_l by lia. by rewrite lookup_take_lt by lia.
    + rewrite lookup_app_r by lia. rewrite Hl1.
      rewrite lookup_app_r by lia. rewrite Hl2.
      rewrite lookup_drop. f_equal. lia.
Qed.

(** The row loop of [cropImage], the offsets already computed: after [k]
    rows, each of the rows copied so far holds its source block. *)
Lemma copy_rows src (srcOffset : Z → Z) n stride rows (k : nat) dst0 :
  0 ≤ n ≤ stride → Z.of_nat k ≤ rows →
  Z.of_nat (length dst0) = stride * rows →
  (∀ j, 0 ≤ j < rows →
     0 ≤ srcOffset j ∧ srcOffset j + n ≤ Z.of_nat (length src)) →
  ∃ dst,
    forM (λ j d, memcpy d (j * stride) src (srcOffset j) n)
         (seqZ 0 (Z.of_nat k)) dst0 = Ok dst
    ∧ length dst = length dst0
    ∧ ∀ j t, 0 ≤ j < Z.of_nat k → 0 ≤ t < n →
        dst !! Z.to_nat (j * stride + t) = src !! Z.to_nat (srcOffset j + t).
Proof.
  intros Hn Hk Hlen Hsrc. induction k as [|k IH].
  { exists dst0. split_and!; [done..|]. intros; lia. }
  destruct IH as (dst & Hrun & Hl & Hrows); [lia|].
  destruct (Hsrc (Z.of_nat k)) as [Hs Hsn]; [lia|].
  destruct (memcpy_Ok dst (Z.of_nat k * stride) src (srcOffset (Z.of_nat k)) n)
    as (r & Hcp & Hlr & Hnew & Hold); [lia| nia | rewrite Hl; nia | lia | lia |].
  exists r. split_and!.
  - rewrite seqZ_S, forM_app, Hrun. simpl. rewrite Z.add_0_l, Hcp. done.
  - congruence.
  - intros j t Hj Ht.
    destruct (decide (j = Z.of_nat k)) as [->|Hne]; [by apply Hnew|].
    rewrite Hold; [apply Hrows; lia|]. left. rewrite Z2Nat.id; nia.
Qed.

Lemma resize_Ok n v :
  0 ≤ n → ∃ r, resize n v = Ok r ∧ Z.of_nat (length r) = n.
Proof.
  intros Hn. unfold resize. rewrite bool_decide_eq_false_2 by lia.
  eexists. split; [done|].
  rewrite length_app, length_take, length_replicate. lia.
Qed.

(** What [cropImage] returns for a rectangle inside a well-formed source
    whose stride is a multiple of 4: a buffer of [cropHeight] rows of the
    aligned stride, row [j] starting with the [cropWidth * bytesPerPixel]
    bytes found at byte [x * bytesPerPixel] of source row [y + j]. *)
Lemma cropImage_spec src dst0 bpp width height rowSize x y cw ch :
  buffer_ok src bpp width height rowSize → rowSize `mod` 4 = 0 →
  0 ≤ x → 0 ≤ y → 0 ≤ cw → 0 ≤ ch → x + cw ≤ width → y + ch ≤ height →
  ∃ dst,
    cropImage src dst0 width height bpp rowSize x y cw ch = Ok dst
    ∧ Z.of_nat (length dst) = Z.land (cw * bpp + 3) (Z.lnot 3) * ch
    ∧ Z.land (cw * bpp + 3) (Z.lnot 3) * ch ≤ rowSize * height
    ∧ ∀ j t, 0 ≤ j < ch → 0 ≤ t < cw * bpp →
        0 ≤ j * Z.land (cw * bpp + 3) (Z.lnot 3) + t < Z.of_nat (length dst)
        ∧ 0 ≤ (y + j) * rowSize + x * bpp + t < Z.of_nat (length src)
        ∧ dst !! Z.to_nat (j * Z.land (cw * bpp + 3) (Z.lnot 3) + t)
          = src !! Z.to_nat ((y + j) * rowSize + x * bpp + t).
Proof.
  intros (Hb & Hw & Hh & Hrs & Hlen & Hmax) Hmod Hx Hy Hcw Hch Hxw Hyh.
  destruct (decide (ch = 0)) as [->|Hne].
  { exists []. split_and!; [ |simpl; lia|nia|intros; lia].
    unfold cropImage. rewrite Z.mul_0_r. done. }
  unfold INT_MAX in Hmax.
  assert (0 ≤ cw * bpp ≤ width * bpp) as Hn by nia.
  assert (0 ≤ x * bpp ∧ x * bpp + cw * bpp ≤ width * bpp) as Hxb by nia.
  assert (0 ≤ rowSize ≤ rowSize * height) as Hrs' by nia.
  destruct (align4_le_stride (cw * bpp) rowSize) as [Hn3 Hcrs];
    [lia | done | unfold INT_MAX; lia |].
  destruct (align4_spec (cw * bpp)) as (Hal & Hcrs' & _); [lia | done |].
  unfold cropImage.
  rewrite (wrap32_id (cw * bpp)) by (unfold INT_MIN, INT_MAX; lia).
  rewrite <- Hal. set (crs := align4 (cw * bpp)) in *.
  assert (0 ≤ crs * ch ≤ rowSize * height) as Hsz by nia.
  rewrite (wrap32_id (crs * ch)) by (unfold INT_MIN, INT_MAX; lia).
  destruct (resize_Ok (crs * ch) dst0) as (dst1 & -> & Hlen1); [lia|]. simpl.
  assert (∀ j, 0 ≤ j < ch →
            0 ≤ (y + j) * rowSize + x * bpp
            ∧ (y + j) * rowSize + x * bpp + cw * bpp ≤ Z.of_nat (length src))
    as Hsrc by (intros j Hj; nia).
  destruct (copy_rows src (λ j, (y + j) * rowSize + x * bpp) (cw * bpp) crs ch
              (Z.to_nat ch) dst1) as (dst & Hrun & Hl & Hrows);
    [lia | lia | done | done |].
  rewrite Z2Nat.id in Hrun, Hrows by lia.
  exists dst. split_and!; [|lia|lia|].
  - unfold for_lt. rewrite <- Hrun. apply forM_ext.
    intros j d Hj%elem_of_seqZ.
    destruct (Hsrc j) as [? ?]; [lia|].
    assert (0 ≤ (y + j) * rowSize ≤ rowSize * height) by nia.
    assert (0 ≤ j * crs ≤ crs * ch) by nia.
    assert (wrap32 (wrap32 (y + j) * rowSize) = (y + j) * rowSize) as ->.
    { destruct (decide (rowSize = 0)) as [->|Hrs0].
      - by rewrite !Z.mul_0_r.
      - assert (height ≤ rowSize * height) by nia.
        rewrite (wrap32_id (y + j)) by (unfold INT_MIN, INT_MAX; lia).
        apply wrap32_id. unfold INT_MIN, INT_MAX. lia. }
    rewrite (wrap32_id (x * bpp)) by (unfold INT_MIN, INT_MAX; lia).
    rewrite (wrap32_id (_ + _)) by (unfold INT_MIN, INT_MAX; lia).
    rewrite (wrap32_id (j * crs)) by (unfold INT_MIN, INT_MAX; lia).
    done.
  - intros j t Hj Ht. destruct (Hsrc j Hj).
    split; [nia|]. split; [lia|].
    rewrite Hrows by done. f_equal; lia.
Qed.

(** C2. For every rectangle inside the source ([x + cropWidth <= width],
    [y + cropHeight <= height]), [cropImage] yields a buffer of stride
    [(cropWidth * bytesPerPixel + 3) & ~3] whose pixel [(i, j)] is the
    source pixel [(x + i, y + j)]. *)
Theorem crop_copies_rectangle src dst0 bpp width height rowSize x y cw ch :
  buffer_ok src bpp width height rowSize → rowSize `mod` 4 = 0 →
  0 ≤ x → 0 ≤ y → 0 ≤ cw → 0 ≤ ch → x + cw ≤ width → y + ch ≤ height →
  ∃ dst,
    cropImage src dst0 width height bpp rowSize x y cw ch = Ok dst
    ∧ Z.of_nat (length dst) = Z.land (cw * bpp + 3) (Z.lnot 3) * ch
    ∧ ∀ i j c, 0 ≤ i < cw → 0 ≤ j < ch → 0 ≤ c < bpp →
        ∃ v,
          load src ((y + j) * rowSize + (x + i) * bpp + c) = Ok v
          ∧ load dst (j * Z.land (cw * bpp + 3) (Z.lnot 3) + i * bpp + c)
            = Ok v.
Proof.
  intros Hok Hmod Hx Hy Hcw Hch Hxw Hyh.
  destruct (cropImage_spec src dst0 bpp width height rowSize x y cw ch)
    as (dst & Hrun & Hlen & _ & Hrows); [done..|].
  exists dst. split_and!; [done..|]. intros i j c Hi Hj Hc.
  assert (0 ≤ i * bpp + c < cw * bpp) as Ht by nia.
  destruct (Hrows j (i * bpp + c) Hj Ht) as (Hd & Hs & Heq).
  replace ((y + j) * rowSize + (x + i) * bpp + c)
    with ((y + j) * rowSize + x * bpp + (i * bpp + c)) by lia.
  replace (j * Z.land (cw * bpp + 3) (Z.lnot 3) + i * bpp + c)
    with (j * Z.land (cw * bpp + 3) (Z.lnot 3) + (i * bpp + c)) by lia.
  destruct (load_in_range src _ Hs) as [v Hv]. exists v. split; [done|].
  apply load_Ok in Hv as [_ Hv]. apply load_Ok. split; [lia|congruence].
Qed.

Lemma crop_copies_rectangle_witness :
  ∃ dst,
    cropImage
      [Byte.x01; Byte.x02; Byte.x03; Byte.x04; Byte.x05; Byte.x06;
       Byte.x00; Byte.x00;
       Byte.x07; Byte.x08; Byte.x09; Byte.x0a; Byte.x0b; Byte.x0c;
       Byte.x00; Byte.x00]
      [] 2 2 3 8 1 1 1 1 = Ok dst
    ∧ Z.of_nat (length dst) = Z.land (1 * 3 + 3) (Z.lnot 3) * 1
    ∧ ∀ i j c, 0 ≤ i < 1 → 0 ≤ j < 1 → 0 ≤ c < 3 →
        ∃ v,
          load
            [Byte.x01; Byte.x02; Byte.x03; Byte.x04; Byte.x05; Byte.x06;
             Byte.x00; Byte.x00;
             Byte.x07; Byte.x08; Byte.x09; Byte.x0a; Byte.x0b; Byte.x0c;
             Byte.x00; Byte.x00]
            ((1 + j) * 8 + (1 + i) * 3 + c) = Ok v
          ∧ load dst (j * Z.land (1 * 3 + 3) (Z.lnot 3) + i * 3 + c) = Ok v.
Proof.
  apply (crop_copies_rectangle
           [Byte.x01; Byte.x02; Byte.x03; Byte.x04; Byte.x05; Byte.x06;
            Byte.x00; Byte.x00;
            Byte.x07; Byte.x08; Byte.x09; Byte.x0a; Byte.x0b; Byte.x0c;
            Byte.x00; Byte.x00]
           [] 3 2 2 8 1 1 1 1).
  - unfold buffer_ok, INT_MAX. simpl. lia.
  - reflexivity.
  - lia.
  - lia.
  - lia.
  - lia.
  - lia.
  - lia.
Defined.

(** ** Header fields as bytes *)

Lemma bytes_to_Z_bound (bs : list byte) :
  Forall (λ b, 0 ≤ b < 2 ^ 8) (byte_to_Z <$> bs).
Proof.
  apply Forall_fmap, Forall_forall. intros b _. apply byte_to_Z_range.
Qed.

Lemma bytes_of_to_Z (bs : list byte) : Z_to_byte <$> (byte_to_Z <$> bs) = bs.
Proof.
  induction bs as [|b bs IH]; [done|].
  by rewrite !fmap_cons, Z_to_byte_to_Z, IH.
Qed.

Lemma bytes_to_of_Z (zs : list Z) :
  Forall (λ b, 0 ≤ b < 2 ^ 8) zs → byte_to_Z <$> (Z_to_byte <$> zs) = zs.
Proof.
  induction 1 as [|z zs Hz _ IH]; [done|].
  rewrite !fmap_cons, byte_to_Z_to_byte, IH. f_equal. apply Z.mod_small. lia.
Qed.

Lemma le_bytes_length n z : 0 ≤ n → length (le_bytes n z) = Z.to_nat n.
Proof.
  intros Hn. unfold le_bytes. rewrite length_fmap.
  pose proof (length_Z_to_little_endian n 8 z Hn). lia.
Qed.

Lemma le_val_le_bytes n z : 0 ≤ n → le_val (le_bytes n z) = z `mod` 2 ^ (n * 8).
Proof.
  intros Hn. unfold le_val, le_bytes.
  rewrite bytes_to_of_Z by (apply Z_to_little_endian_bound; lia).
  apply little_endian_to_Z_to_little_endian; lia.
Qed.

Lemma le_bytes_le_val bs : le_bytes (Z.of_nat (length bs)) (le_val bs) = bs.
Proof.
  unfold le_val, le_bytes.
  rewrite Z_to_little_endian_to_Z;
    [apply bytes_of_to_Z | by rewrite length_fmap | lia | apply bytes_to_Z_bound].
Qed.

Lemma le_val_range bs : 0 ≤ le_val bs < 2 ^ (Z.of_nat (length bs) * 8).
Proof.
  unfold le_val.
  pose proof (little_endian_to_Z_bound 8 (byte_to_Z <$> bs) ltac:(lia)
                (bytes_to_Z_bound bs)) as H.
  by rewrite length_fmap in H.
Qed.

Lemma wrap32_mod z : wrap32 z `mod` 2 ^ 32 = z `mod` 2 ^ 32.
Proof.
  unfold wrap32. rewrite Zminus_mod, Z.mod_mod by lia.
  rewrite <- Zminus_mod. f_equal. lia.
Qed.

(** A field written back after it was read is the bytes it was read from,
    also for a signed field. *)
Lemma le_bytes_field n z bs :
  Z.of_nat (length bs) = n → z `mod` 2 ^ (n * 8) = le_val bs →
  le_bytes n z = bs.
Proof.
  intros Hlen Hz.
  rewrite <- (le_bytes_le_val bs), Hlen.
  rewrite <- (le_bytes_le_val (le_bytes n z)).
  rewrite le_bytes_length, Z2Nat.id by lia.
  rewrite le_val_le_bytes by lia. by rewrite Hz.
Qed.

Lemma le_bytes_unsigned n bs :
  Z.of_nat (length bs) = n → le_bytes n (le_val bs) = bs.
Proof.
  intros Hlen. apply le_bytes_field; [done|].
  apply Z.mod_small. rewrite <- Hlen. apply le_val_range.
Qed.

Lemma le_bytes_signed bs :
  length bs = 4%nat → le_bytes 4 (wrap32 (le_val bs)) = bs.
Proof.
  intros Hlen. apply le_bytes_field; [lia|].
  change (2 ^ (4 * 8)) with (2 ^ 32). rewrite wrap32_mod.
  apply Z.mod_small. pose proof (le_val_range bs) as H.
  rewrite Hlen in H. done.
Qed.

Lemma le_bytes_dim u bs :
  length bs = 4%nat → le_bytes 4 (dim u (le_val bs)) = bs.
Proof.
  intros Hlen. destruct u; simpl.
  - apply le_bytes_unsigned. lia.
  - by apply le_bytes_signed.
Qed.

Lemma field_length off len (bs : list byte) :
  (off + len ≤ length bs)%nat → length (take len (drop off bs)) = len.
Proof. intros H. rewrite length_take, length_drop. lia. Qed.

(** Writing out a header that was read from 14 (40) bytes gives these
    bytes back. *)
Lemma serialize_parseFileHeader bs :
  length bs = 14%nat → serializeFileHeader (parseFileHeader bs) = bs.
Proof.
  intros Hlen. unfold serializeFileHeader, parseFileHeader, field.
  cbn [bfType bfSize bfReserved1 bfReserved2 bfOffBits].
  rewrite !le_bytes_unsigned by (rewrite field_length; lia).
  do 14 (destruct bs as [|? bs]; [discriminate|]).
  destruct bs; [reflexivity|discriminate].
Qed.

Lemma serialize_parseInfoHeader u bs :
  length bs = 40%nat → serializeInfoHeader (parseInfoHeader u bs) = bs.
Proof.
  intros Hlen. unfold serializeInfoHeader, parseInfoHeader, field.
  cbn [biSize biWidth biHeight biPlanes biBitCount biCompression biSizeImage
       biXPelsPerMeter biYPelsPerMeter biClrUsed biClrImportant].
  rewrite !le_bytes_dim, !le_bytes_signed by (rewrite field_length; lia).
  rewrite !le_bytes_unsigned by (rewrite field_length; lia).
  do 40 (destruct bs as [|? bs]; [discriminate|]).
  destruct bs; [reflexivity|discriminate].
Qed.

Lemma le_bytes_2 z : ∃ a b, le_bytes 2 z = [a; b].
Proof. by eexists _, _. Qed.

Lemma le_bytes_4 z : ∃ a b c d, le_bytes 4 z = [a; b; c; d].
Proof. by eexists _, _, _, _. Qed.

Lemma le_val_u16 z : 0 ≤ z < 2 ^ 16 → le_val (le_bytes 2 z) = z.
Proof. intros H. rewrite le_val_le_bytes by lia. by apply Z.mod_small. Qed.

Lemma le_val_u32 z : 0 ≤ z < 2 ^ 32 → le_val (le_bytes 4 z) = z.
Proof. intros H. rewrite le_val_le_bytes by lia. by apply Z.mod_small. Qed.

Lemma le_val_i32 z :
  INT_MIN ≤ z ≤ INT_MAX → wrap32 (le_val (le_bytes 4 z)) = z.
Proof.
  intros H. rewrite le_val_le_bytes by lia.
  change (2 ^ (4 * 8)) with (2 ^ 32).
  rewrite <- (wrap32_id z) at 2 by done.
  unfold wrap32. rewrite Zplus_mod_idemp_l. done.
Qed.

Lemma le_val_dim u z : dim_ok u z → dim u (le_val (le_bytes 4 z)) = z.
Proof. destruct u; simpl; [apply le_val_u32 | apply le_val_i32]. Qed.

Lemma parse_serializeFileHeader h rest :
  fileHeader_ok h →
  parseFileHeader (take 14 (serializeFileHeader h ++ rest)) = h.
Proof.
  intros (H1 & H2 & H3 & H4 & H5). destruct h as [f1 f2 f3 f4 f5].
  cbn [bfType bfSize bfReserved1 bfReserved2 bfOffBits] in *.
  unfold serializeFileHeader.
  cbn [bfType bfSize bfReserved1 bfReserved2 bfOffBits].
  destruct (le_bytes_2 f1) as (? & ? & E1), (le_bytes_4 f2) as (? & ? & ? & ? & E2),
    (le_bytes_2 f3) as (? & ? & E3), (le_bytes_2 f4) as (? & ? & E4),
    (le_bytes_4 f5) as (? & ? & ? & ? & E5).
  rewrite E1, E2, E3, E4, E5.
  unfold parseFileHeader, field. cbn [take drop app]. rewrite !take_0.
  rewrite <- E1, <- E2, <- E3, <- E4, <- E5.
  by rewrite !le_val_u16, !le_val_u32 by done.
Qed.

Lemma parse_serializeInfoHeader u h rest :
  infoHeader_ok u h →
  parseInfoHeader u (take 40 (serializeInfoHeader h ++ rest)) = h.
Proof.
  intros (H1 & H2 & H3 & H4 & H5 & H6 & H7 & H8 & H9 & H10 & H11).
  destruct h as [f1 f2 f3 f4 f5 f6 f7 f8 f9 f10 f11].
  cbn [biSize biWidth biHeight biPlanes biBitCount biCompression biSizeImage
       biXPelsPerMeter biYPelsPerMeter biClrUsed biClrImportant] in *.
  unfold serializeInfoHeader.
  cbn [biSize biWidth biHeight biPlanes biBitCount biCompression biSizeImage
       biXPelsPerMeter biYPelsPerMeter biClrUsed biClrImportant].
  destruct (le_bytes_4 f1) as (? & ? & ? & ? & E1),
    (le_bytes_4 f2) as (? & ? & ? & ? & E2),
    (le_bytes_4 f3) as (? & ? & ? & ? & E3),
    (le_bytes_2 f4) as (? & ? & E4), (le_bytes_2 f5) as (? & ? & E5),
    (le_bytes_4 f6) as (? & ? & ? & ? & E6),
    (le_bytes_4 f7) as (? & ? & ? & ? & E7),
    (le_bytes_4 f8) as (? & ? & ? & ? & E8),
    (le_bytes_4 f9) as (? & ? & ? & ? & E9),
    (le_bytes_4 f10) as (? & ? & ? & ? & E10),
    (le_bytes_4 f11) as (? & ? & ? & ? & E11).
  rewrite E1, E2, E3, E4, E5, E6, E7, E8, E9, E10, E11.
  unfold parseInfoHeader, field. cbn [take drop app]. rewrite !take_0.
  rewrite <- E1, <- E2, <- E3, <- E4, <- E5, <- E6, <- E7, <- E8, <- E9,
    <- E10, <- E11.
  rewrite !le_val_dim, !le_val_i32 by done.
  by rewrite !le_val_u16, !le_val_u32 by done.
Qed.

Lemma field_range off len (bs : list byte) :
  (off + len ≤ length bs)%nat →
  0 ≤ field off len bs < 2 ^ (Z.of_nat len * 8).
Proof.
  intros H. unfold field.
  pose proof (le_val_range (take len (drop off bs))) as Hr.
  by rewrite field_length in Hr.
Qed.

Lemma parseFileHeader_ok bs :
  length bs = 14%nat → fileHeader_ok (parseFileHeader bs).
Proof.
  intros Hlen. unfold fileHeader_ok, parseFileHeader.
  cbn [bfType bfSize bfReserved1 bfReserved2 bfOffBits].
  split_and!; apply field_range; lia.
Qed.

Lemma parseInfoHeader_ok u bs :
  length bs = 40%nat → infoHeader_ok u (parseInfoHeader u bs).
Proof.
  intros Hlen. unfold infoHeader_ok, parseInfoHeader.
  cbn [biSize biWidth biHeight biPlanes biBitCount biCompression biSizeImage
       biXPelsPerMeter biYPelsPerMeter biClrUsed biClrImportant].
  assert (∀ off, (off + 4 ≤ 40)%nat → dim_ok u (dim u (field off 4 bs))) as Hdim.
  { intros off Hoff. destruct u; simpl; [|apply wrap32_range].
    apply (field_range off 4). lia. }
  split_and!;
    try apply wrap32_range; try (apply Hdim; lia);
    try (apply (field_range _ 4); lia); apply (field_range _ 2); lia.
Qed.

(** ** Decoding *)

Lemma decode_file_short u file img :
  decode_file u (Some file) = Ok img → (54 ≤ length file)%nat.
Proof.
  unfold decode_file, open. cbn [mbind result_bind].
  unfold decode.
  unfold read at 1. cbn [failbit pos content].
  rewrite drop_0.
  case_bool_decide as H2; [done|].
  case_bool_decide as Hsig; [done|].
  unfold read at 1. cbn [failbit pos content].
  destruct (decide (54 ≤ length file)%nat) as [|Hshort]; [done|].
  case_bool_decide as H14.
  - rewrite bool_decide_eq_true_2 by (left; done). done.
  - rewrite bool_decide_eq_true_2; [done|]. right.
    rewrite length_take, length_drop, length_take. lia.
Qed.

Lemma decode_file_eq u file :
  (54 ≤ length file)%nat →
  decode_file u (Some file)
  = let fileHeader := parseFileHeader (take 14 file) in
    let infoHeader := parseInfoHeader u (take 40 (drop 14 file)) in
    let width := wrap32 (biWidth infoHeader) in
    let height := wrap32 (biHeight infoHeader) in
    let bytesPerPixel := Z.quot (biBitCount infoHeader) 8 in
    let rowSize := align4 (wrap32 (width * bytesPerPixel)) in
    let n := Z.to_nat (wrap32 (rowSize * height)) in
    let got := take n (drop (Z.to_nat (bfOffBits fileHeader)) file) in
    if bool_decide (bfType fileHeader ≠ 19778) then Err FormatError
    else if bool_decide (biBitCount infoHeader ≠ 24)
            && bool_decide (biBitCount infoHeader ≠ 32)
            || bool_decide (biCompression infoHeader ≠ 0)
    then Err UnsupportedFormatError
    else if bool_decide (wrap32 (rowSize * height) < 0) then Crash BadAlloc
    else Ok {| img_fileHeader := fileHeader;
               img_infoHeader := infoHeader;
               img_width := width;
               img_height := height;
               img_bytesPerPixel := bytesPerPixel;
               img_rowSize := rowSize;
               img_pixelData := got ++ replicate (n - length got) Byte.x00 |}.
Proof.
  intros Hlen.
  unfold decode_file, open. cbn [mbind result_bind].
  unfold decode.
  unfold read at 1. cbn [failbit pos content].
  rewrite drop_0.
  assert (length (take 14 file) = 14%nat) as E14 by (rewrite length_take; lia).
  rewrite E14.
  rewrite (bool_decide_eq_false_2 (14 < 2)%nat) by lia.
  change (field 0 2 (take 14 file)) with (bfType (parseFileHeader (take 14 file))).
  cbv zeta.
  case_bool_decide as Hsig; [done|].
  unfold read at 1. cbn [failbit pos content].
  rewrite (bool_decide_eq_false_2 (14 < 14)%nat) by lia.
  change (0 + 14)%nat with 14%nat.
  assert (length (take 40 (drop 14 file)) = 40%nat) as E40
    by (rewrite length_take, length_drop; lia).
  rewrite E40.
  rewrite (bool_decide_eq_false_2 (40 < 40)%nat) by lia.
  rewrite bool_decide_eq_false_2 by lia.
  destruct (_ && _ || _); [done|].
  unfold resize. case_bool_decide as Hneg; [done|].
  cbn [mbind result_bind].
  unfold seekg. cbn [failbit pos content].
  unfold read. cbn [failbit pos content].
  rewrite take_nil. cbn [app length].
  rewrite Nat.sub_0_r, length_replicate, drop_replicate. done.
Qed.

(** What a successful [decode_file] says about the file and the image. *)
Lemma decode_file_Ok u file img :
  decode_file u (Some file) = Ok img →
  (54 ≤ length file)%nat
  ∧ img_fileHeader img = parseFileHeader (take 14 file)
  ∧ img_infoHeader img = parseInfoHeader u (take 40 (drop 14 file))
  ∧ img_width img = wrap32 (biWidth (img_infoHeader img))
  ∧ img_height img = wrap32 (biHeight (img_infoHeader img))
  ∧ (img_bytesPerPixel img = 3 ∨ img_bytesPerPixel img = 4)
  ∧ img_rowSize img
    = align4 (wrap32 (img_width img * img_bytesPerPixel img))
  ∧ 0 ≤ wrap32 (img_rowSize img * img_height img)
  ∧ img_pixelData img
    = take (Z.to_nat (wrap32 (img_rowSize img * img_height img)))
           (drop (Z.to_nat (bfOffBits (img_fileHeader img))) file)
      ++ replicate
           (Z.to_nat (wrap32 (img_rowSize img * img_height img))
            - length (drop (Z.to_nat (bfOffBits (img_fileHeader img))) file))
           Byte.x00.
Proof.
  intros Hdec. pose proof (decode_file_short _ _ _ Hdec) as Hlen.
  rewrite decode_file_eq in Hdec by done. cbv zeta in Hdec.
  case_bool_decide as Hsig; [done|].
  destruct (_ && _ || _) eqn:Hgate; [done|].
  case_bool_decide as Hneg; [done|].
  apply Ok_inj in Hdec. subst img.
  cbn [img_fileHeader img_infoHeader img_width img_height img_bytesPerPixel
       img_rowSize img_pixelData].
  apply orb_false_elim in Hgate as [Hbits _].
  apply andb_false_iff in Hbits.
  split_and!; try done; try lia.
  - unfold parseInfoHeader in *. cbn [biBitCount] in *.
    destruct Hbits as [Hb|Hb]; apply bool_decide_eq_false in Hb;
      apply dec_stable in Hb; rewrite Hb; [by left|by right].
  - change (bfOffBits (parseFileHeader (take 14 file)))
      with (field 10 4 (take 14 file)).
    do 2 f_equal. rewrite length_take. lia.
Qed.

Lemma decoded_pixelData_length u file img :
  decode_file u (Some file) = Ok img →
  Z.of_nat (length (img_pixelData img))
  = wrap32 (img_rowSize img * img_height img).
Proof.
  intros (_ & _ & _ & _ & _ & _ & _ & Hn & ->)%decode_file_Ok.
  rewrite length_app, length_take, length_replicate. lia.
Qed.

(** A decoded image with non-negative dimensions and sizes computed
    without overflow is a well-formed buffer with a stride that is a
    multiple of 4. *)
Lemma decoded_buffer_ok u file img :
  decode_file u (Some file) = Ok img →
  0 ≤ img_width img → 0 ≤ img_height img → no_overflow img →
  buffer_ok (img_pixelData img) (img_bytesPerPixel img) (img_width img)
            (img_height img) (img_rowSize img)
  ∧ img_rowSize img `mod` 4 = 0.
Proof.
  intros Hdec Hw Hh [Hov1 Hov2].
  pose proof (decoded_pixelData_length _ _ _ Hdec) as Hlen.
  apply decode_file_Ok in Hdec
    as (_ & _ & _ & _ & _ & Hbpp & Hrs & Hn & _).
  assert (0 ≤ img_width img * img_bytesPerPixel img) by (destruct Hbpp; nia).
  rewrite wrap32_id in Hrs by (unfold INT_MIN, INT_MAX in *; lia).
  destruct (align4_spec (img_width img * img_bytesPerPixel img))
    as (_ & Hal & Hmod); [done..|].
  rewrite <- Hrs in Hal, Hmod.
  assert (0 ≤ img_rowSize img * img_height img) by nia.
  rewrite wrap32_id in Hlen by (unfold INT_MIN, INT_MAX in *; lia).
  unfold buffer_ok. split_and!; try done; try lia.
Qed.

Lemma serializeFileHeader_length h : length (serializeFileHeader h) = 14%nat.
Proof.
  unfold serializeFileHeader.
  rewrite !length_app, !le_bytes_length by lia. done.
Qed.

Lemma serializeInfoHeader_length h : length (serializeInfoHeader h) = 40%nat.
Proof.
  unfold serializeInfoHeader.
  rewrite !length_app, !le_bytes_length by lia. done.
Qed.

(** ** The pipelines *)

(** C5. A rectangle with [x + cropWidth > width] or
    [y + cropHeight > height] makes the crop program stop with the bounds
    error, whatever the decoded image, and no output file is written: no
    clamping, no truncation. *)
Theorem crop_out_of_bounds_rejected file img openable x y cw ch :
  decode_file true (Some file) = Ok img →
  INT_MIN ≤ x + cw ≤ INT_MAX → INT_MIN ≤ y + ch ≤ INT_MAX →
  x + cw > img_width img ∨ y + ch > img_height img →
  Crop.main_roi (Some file) openable x y cw ch = Run [] (Err BoundsError).
Proof.
  intros Hdec Hx Hy Hout. unfold Crop.main_roi. rewrite Hdec.
  rewrite !wrap32_id by done.
  destruct Hout as [H|H].
  - by rewrite (bool_decide_eq_true_2 _ H).
  - by rewrite (bool_decide_eq_true_2 _ H), orb_true_r.
Qed.

Lemma crop_out_of_bounds_rejected_witness :
  Crop.main_roi (Some bmp_1x1) (λ _, true) 0 0 2 1 = Run [] (Err BoundsError).
Proof.
  apply (crop_out_of_bounds_rejected bmp_1x1 sample_image (λ _, true) 0 0 2 1).
  - vm_compute. reflexivity.
  - unfold INT_MIN, INT_MAX. lia.
  - unfold INT_MIN, INT_MAX. lia.
  - left. simpl. lia.
Defined.

(** C7, as the specification states it, fails: a valid 24-bit file whose
    pixel data starts at offset 58 decodes, and encoding the result gives
    58 bytes, not the 62 of the input. *)
Lemma roundtrip_loses_gap :
  ∃ img,
    decode_file false (Some bmp_gap) = Ok img
    ∧ encode (img_fileHeader img) (img_infoHeader img) (img_pixelData img)
      ≠ bmp_gap.
Proof.
  eexists. split; [vm_compute; reflexivity|].
  intros H. apply (f_equal length) in H. vm_compute in H. discriminate.
Qed.

(** C7, amended. For every input that decodes, whose pixel data starts
    right after the two headers ([bfOffBits = 54]) and which ends with the
    last pixel byte, encoding the decoded headers and buffer gives the
    input back, byte for byte. *)
Theorem decode_encode_roundtrip u file img :
  decode_file u (Some file) = Ok img →
  bfOffBits (img_fileHeader img) = 54 →
  length file = (54 + length (img_pixelData img))%nat →
  encode (img_fileHeader img) (img_infoHeader img) (img_pixelData img) = file.
Proof.
  intros Hdec Hoff Hlen.
  pose proof (decoded_pixelData_length _ _ _ Hdec) as Hn.
  apply decode_file_Ok in Hdec
    as (H54 & Hfh & Hih & _ & _ & _ & _ & Hpos & Hpx).
  unfold encode. rewrite Hfh, Hih.
  rewrite serialize_parseFileHeader by (rewrite length_take; lia).
  rewrite serialize_parseInfoHeader by (rewrite length_take, length_drop; lia).
  rewrite Hpx, Hoff. change (Z.to_nat 54) with 54%nat.
  assert (length (drop 54 file)
          = Z.to_nat (wrap32 (img_rowSize img * img_height img))) as Hrest
    by (rewrite length_drop; lia).
  rewrite (take_ge (drop 54 file)) by lia.
  rewrite Hrest, Nat.sub_diag. simpl replicate. rewrite app_nil_r.
  rewrite <- (take_drop 14 file) at 4. f_equal.
  rewrite <- (take_drop 40 (drop 14 file)) at 2. f_equal.
  by rewrite drop_drop.
Qed.

Lemma decode_encode_roundtrip_witness :
  encode (img_fileHeader sample_image) (img_infoHeader sample_image)
         (img_pixelData sample_image) = bmp_1x1.
Proof.
  apply (decode_encode_roundtrip true bmp_1x1 sample_image).
  - vm_compute. reflexivity.
  - reflexivity.
  - reflexivity.
Defined.





(** The two headers of an encoded file are the headers it was encoded
    from. *)
Lemma parse_encode u fh ih px :
  fileHeader_ok fh → infoHeader_ok u ih →
  parseFileHeader (take 14 (encode fh ih px)) = fh
  ∧ parseInfoHeader u (take 40 (drop 14 (encode fh ih px))) = ih.
Proof.
  intros Hfh Hih. unfold encode. split.
  - by apply parse_serializeFileHeader.
  - rewrite drop_app_length' by (by rewrite serializeFileHeader_length).
    by apply parse_serializeInfoHeader.
Qed.

(** The run of the crop program on a rectangle inside the image. *)
Lemma crop_main_valid file img openable x y cw ch :
  decode_file true (Some file) = Ok img → no_overflow img →
  0 ≤ x → 0 ≤ y → 0 ≤ cw → 0 ≤ ch →
  x + cw ≤ img_width img → y + ch ≤ img_height img →
  openable Crop.outputFileName = true →
  let size := Z.land (cw * img_bytesPerPixel img + 3) (Z.lnot 3) * ch in
  ∃ croppedPixelData,
    0 ≤ size ≤ INT_MAX
    ∧ 0 ≤ cw ≤ INT_MAX ∧ 0 ≤ ch ≤ INT_MAX
    ∧ Crop.main_roi (Some file) openable x y cw ch
      = Run [(Crop.outputFileName,
              encode
                {| bfType := bfType (img_fileHeader img);
                   bfSize := (size + bfOffBits (img_fileHeader img))
                               `mod` 2 ^ 32;
                   bfReserved1 := bfReserved1 (img_fileHeader img);
                   bfReserved2 := bfReserved2 (img_fileHeader img);
                   bfOffBits := bfOffBits (img_fileHeader img) |}
                {| biSize := biSize (img_infoHeader img);
                   biWidth := cw;
                   biHeight := ch;
                   biPlanes := biPlanes (img_infoHeader img);
                   biBitCount := biBitCount (img_infoHeader img);
                   biCompression := biCompression (img_infoHeader img);
                   biSizeImage := size;
                   biXPelsPerMeter := biXPelsPerMeter (img_infoHeader img);
                   biYPelsPerMeter := biYPelsPerMeter (img_infoHeader img);
                   biClrUsed := biClrUsed (img_infoHeader img);
                   biClrImportant := biClrImportant (img_infoHeader img) |}
                croppedPixelData)]
            (Ok tt).
Proof.
  intros Hdec Hov Hx Hy Hcw Hch Hxw Hyh Hopen size.
  destruct (decoded_buffer_ok true file img) as [Hok Hmod];
    [done | lia | lia | done |].
  pose proof Hdec as (_ & _ & _ & Hw & Hh & Hbpp & _)%decode_file_Ok.
  pose proof (wrap32_range (biWidth (img_infoHeader img))) as Hwr.
  pose proof (wrap32_range (biHeight (img_infoHeader img))) as Hhr.
  rewrite <- Hw in Hwr. rewrite <- Hh in Hhr.
  destruct Hov as [Hov1 Hov2].
  destruct (cropImage_spec (img_pixelData img) [] (img_bytesPerPixel img)
              (img_width img) (img_height img) (img_rowSize img) x y cw ch)
    as (dst & Hrun & Hlen & Hsz & _); [done..|].
  fold size in Hlen, Hsz.
  assert (0 ≤ cw * img_bytesPerPixel img ≤ img_width img * img_bytesPerPixel img)
    by (destruct Hbpp; nia).
  destruct (align4_spec (cw * img_bytesPerPixel img)) as (Hal & _ & _);
    [lia | lia |].
  exists dst. split_and!; try lia.
  unfold Crop.main_roi. rewrite Hdec.
  rewrite (wrap32_id (x + cw)), (wrap32_id (y + ch))
    by (unfold INT_MIN, INT_MAX in *; lia).
  rewrite !bool_decide_eq_false_2 by lia. cbn [orb].
  rewrite Hrun, Hopen.
  rewrite (wrap32_id (cw * _)) by (unfold INT_MIN, INT_MAX in *; lia).
  rewrite Hal. fold size.
  rewrite (wrap32_id size) by (unfold INT_MIN, INT_MAX in *; lia).
  cbn [biSizeImage]. unfold u32.
  rewrite (Z.mod_small cw), (Z.mod_small ch), (Z.mod_small size)
    by (unfold INT_MAX in *; lia).
  done.
Qed.

Lemma decoded_headers_ok u file img :
  decode_file u (Some file) = Ok img →
  fileHeader_ok (img_fileHeader img) ∧ infoHeader_ok u (img_infoHeader img).
Proof.
  intros (H54 & -> & -> & _)%decode_file_Ok. split.
  - apply parseFileHeader_ok. rewrite length_take. lia.
  - apply parseInfoHeader_ok. rewrite length_take, length_drop. lia.
Qed.

(** C9. After a valid crop the output headers carry the new width, height
    and image-data size, a file size of pixel-data offset plus image-data
    size, and every other field of the input headers unchanged. *)
Theorem crop_output_headers file img openable x y cw ch :
  decode_file true (Some file) = Ok img → no_overflow img →
  0 ≤ x → 0 ≤ y → 0 ≤ cw → 0 ≤ ch →
  x + cw ≤ img_width img → y + ch ≤ img_height img →
  openable Crop.outputFileName = true →
  ∃ out,
    Crop.main_roi (Some file) openable x y cw ch
      = Run [(Crop.outputFileName, out)] (Ok tt)
    ∧ let fh := img_fileHeader img in
      let ih := img_infoHeader img in
      let fh' := parseFileHeader (take 14 out) in
      let ih' := parseInfoHeader true (take 40 (drop 14 out)) in
      let size := Z.land (cw * img_bytesPerPixel img + 3) (Z.lnot 3) * ch in
      biWidth ih' = cw ∧ biHeight ih' = ch ∧ biSizeImage ih' = size
      ∧ bfSize fh' = (bfOffBits fh + size) `mod` 2 ^ 32
      ∧ (bfOffBits fh + size < 2 ^ 32 → bfSize fh' = bfOffBits fh + size)
      ∧ bfType fh' = bfType fh
      ∧ bfReserved1 fh' = bfReserved1 fh
      ∧ bfReserved2 fh' = bfReserved2 fh
      ∧ bfOffBits fh' = bfOffBits fh
      ∧ biSize ih' = biSize ih
      ∧ biPlanes ih' = biPlanes ih
      ∧ biBitCount ih' = biBitCount ih
      ∧ biCompression ih' = biCompression ih
      ∧ biXPelsPerMeter ih' = biXPelsPerMeter ih
      ∧ biYPelsPerMeter ih' = biYPelsPerMeter ih
      ∧ biClrUsed ih' = biClrUsed ih
      ∧ biClrImportant ih' = biClrImportant ih.
Proof.
  intros Hdec Hov Hx Hy Hcw Hch Hxw Hyh Hopen.
  destruct (crop_main_valid file img openable x y cw ch)
    as (dst & Hsize & Hcwr & Hchr & Hrun); [done..|].
  destruct (decoded_headers_ok _ _ _ Hdec)
    as [(F1 & F2 & F3 & F4 & F5)
        (I1 & I2 & I3 & I4 & I5 & I6 & I7 & I8 & I9 & I10 & I11)].
  eexists. split; [exact Hrun|]. cbv zeta.
  match goal with
  | |- context [encode ?fh ?ih dst] =>
      destruct (parse_encode true fh ih dst) as [-> ->]
  end.
  - unfold fileHeader_ok. cbn [bfType bfSize bfReserved1 bfReserved2 bfOffBits].
    match goal with
    | |- context [?a `mod` 2 ^ 32] =>
        pose proof (Z.mod_pos_bound a (2 ^ 32) ltac:(lia))
    end.
    split_and!; try done; lia.
  - unfold infoHeader_ok, dim_ok, INT_MAX in *.
    cbn [biSize biWidth biHeight biPlanes biBitCount biCompression
         biSizeImage biXPelsPerMeter biYPelsPerMeter biClrUsed
         biClrImportant].
    split_and!; try done; lia.
  - cbn [bfType bfSize bfReserved1 bfReserved2 bfOffBits
         biSize biWidth biHeight biPlanes biBitCount biCompression
         biSizeImage biXPelsPerMeter biYPelsPerMeter biClrUsed
         biClrImportant].
    split_and!; try done.
    + f_equal. lia.
    + intros Hfit. rewrite Z.mod_small by lia. lia.
Qed.

Lemma crop_output_headers_witness :
  ∃ out,
    Crop.main_roi (Some bmp_1x1) (λ _, true) 0 0 1 1
      = Run [(Crop.outputFileName, out)] (Ok tt)
    ∧ let fh := img_fileHeader sample_image in
      let ih := img_infoHeader sample_image in
      let fh' := parseFileHeader (take 14 out) in
      let ih' := parseInfoHeader true (take 40 (drop 14 out)) in
      let size :=
        Z.land (1 * img_bytesPerPixel sample_image + 3) (Z.lnot 3) * 1 in
      biWidth ih' = 1 ∧ biHeight ih' = 1 ∧ biSizeImage ih' = size
      ∧ bfSize fh' = (bfOffBits fh + size) `mod` 2 ^ 32
      ∧ (bfOffBits fh + size < 2 ^ 32 → bfSize fh' = bfOffBits fh + size)
      ∧ bfType fh' = bfType fh
      ∧ bfReserved1 fh' = bfReserved1 fh
      ∧ bfReserved2 fh' = bfReserved2 fh
      ∧ bfOffBits fh' = bfOffBits fh
      ∧ biSize ih' = biSize ih
      ∧ biPlanes ih' = biPlanes ih
      ∧ biBitCount ih' = biBitCount ih
      ∧ biCompression ih' = biCompression ih
      ∧ biXPelsPerMeter ih' = biXPelsPerMeter ih
      ∧ biYPelsPerMeter ih' = biYPelsPerMeter ih
      ∧ biClrUsed ih' = biClrUsed ih
      ∧ biClrImportant ih' = biClrImportant ih.
Proof.
  apply (crop_output_headers bmp_1x1 sample_image (λ _, true) 0 0 1 1).
  - vm_compute. reflexivity.
  - unfold no_overflow, INT_MAX. simpl. lia.
  - lia.
  - lia.
  - lia.
  - lia.
  - simpl. lia.
  - simpl. lia.
  - reflexivity.
Defined.

(** * Further properties of the programs *)

(** ** Header layout *)

(** X1. Writing out a file header that was read from 14 bytes, and an info
    header that was read from 40 bytes, emits exactly these bytes: the two
    structs lose nothing of what they were read from. *)
Theorem headers_written_back u fhb ihb :
  length fhb = 14%nat → length ihb = 40%nat →
  serializeFileHeader (parseFileHeader fhb) = fhb
  ∧ serializeInfoHeader (parseInfoHeader u ihb) = ihb.
Proof.
  intros H14 H40. split.
  - by apply serialize_parseFileHeader.
  - by apply serialize_parseInfoHeader.
Qed.

Lemma headers_written_back_witness :
  serializeFileHeader (parseFileHeader (take 14 bmp_top_down))
    = take 14 bmp_top_down
  ∧ serializeInfoHeader
      (parseInfoHeader false (take 40 (drop 14 bmp_top_down)))
    = take 40 (drop 14 bmp_top_down).
Proof.
  apply (headers_written_back false (take 14 bmp_top_down)
           (take 40 (drop 14 bmp_top_down))).
  - reflexivity.
  - reflexivity.
Defined.

(** X2. The headers read back from an encoded file are the headers it was
    encoded from, whenever every field is within the range of its C
    type. *)
Theorem headers_read_back u fh ih px :
  fileHeader_ok fh → infoHeader_ok u ih →
  parseFileHeader (take 14 (encode fh ih px)) = fh
  ∧ parseInfoHeader u (take 40 (drop 14 (encode fh ih px))) = ih.
Proof. apply parse_encode. Qed.

Lemma headers_read_back_witness :
  parseFileHeader
    (take 14 (encode (img_fileHeader sample_image) sample_infoHeader
                     sample_pixels))
    = img_fileHeader sample_image
  ∧ parseInfoHeader false
      (take 40 (drop 14 (encode (img_fileHeader sample_image)
                                sample_infoHeader sample_pixels)))
    = sample_infoHeader.
Proof.
  apply (headers_read_back false (img_fileHeader sample_image)
           sample_infoHeader sample_pixels).
  - unfold fileHeader_ok. simpl. lia.
  - unfold infoHeader_ok, dim_ok, INT_MIN, INT_MAX. simpl. lia.
Defined.

Lemma encode_length fh ih px :
  length (encode fh ih px) = (54 + length px)%nat.
Proof.
  unfold encode.
  rewrite !length_app, serializeFileHeader_length,
    serializeInfoHeader_length. lia.
Qed.

Lemma drop_encode fh ih px : drop 54 (encode fh ih px) = px.
Proof.
  unfold encode. rewrite app_assoc. apply drop_app_length'.
  by rewrite length_app, serializeFileHeader_length,
    serializeInfoHeader_length.
Qed.

(** X3. An encoded file is 14 + 40 header bytes followed by the pixel
    buffer, whatever the header fields hold: nothing is put between the
    headers and the pixel data, and nothing after it. *)
Theorem encode_layout fh ih px :
  length (encode fh ih px) = (54 + length px)%nat
  ∧ length (take 14 (encode fh ih px)) = 14%nat
  ∧ drop 54 (encode fh ih px) = px.
Proof.
  split_and!.
  - apply encode_length.
  - rewrite length_take, encode_length. lia.
  - apply drop_encode.
Qed.

(** ** Rejected and accepted inputs *)

Lemma signature_of_prefix (file : list byte) :
  field 0 2 (take 14 file) = field 0 2 file.
Proof. unfold field. by rewrite !drop_0, take_take. Qed.

(** What [decode_file] returns for a file that does not carry the
    signature. *)
Lemma decode_file_bad_signature u file :
  (2 ≤ length file)%nat → field 0 2 file ≠ 19778 →
  decode_file u (Some file) = Err FormatError.
Proof.
  intros Hlen Hsig. unfold decode_file, open. cbn [mbind result_bind].
  unfold decode. unfold read at 1. cbn [failbit pos content].
  rewrite drop_0, signature_of_prefix.
  rewrite bool_decide_eq_false_2 by (rewrite length_take; lia).
  by rewrite bool_decide_eq_true_2.
Qed.

(** X4. A file of at least two bytes whose first two bytes are not "BM"
    (0x4D42, little-endian) is refused as not being a BMP file, whatever
    follows, and none of the three programs writes a file. *)
Theorem wrong_signature_rejected file openable x y cw ch :
  (2 ≤ length file)%nat → field 0 2 file ≠ 19778 →
  Crop.main_roi (Some file) openable x y cw ch = Run [] (Err FormatError)
  ∧ Quantization.main (Some file) openable = Run [] (Err FormatError)
  ∧ Flip.main (Some file) openable = Run [] (Err FormatError).
Proof.
  intros Hlen Hsig.
  unfold Crop.main_roi, Quantization.main, Flip.main.
  by rewrite !decode_file_bad_signature.
Qed.

Lemma wrong_signature_rejected_witness :
  Crop.main_roi (Some not_a_bmp) (λ _, true) 0 0 1 1
    = Run [] (Err FormatError)
  ∧ Quantization.main (Some not_a_bmp) (λ _, true) = Run [] (Err FormatError)
  ∧ Flip.main (Some not_a_bmp) (λ _, true) = Run [] (Err FormatError).
Proof.
  apply (wrong_signature_rejected not_a_bmp (λ _, true) 0 0 1 1).
  - simpl. lia.
  - vm_compute. discriminate.
Defined.

Lemma decode_file_unsupported u file :
  (54 ≤ length file)%nat → field 0 2 file = 19778 →
  (biBitCount (parseInfoHeader u (take 40 (drop 14 file))) ≠ 24
   ∧ biBitCount (parseInfoHeader u (take 40 (drop 14 file))) ≠ 32)
  ∨ biCompression (parseInfoHeader u (take 40 (drop 14 file))) ≠ 0 →
  decode_file u (Some file) = Err UnsupportedFormatError.
Proof.
  intros Hlen Hsig Hgate. rewrite decode_file_eq by done. cbv zeta.
  rewrite <- signature_of_prefix in Hsig.
  rewrite bool_decide_eq_false_2
    by (intros H; apply H; exact Hsig).
  destruct Hgate as [[H24 H32]|Hc].
  - by rewrite (bool_decide_eq_true_2 _ H24), (bool_decide_eq_true_2 _ H32).
  - by rewrite (bool_decide_eq_true_2 _ Hc), orb_true_r.
Qed.

(** X5. A file with both headers and the signature whose bit count is
    neither 24 nor 32, or whose compression field is not 0, is refused as
    unsupported before any buffer is sized from its dimensions, and none of
    the three programs writes a file. *)
Theorem unsupported_format_rejected file openable x y cw ch :
  (54 ≤ length file)%nat → field 0 2 file = 19778 →
  (field 14 2 (take 40 (drop 14 file)) ≠ 24
   ∧ field 14 2 (take 40 (drop 14 file)) ≠ 32)
  ∨ field 16 4 (take 40 (drop 14 file)) ≠ 0 →
  Crop.main_roi (Some file) openable x y cw ch
    = Run [] (Err UnsupportedFormatError)
  ∧ Quantization.main (Some file) openable
    = Run [] (Err UnsupportedFormatError)
  ∧ Flip.main (Some file) openable = Run [] (Err UnsupportedFormatError).
Proof.
  intros Hlen Hsig Hgate.
  unfold Crop.main_roi, Quantization.main, Flip.main.
  by rewrite !decode_file_unsupported.
Qed.

Lemma unsupported_format_rejected_witness :
  Crop.main_roi (Some bmp_8bit) (λ _, true) 0 0 1 1
    = Run [] (Err UnsupportedFormatError)
  ∧ Quantization.main (Some bmp_8bit) (λ _, true)
    = Run [] (Err UnsupportedFormatError)
  ∧ Flip.main (Some bmp_8bit) (λ _, true)
    = Run [] (Err UnsupportedFormatError).
Proof.
  apply (unsupported_format_rejected bmp_8bit (λ _, true) 0 0 1 1).
  - vm_compute. lia.
  - vm_compute. reflexivity.
  - left. vm_compute. split; discriminate.
Defined.

Lemma wrap32_idem z : wrap32 (wrap32 z) = wrap32 z.
Proof. apply wrap32_id, wrap32_range. Qed.

Lemma wrap32_dim u z : wrap32 (dim u z) = wrap32 z.
Proof. destruct u; simpl; [done|apply wrap32_idem]. Qed.


(** What [decode_file] returns for a stored height below zero. *)
Lemma decode_file_negative_height u file :
  let ihb := take 40 (drop 14 file) in
  let width := wrap32 (field 4 4 ihb) in
  let height := wrap32 (field 8 4 ihb) in
  let bitCount := field 14 2 ihb in
  (54 ≤ length file)%nat → field 0 2 file = 19778 →
  bitCount = 24 ∨ bitCount = 32 → field 16 4 ihb = 0 →
  0 < width → width * Z.quot bitCount 8 + 3 ≤ INT_MAX →
  height < 0 → INT_MIN ≤ (width * Z.quot bitCount 8 + 3) * height →
  decode_file u (Some file) = Crash BadAlloc.
Proof.
  cbv zeta. intros Hlen Hsig Hbits Hc Hw Hov Hh Hmin.
  rewrite decode_file_eq by done. cbv zeta.
  unfold parseInfoHeader, parseFileHeader.
  cbn [bfType biWidth biHeight biBitCount biCompression].
  rewrite !wrap32_dim, signature_of_prefix.
  rewrite (bool_decide_eq_false_2 (_ ≠ 19778)) by (intros H; by apply H).
  rewrite (bool_decide_eq_false_2 (_ ≠ 0)) by (intros H; by apply H).
  set (w := wrap32 (field 4 4 (take 40 (drop 14 file)))) in *.
  set (h := wrap32 (field 8 4 (take 40 (drop 14 file)))) in *.
  set (bits := field 14 2 (take 40 (drop 14 file))) in *.
  assert (Z.quot bits 8 = 3 ∨ Z.quot bits 8 = 4) as Hbpp
    by (destruct Hbits as [-> | ->]; [by left|by right]).
  assert (0 < w * Z.quot bits 8) by (destruct Hbpp as [-> | ->]; lia).
  rewrite (wrap32_id (w * _)) by (unfold INT_MIN, INT_MAX in *; lia).
  destruct (align4_spec (w * Z.quot bits 8)) as (_ & Hal & _); [lia|done|].
  set (rs := align4 (w * Z.quot bits 8)) in *.
  assert (INT_MIN ≤ rs * h < 0) by (unfold INT_MIN in *; nia).
  rewrite (wrap32_id (rs * h)) by (unfold INT_MIN, INT_MAX in *; lia).
  rewrite (bool_decide_eq_true_2 (_ < 0)) by lia.
  destruct Hbits as [Hb|Hb].
  - rewrite (bool_decide_eq_false_2 (_ ≠ 24)) by (intros H'; by apply H').
    done.
  - rewrite (bool_decide_eq_false_2 (_ ≠ 32)) by (intros H'; by apply H').
    by rewrite andb_false_r.
Qed.

(** X7. A supported image stored top-down (a height below zero, with a
    width above zero) is not decoded: the buffer size [rowSize * height] is
    negative, sizing the vector by it fails, and no program writes a
    file. *)
Theorem top_down_image_crashes file openable x y cw ch :
  let ihb := take 40 (drop 14 file) in
  let width := wrap32 (field 4 4 ihb) in
  let height := wrap32 (field 8 4 ihb) in
  let bitCount := field 14 2 ihb in
  (54 ≤ length file)%nat → field 0 2 file = 19778 →
  bitCount = 24 ∨ bitCount = 32 → field 16 4 ihb = 0 →
  0 < width → width * Z.quot bitCount 8 + 3 ≤ INT_MAX →
  height < 0 → INT_MIN ≤ (width * Z.quot bitCount 8 + 3) * height →
  Crop.main_roi (Some file) openable x y cw ch = Run [] (Crash BadAlloc)
  ∧ Quantization.main (Some file) openable = Run [] (Crash BadAlloc)
  ∧ Flip.main (Some file) openable = Run [] (Crash BadAlloc).
Proof.
  cbv zeta. intros Hlen Hsig Hbits Hc Hw Hov Hh Hmin.
  unfold Crop.main_roi, Quantization.main, Flip.main.
  by rewrite !decode_file_negative_height.
Qed.

Lemma top_down_image_crashes_witness :
  Crop.main_roi (Some bmp_top_down) (λ _, true) 0 0 1 1
    = Run [] (Crash BadAlloc)
  ∧ Quantization.main (Some bmp_top_down) (λ _, true)
    = Run [] (Crash BadAlloc)
  ∧ Flip.main (Some bmp_top_down) (λ _, true) = Run [] (Crash BadAlloc).
Proof.
  apply (top_down_image_crashes bmp_top_down (λ _, true) 0 0 1 1).
  - vm_compute. lia.
  - vm_compute. reflexivity.
  - left. vm_compute. reflexivity.
  - vm_compute. reflexivity.
  - vm_compute. reflexivity.
  - vm_compute. discriminate.
  - vm_compute. reflexivity.
  - vm_compute. discriminate.
Defined.

(** X8. Whatever [decode_file] returns has 3 or 4 bytes per pixel; when
    its dimensions are not negative and its sizes were computed without
    overflow, its buffer is well formed: the stride is a multiple of 4 that
    covers the row with fewer than 4 bytes of padding, and the buffer holds
    exactly stride times height bytes. *)
Theorem decoded_image_well_formed u file img :
  decode_file u (Some file) = Ok img →
  0 ≤ img_width img → 0 ≤ img_height img → no_overflow img →
  (img_bytesPerPixel img = 3 ∨ img_bytesPerPixel img = 4)
  ∧ img_rowSize img `mod` 4 = 0
  ∧ img_width img * img_bytesPerPixel img ≤ img_rowSize img
    < img_width img * img_bytesPerPixel img + 4
  ∧ Z.of_nat (length (img_pixelData img))
    = img_rowSize img * img_height img.
Proof.
  intros Hdec Hw Hh Hov.
  destruct (decoded_buffer_ok u file img Hdec Hw Hh Hov)
    as [(_ & _ & _ & Hrs & Hlen & _) Hmod].
  apply decode_file_Ok in Hdec as (_ & _ & _ & _ & _ & Hbpp & Hal & _).
  destruct Hov as [Hov _].
  assert (0 ≤ img_width img * img_bytesPerPixel img) by (destruct Hbpp; nia).
  rewrite wrap32_id in Hal by (unfold INT_MIN, INT_MAX in *; lia).
  destruct (align4_spec (img_width img * img_bytesPerPixel img))
    as (_ & Hb & _); [done..|].
  rewrite <- Hal in Hb. split_and!; (done || lia).
Qed.

Lemma decoded_image_well_formed_witness :
  (img_bytesPerPixel sample_image = 3 ∨ img_bytesPerPixel sample_image = 4)
  ∧ img_rowSize sample_image `mod` 4 = 0
  ∧ img_width sample_image * img_bytesPerPixel sample_image
    ≤ img_rowSize sample_image
    < img_width sample_image * img_bytesPerPixel sample_image + 4
  ∧ Z.of_nat (length (img_pixelData sample_image))
    = img_rowSize sample_image * img_height sample_image.
Proof.
  apply (decoded_image_well_formed false bmp_1x1 sample_image).
  - vm_compute. reflexivity.
  - simpl. lia.
  - simpl. lia.
  - unfold no_overflow, INT_MAX. simpl. lia.
Defined.

(** X9. When the file holds all the bytes of the buffer from the
    pixel-data offset on, the decoded buffer is these bytes, unchanged and
    in order; bytes of the file beyond them are not read. *)
Theorem complete_pixel_data_read_verbatim u file img :
  decode_file u (Some file) = Ok img →
  (Z.to_nat (bfOffBits (img_fileHeader img)) + length (img_pixelData img)
   ≤ length file)%nat →
  img_pixelData img
  = take (length (img_pixelData img))
         (drop (Z.to_nat (bfOffBits (img_fileHeader img))) file).
Proof.
  intros Hdec Hall.
  pose proof (decoded_pixelData_length _ _ _ Hdec) as Hn.
  apply decode_file_Ok in Hdec as (_ & _ & _ & _ & _ & _ & _ & Hpos & Hpx).
  rewrite Hpx at 1.
  replace (_ - _)%nat with 0%nat by (rewrite length_drop; lia).
  simpl replicate. rewrite app_nil_r. f_equal. lia.
Qed.

Lemma complete_pixel_data_read_verbatim_witness :
  sample_pixels
  = take (length sample_pixels) (drop (Z.to_nat 58) bmp_gap).
Proof.
  apply (complete_pixel_data_read_verbatim false bmp_gap
           {| img_fileHeader :=
                {| bfType := 19778; bfSize := 62; bfReserved1 := 0;
                   bfReserved2 := 0; bfOffBits := 58 |};
              img_infoHeader := sample_infoHeader;
              img_width := 1;
              img_height := 1;
              img_bytesPerPixel := 3;
              img_rowSize := 4;
              img_pixelData := sample_pixels |}).
  - vm_compute. reflexivity.
  - vm_compute. lia.
Defined.

(** ** Quantize: what is kept, how far values move, bit depths beyond 8 *)

Lemma channel_indexes_pix buf bpp width height rowSize k :
  buffer_ok buf bpp width height rowSize → 3 ≤ bpp →
  k ∈ channel_indexes bpp width height rowSize ↔
  ∃ y x c, 0 ≤ y < height ∧ 0 ≤ x < width ∧ 0 ≤ c < 3
    ∧ k = y * rowSize + x * bpp + c.
Proof.
  intros Hok Hbpp. rewrite channel_indexes_elem.
  split; intros (y & x & c & Hy & Hx & Hc & ->); exists y, x, c;
    destruct (pixel_index buf bpp width height rowSize y x c) as [E _];
    try (done || lia); rewrite E; split_and!; (done || lia).
Qed.

(** A channel byte of the result. *)
Lemma quantize_channel buf buf' bpp width height rowSize bits y x c :
  buffer_ok buf bpp width height rowSize → 3 ≤ bpp → 1 ≤ bits ≤ 8 →
  quantizePixelData buf bpp width height rowSize bits = Ok buf' →
  0 ≤ y < height → 0 ≤ x < width → 0 ≤ c < 3 →
  ∃ v, load buf (y * rowSize + x * bpp + c) = Ok v
       ∧ load buf' (y * rowSize + x * bpp + c)
         = Ok (quantized (255 / (2 ^ bits - 1)) v).
Proof.
  intros Hok Hbpp Hbits Hrun Hy Hx Hc.
  destruct (quantizePixelData_spec buf bpp width height rowSize bits)
    as (buf1 & Hrun1 & Hlen & Hget); [done..|].
  rewrite Hrun in Hrun1. apply Ok_inj in Hrun1 as <-.
  destruct (pixel_index buf bpp width height rowSize y x c) as [_ Hin];
    [done || lia..|].
  destruct (load_in_range buf _ Hin) as [v Hv]. exists v. split; [done|].
  apply load_Ok in Hv as [_ Hv]. apply load_Ok. split; [lia|].
  rewrite Hget, Hv, Z2Nat.id by lia.
  rewrite decide_True; [done|].
  apply (channel_indexes_pix buf); [done..|]. by exists y, x, c.
Qed.

(** A byte of the result that is no channel byte. *)
Lemma quantize_other buf buf' bpp width height rowSize bits k :
  buffer_ok buf bpp width height rowSize → 3 ≤ bpp → 1 ≤ bits ≤ 8 →
  quantizePixelData buf bpp width height rowSize bits = Ok buf' →
  0 ≤ k < Z.of_nat (length buf) →
  (∀ y x c, 0 ≤ y < height → 0 ≤ x < width → 0 ≤ c < 3 →
     k ≠ y * rowSize + x * bpp + c) →
  ∃ v, load buf k = Ok v ∧ load buf' k = Ok v.
Proof.
  intros Hok Hbpp Hbits Hrun Hin Hk.
  destruct (quantizePixelData_spec buf bpp width height rowSize bits)
    as (buf1 & Hrun1 & Hlen & Hget); [done..|].
  rewrite Hrun in Hrun1. apply Ok_inj in Hrun1 as <-.
  destruct (load_in_range buf _ Hin) as [v Hv]. exists v. split; [done|].
  apply load_Ok in Hv as [_ Hv]. apply load_Ok. split; [lia|].
  rewrite Hget, Hv, Z2Nat.id by lia.
  rewrite decide_False; [done|].
  rewrite (channel_indexes_pix buf) by done.
  intros (y & x & c & Hy & Hx & Hc & ->). by eapply Hk.
Qed.

(** X10. Quantizing keeps the length of the buffer and every byte that is
    not one of the first three bytes of a pixel: the alpha byte of a
    32-bit pixel and the padding bytes of every row come out unchanged. *)
Theorem quantize_keeps_alpha_and_padding buf bpp width height rowSize bits :
  buffer_ok buf bpp width height rowSize → 3 ≤ bpp → 1 ≤ bits ≤ 8 →
  ∃ buf',
    quantizePixelData buf bpp width height rowSize bits = Ok buf'
    ∧ length buf' = length buf
    ∧ (∀ y x c, 0 ≤ y < height → 0 ≤ x < width → 3 ≤ c < bpp →
         ∃ v, load buf (y * rowSize + x * bpp + c) = Ok v
              ∧ load buf' (y * rowSize + x * bpp + c) = Ok v)
    ∧ (∀ y o, 0 ≤ y < height → width * bpp ≤ o < rowSize →
         ∃ v, load buf (y * rowSize + o) = Ok v
              ∧ load buf' (y * rowSize + o) = Ok v).
Proof.
  intros Hok Hbpp Hbits.
  destruct (quantizePixelData_spec buf bpp width height rowSize bits)
    as (buf' & Hrun & Hlen & _); [done..|].
  exists buf'. split_and!; [done..| |].
  - intros y x c Hy Hx Hc.
    apply (quantize_other buf buf' bpp width height rowSize bits);
      [done..| |].
    + apply (pixel_index buf bpp width height rowSize); (done || lia).
    + intros y' x' c' Hy' Hx' Hc' Heq.
      apply (pix_inj buf bpp width height rowSize Hok) in Heq; lia.
  - intros y o Hy Ho.
    apply (quantize_other buf buf' bpp width height rowSize bits);
      [done..| |].
    + by apply (pad_in_range buf bpp width height rowSize).
    + intros y' x' c' Hy' Hx' Hc'.
      apply (pad_not_pix buf bpp width height rowSize Hok); (done || lia).
Qed.

Lemma quantize_keeps_alpha_and_padding_witness :
  ∃ buf',
    quantizePixelData
      [Byte.x10; Byte.x20; Byte.x30; Byte.x80;
       Byte.x40; Byte.x50; Byte.x60; Byte.x7f;
       Byte.x01; Byte.x02; Byte.x03; Byte.x04] 4 2 1 12 2 = Ok buf'
    ∧ length buf'
      = length [Byte.x10; Byte.x20; Byte.x30; Byte.x80;
                Byte.x40; Byte.x50; Byte.x60; Byte.x7f;
                Byte.x01; Byte.x02; Byte.x03; Byte.x04]
    ∧ (∀ y x c, 0 ≤ y < 1 → 0 ≤ x < 2 → 3 ≤ c < 4 →
         ∃ v, load [Byte.x10; Byte.x20; Byte.x30; Byte.x80;
                    Byte.x40; Byte.x50; Byte.x60; Byte.x7f;
                    Byte.x01; Byte.x02; Byte.x03; Byte.x04]
                   (y * 12 + x * 4 + c) = Ok v
              ∧ load buf' (y * 12 + x * 4 + c) = Ok v)
    ∧ (∀ y o, 0 ≤ y < 1 → 2 * 4 ≤ o < 12 →
         ∃ v, load [Byte.x10; Byte.x20; Byte.x30; Byte.x80;
                    Byte.x40; Byte.x50; Byte.x60; Byte.x7f;
                    Byte.x01; Byte.x02; Byte.x03; Byte.x04]
                   (y * 12 + o) = Ok v
              ∧ load buf' (y * 12 + o) = Ok v).
Proof.
  apply (quantize_keeps_alpha_and_padding
           [Byte.x10; Byte.x20; Byte.x30; Byte.x80;
            Byte.x40; Byte.x50; Byte.x60; Byte.x7f;
            Byte.x01; Byte.x02; Byte.x03; Byte.x04] 4 2 1 12 2).
  - unfold buffer_ok, INT_MAX. simpl. lia.
  - lia.
  - lia.
Defined.

Lemma quantized_1 v : quantized 1 v = v.
Proof.
  unfold quantized. rewrite Z.div_1_r, Z.mul_1_r. apply Z_to_byte_to_Z.
Qed.

(** X11. With a bit depth of 8 the quantization step is 1 and
    [quantizePixelData] returns the buffer it was given. *)
Theorem quantize_8_bits_is_identity buf bpp width height rowSize :
  buffer_ok buf bpp width height rowSize → 3 ≤ bpp →
  quantizePixelData buf bpp width height rowSize 8 = Ok buf.
Proof.
  intros Hok Hbpp.
  destruct (quantizePixelData_spec buf bpp width height rowSize 8)
    as (buf' & Hrun & Hlen & Hget); [done..|lia|].
  rewrite Hrun. f_equal. apply list_eq. intros k. rewrite Hget.
  change (255 / (2 ^ 8 - 1)) with 1.
  destruct (buf !! k) as [v|]; [|done]. simpl.
  case_decide; simpl; by rewrite ?quantized_1.
Qed.

Lemma quantize_8_bits_is_identity_witness :
  quantizePixelData [Byte.x10; Byte.xff; Byte.x7f; Byte.x00] 3 1 1 4 8
  = Ok [Byte.x10; Byte.xff; Byte.x7f; Byte.x00].
Proof.
  apply (quantize_8_bits_is_identity
           [Byte.x10; Byte.xff; Byte.x7f; Byte.x00] 3 1 1 4).
  - unfold buffer_ok, INT_MAX. simpl. lia.
  - lia.
Defined.

Lemma quantize_level_count bits v :
  1 ≤ bits ≤ 8 → 0 ≤ v < 256 → 0 ≤ v / (255 / (2 ^ bits - 1)) < 2 ^ bits.
Proof.
  intros Hbits Hv.
  assert (bits = 1 ∨ bits = 2 ∨ bits = 3 ∨ bits = 4
          ∨ bits = 5 ∨ bits = 6 ∨ bits = 7 ∨ bits = 8) as Hb by lia.
  destruct_or!; subst bits;
    match goal with
    | |- context [255 / ?d] =>
        let s := eval vm_compute in (255 / d) in
        change (255 / d) with s
    end;
    (split; [apply Z.div_pos; lia | apply Z.div_lt_upper_bound; lia]).
Qed.

(** X12. After quantizing with a bit depth in [1, 8], every channel byte
    is one of at most [2 ^ bits] levels [k * step], [0 <= k < 2 ^ bits],
    namely the largest level not above the original byte: the value never
    grows and falls by less than one step. *)
Theorem quantize_levels buf bpp width height rowSize bits :
  buffer_ok buf bpp width height rowSize → 3 ≤ bpp → 1 ≤ bits ≤ 8 →
  ∃ buf',
    quantizePixelData buf bpp width height rowSize bits = Ok buf'
    ∧ ∀ y x c, 0 ≤ y < height → 0 ≤ x < width → 0 ≤ c < 3 →
      ∃ v v' k,
        load buf (y * rowSize + x * bpp + c) = Ok v
        ∧ load buf' (y * rowSize + x * bpp + c) = Ok v'
        ∧ 0 ≤ k < 2 ^ bits
        ∧ byte_to_Z v' = k * (255 / (2 ^ bits - 1))
        ∧ byte_to_Z v' ≤ byte_to_Z v < byte_to_Z v' + 255 / (2 ^ bits - 1).
Proof.
  intros Hok Hbpp Hbits.
  destruct (quantizePixelData_spec buf bpp width height rowSize bits)
    as (buf' & Hrun & _); [done..|].
  exists buf'. split; [done|]. intros y x c Hy Hx Hc.
  destruct (quantize_channel buf buf' bpp width height rowSize bits y x c)
    as (v & Hv & Hv'); [done..|].
  destruct (quantize_factor bits Hbits) as [_ Hstep].
  set (step := 255 / (2 ^ bits - 1)) in *.
  exists v, (quantized step v), (byte_to_Z v / step).
  pose proof (byte_to_Z_range v) as Hr.
  split; [done|]. split; [done|].
  split; [by apply quantize_level_count|].
  split; [by apply quantized_Z|].
  rewrite quantized_Z by done.
  pose proof (Z.mul_div_le (byte_to_Z v) step ltac:(lia)).
  pose proof (Z.mul_succ_div_gt (byte_to_Z v) step ltac:(lia)). lia.
Qed.

Lemma quantize_levels_witness :
  ∃ buf',
    quantizePixelData [Byte.x10; Byte.xff; Byte.x7f; Byte.x00] 3 1 1 4 2
      = Ok buf'
    ∧ ∀ y x c, 0 ≤ y < 1 → 0 ≤ x < 1 → 0 ≤ c < 3 →
      ∃ v v' k,
        load [Byte.x10; Byte.xff; Byte.x7f; Byte.x00] (y * 4 + x * 3 + c)
          = Ok v
        ∧ load buf' (y * 4 + x * 3 + c) = Ok v'
        ∧ 0 ≤ k < 2 ^ 2
        ∧ byte_to_Z v' = k * (255 / (2 ^ 2 - 1))
        ∧ byte_to_Z v' ≤ byte_to_Z v < byte_to_Z v' + 255 / (2 ^ 2 - 1).
Proof.
  apply (quantize_levels [Byte.x10; Byte.xff; Byte.x7f; Byte.x00] 3 1 1 4 2).
  - unfold buffer_ok, INT_MAX. simpl. lia.
  - lia.
  - lia.
Defined.

Lemma quantize_factor_zero bits :
  9 ≤ bits ≤ 30 →
  (levels ← ishl 1 bits; idiv 255 (wrap32 (levels - 1))) = Ok 0.
Proof.
  intros Hbits. unfold ishl. rewrite bool_decide_eq_true_2 by lia.
  cbn [mbind result_bind]. rewrite Z.shiftl_1_l.
  assert (2 ^ 9 ≤ 2 ^ bits ≤ 2 ^ 30)
    by (split; apply Z.pow_le_mono_r; lia).
  rewrite (wrap32_id (2 ^ bits)) by (unfold INT_MIN, INT_MAX; lia).
  rewrite wrap32_id by (unfold INT_MIN, INT_MAX; lia).
  unfold idiv. rewrite bool_decide_eq_false_2 by lia.
  rewrite Z.quot_small by lia. done.
Qed.

(** X13. With a bit depth from 9 to 30 the factor [255 / (levels - 1)] is
    0; on an image of at least one pixel, with a buffer that is not empty,
    the first assignment of the loop then divides by zero.  Nothing in
    [quantizePixelData] rejects such a depth. *)
Theorem quantize_above_8_bits_divides_by_zero
    buf bpp width height rowSize bits :
  9 ≤ bits ≤ 30 → 1 ≤ width → 1 ≤ height → (0 < length buf)%nat →
  quantizePixelData buf bpp width height rowSize bits
  = Crash DivisionByZero.
Proof.
  intros Hbits Hw Hh Hbuf. unfold quantizePixelData.
  pose proof (quantize_factor_zero bits Hbits) as Hfac.
  destruct (ishl 1 bits) as [levels| |]; [|done..].
  cbn [mbind result_bind] in Hfac |- *. rewrite Hfac.
  cbn [mbind result_bind]. unfold for_lt.
  rewrite (seqZ_cons 0 height) by lia. cbn [forM].
  rewrite (seqZ_cons 0 width) by lia. cbn [forM].
  change (seqZ 0 3) with [0; 1; 2]. cbn [forM].
  rewrite !Z.mul_0_l. change (wrap32 0 + wrap32 (wrap32 0 + 0)) with 0.
  destruct buf as [|v buf]; [simpl in Hbuf; lia|].
  reflexivity.
Qed.

Lemma quantize_above_8_bits_divides_by_zero_witness :
  quantizePixelData [Byte.x10; Byte.xff; Byte.x7f; Byte.x00] 3 1 1 4 9
  = Crash DivisionByZero.
Proof.
  apply (quantize_above_8_bits_divides_by_zero
           [Byte.x10; Byte.xff; Byte.x7f; Byte.x00] 3 1 1 4 9).
  - lia.
  - lia.
  - lia.
  - simpl. lia.
Defined.

(** ** FlipHorizontal: degenerate geometry, and flipping versus quantizing *)




(** The two indexes of a swapped pair are channel bytes together or not
    at all. *)
Lemma flip_pair_channels buf bpp width height rowSize i j :
  buffer_ok buf bpp width height rowSize → 3 ≤ bpp →
  (i, j) ∈ flip_pairs bpp width height rowSize →
  i ∈ channel_indexes bpp width height rowSize
  ↔ j ∈ channel_indexes bpp width height rowSize.
Proof.
  intros Hok Hbpp
    (y & x & c & Hy & Hx & Hx' & Hc & -> & ->)%(flip_pairs_elem buf); [|done].
  rewrite !(channel_indexes_pix buf) by done.
  split; intros (y' & x' & c' & Hy' & Hx'' & Hc' & Heq);
    apply (pix_inj buf bpp width height rowSize Hok) in Heq
      as (-> & ? & ->); try lia.
  - exists y', (width - 1 - x), c'. split_and!; (done || lia).
  - exists y', x, c'. split_and!; (done || lia).
Qed.

(** X15. Flipping and quantizing commute: quantizing the flipped buffer
    and flipping the quantized buffer give the same buffer. *)
Theorem flip_quantize_commute buf bpp width height rowSize bits :
  buffer_ok buf bpp width height rowSize → 3 ≤ bpp → 1 ≤ bits ≤ 8 →
  ∃ flipped quantized_ both,
    flipHorizontally buf width height rowSize bpp = Ok flipped
    ∧ quantizePixelData buf bpp width height rowSize bits = Ok quantized_
    ∧ quantizePixelData flipped bpp width height rowSize bits = Ok both
    ∧ flipHorizontally quantized_ width height rowSize bpp = Ok both.
Proof.
  intros Hok Hbpp Hbits.
  destruct (flipHorizontally_spec buf bpp width height rowSize Hok)
    as (F & HF & HlF & HswF & HfrF).
  destruct (quantizePixelData_spec buf bpp width height rowSize bits)
    as (Q & HQ & HlQ & HgetQ); [done..|].
  assert (buffer_ok F bpp width height rowSize) as HokF
    by (unfold buffer_ok in *; by rewrite HlF).
  assert (buffer_ok Q bpp width height rowSize) as HokQ
    by (unfold buffer_ok in *; by rewrite HlQ).
  destruct (quantizePixelData_spec F bpp width height rowSize bits)
    as (QF & HQF & HlQF & HgetQF); [done..|].
  destruct (flipHorizontally_spec Q bpp width height rowSize HokQ)
    as (FQ & HFQ & HlFQ & HswFQ & HfrFQ).
  exists F, Q, QF. split_and!; [done..|]. rewrite HFQ. f_equal.
  apply list_eq. intros k. rewrite HgetQF.
  destruct (decide (Z.of_nat k ∈ touched (flip_pairs bpp width height rowSize)))
    as [Hk|Hk].
  - apply touched_elem in Hk as (i & j & Hp & Hk).
    pose proof (flip_pair_channels buf bpp width height rowSize i j
                  Hok Hbpp Hp) as Hch.
    destruct (HswF _ _ Hp) as [HFi HFj].
    destruct (HswFQ _ _ Hp) as [HFQi HFQj].
    destruct Hk as [Hk|Hk]; rewrite <- Hk in *; rewrite Nat2Z.id in *.
    + rewrite HFQi, HFi, HgetQ.
      assert (0 ≤ j) by
        (pose proof (proj1 (Forall_forall _ _)
                       (flip_pairs_in_range buf bpp width height rowSize Hok)
                       _ Hp) as [_ ?]; simpl in *; lia).
      rewrite Z2Nat.id by done.
      destruct (buf !! Z.to_nat j); [|done]. simpl.
      destruct (decide (Z.of_nat k ∈ _)), (decide (j ∈ _)); tauto || done.
    + rewrite HFQj, HFj, HgetQ.
      assert (0 ≤ i) by
        (pose proof (proj1 (Forall_forall _ _)
                       (flip_pairs_in_range buf bpp width height rowSize Hok)
                       _ Hp) as [? _]; simpl in *; lia).
      rewrite Z2Nat.id by done.
      destruct (buf !! Z.to_nat i); [|done]. simpl.
      destruct (decide (Z.of_nat k ∈ _)), (decide (i ∈ _)); tauto || done.
  - by rewrite HfrFQ, HfrF, HgetQ.
Qed.

Lemma flip_quantize_commute_witness :
  ∃ flipped quantized_ both,
    flipHorizontally
      [Byte.x10; Byte.x20; Byte.x30; Byte.x80;
       Byte.x40; Byte.x50; Byte.x60; Byte.x7f] 2 1 8 4 = Ok flipped
    ∧ quantizePixelData
        [Byte.x10; Byte.x20; Byte.x30; Byte.x80;
         Byte.x40; Byte.x50; Byte.x60; Byte.x7f] 4 2 1 8 2 = Ok quantized_
    ∧ quantizePixelData flipped 4 2 1 8 2 = Ok both
    ∧ flipHorizontally quantized_ 2 1 8 4 = Ok both.
Proof.
  apply (flip_quantize_commute
           [Byte.x10; Byte.x20; Byte.x30; Byte.x80;
            Byte.x40; Byte.x50; Byte.x60; Byte.x7f] 4 2 1 8 2).
  - unfold buffer_ok, INT_MAX. simpl. lia.
  - lia.
  - lia.
Defined.

(** ** Crop: padding, and cropping a crop *)

(** The row loop of [cropImage] again, now with the bytes it leaves
    alone. *)
Lemma copy_rows_full src (srcOffset : Z → Z) n stride rows (k : nat) dst0 :
  0 ≤ n ≤ stride → Z.of_nat k ≤ rows →
  Z.of_nat (length dst0) = stride * rows →
  (∀ j, 0 ≤ j < rows →
     0 ≤ srcOffset j ∧ srcOffset j + n ≤ Z.of_nat (length src)) →
  ∃ dst,
    forM (λ j d, memcpy d (j * stride) src (srcOffset j) n)
         (seqZ 0 (Z.of_nat k)) dst0 = Ok dst
    ∧ length dst = length dst0
    ∧ (∀ j t, 0 ≤ j < Z.of_nat k → 0 ≤ t < n →
         dst !! Z.to_nat (j * stride + t) = src !! Z.to_nat (srcOffset j + t))
    ∧ (∀ j t, 0 ≤ j < rows → n ≤ t < stride →
         dst !! Z.to_nat (j * stride + t) = dst0 !! Z.to_nat (j * stride + t)).
Proof.
  intros Hn Hk Hlen Hsrc. induction k as [|k IH].
  { exists dst0. split_and!; [done..| |done]. intros; lia. }
  destruct IH as (dst & Hrun & Hl & Hrows & Hpad); [lia|].
  destruct (Hsrc (Z.of_nat k)) as [Hs Hsn]; [lia|].
  destruct (memcpy_Ok dst (Z.of_nat k * stride) src (srcOffset (Z.of_nat k)) n)
    as (r & Hcp & Hlr & Hnew & Hold); [lia| nia | rewrite Hl; nia | lia | lia |].
  exists r. split_and!.
  - rewrite seqZ_S, forM_app, Hrun. simpl. rewrite Z.add_0_l, Hcp. done.
  - congruence.
  - intros j t Hj Ht.
    destruct (decide (j = Z.of_nat k)) as [->|Hne]; [by apply Hnew|].
    rewrite Hold; [apply Hrows; lia|]. left. rewrite Z2Nat.id; nia.
  - intros j t Hj Ht. rewrite Hold; [by apply Hpad|].
    rewrite Z2Nat.id by nia.
    destruct (Z_lt_le_dec j (Z.of_nat k)); [left|right]; nia.
Qed.

Lemma resize_nil n :
  0 ≤ n → resize n [] = Ok (replicate (Z.to_nat n) Byte.x00).
Proof.
  intros Hn. unfold resize. rewrite bool_decide_eq_false_2 by lia.
  by rewrite take_nil, Nat.sub_0_r.
Qed.

(** Every byte of what [cropImage] returns into an empty vector. *)
Lemma cropImage_full src bpp width height rowSize x y cw ch :
  buffer_ok src bpp width height rowSize → rowSize `mod` 4 = 0 →
  0 ≤ x → 0 ≤ y → 0 ≤ cw → 0 ≤ ch → x + cw ≤ width → y + ch ≤ height →
  let crs := Z.land (cw * bpp + 3) (Z.lnot 3) in
  ∃ dst,
    cropImage src [] width height bpp rowSize x y cw ch = Ok dst
    ∧ buffer_ok dst bpp cw ch crs ∧ crs `mod` 4 = 0
    ∧ ∀ j t, 0 ≤ j < ch → 0 ≤ t < crs →
        dst !! Z.to_nat (j * crs + t)
        = if decide (t < cw * bpp)
          then src !! Z.to_nat ((y + j) * rowSize + x * bpp + t)
          else Some Byte.x00.
Proof.
  intros (Hb & Hw & Hh & Hrs & Hlen & Hmax) Hmod Hx Hy Hcw Hch Hxw Hyh crs.
  assert (crs `mod` 4 = 0) as Hcmod.
  { unfold crs. rewrite land_lnot3, Z.mul_comm. apply Z.mod_mul. lia. }
  destruct (decide (ch = 0)) as [->|Hne].
  { exists []. split_and!; [ | |done|intros; lia].
    - unfold cropImage. rewrite Z.mul_0_r. done.
    - assert (0 ≤ cw * bpp) by nia.
      unfold buffer_ok, crs, INT_MAX. rewrite land_lnot3.
      pose proof (Z.div_mod (cw * bpp + 3) 4 ltac:(lia)).
      pose proof (Z.mod_pos_bound (cw * bpp + 3) 4 ltac:(lia)).
      simpl length. split_and!; lia. }
  unfold INT_MAX in Hmax.
  assert (0 ≤ cw * bpp ≤ width * bpp) as Hn by nia.
  assert (0 ≤ x * bpp ∧ x * bpp + cw * bpp ≤ width * bpp) as Hxb by nia.
  assert (0 ≤ rowSize ≤ rowSize * height) as Hrs' by nia.
  destruct (align4_le_stride (cw * bpp) rowSize) as [Hn3 Hcrs];
    [lia | done | unfold INT_MAX; lia |].
  destruct (align4_spec (cw * bpp)) as (Hal & Hcrs' & _); [lia | done |].
  unfold cropImage.
  rewrite (wrap32_id (cw * bpp)) by (unfold INT_MIN, INT_MAX; lia).
  fold crs in Hal. rewrite Hal in *. clear Hal.
  assert (0 ≤ crs * ch ≤ rowSize * height) as Hsz by nia.
  rewrite (wrap32_id (crs * ch)) by (unfold INT_MIN, INT_MAX; lia).
  rewrite resize_nil by lia. cbn [mbind result_bind].
  set (dst1 := replicate (Z.to_nat (crs * ch)) Byte.x00).
  assert (Z.of_nat (length dst1) = crs * ch) as Hlen1
    by (unfold dst1; rewrite length_replicate; lia).
  assert (∀ j, 0 ≤ j < ch →
            0 ≤ (y + j) * rowSize + x * bpp
            ∧ (y + j) * rowSize + x * bpp + cw * bpp ≤ Z.of_nat (length src))
    as Hsrc by (intros j Hj; nia).
  destruct (copy_rows_full src (λ j, (y + j) * rowSize + x * bpp) (cw * bpp)
              crs ch (Z.to_nat ch) dst1) as (dst & Hrun & Hl & Hrows & Hpad);
    [lia | lia | done | done |].
  rewrite Z2Nat.id in Hrun, Hrows by lia.
  exists dst. split_and!; [| |done|].
  - unfold for_lt. rewrite <- Hrun. apply forM_ext.
    intros j d Hj%elem_of_seqZ.
    destruct (Hsrc j) as [? ?]; [lia|].
    assert (0 ≤ (y + j) * rowSize ≤ rowSize * height) by nia.
    assert (0 ≤ j * crs ≤ crs * ch) by nia.
    assert (wrap32 (wrap32 (y + j) * rowSize) = (y + j) * rowSize) as ->.
    { destruct (decide (rowSize = 0)) as [->|Hrs0].
      - by rewrite !Z.mul_0_r.
      - assert (height ≤ rowSize * height) by nia.
        rewrite (wrap32_id (y + j)) by (unfold INT_MIN, INT_MAX; lia).
        apply wrap32_id. unfold INT_MIN, INT_MAX. lia. }
    rewrite (wrap32_id (x * bpp)) by (unfold INT_MIN, INT_MAX; lia).
    rewrite (wrap32_id (_ + _)) by (unfold INT_MIN, INT_MAX; lia).
    rewrite (wrap32_id (j * crs)) by (unfold INT_MIN, INT_MAX; lia).
    done.
  - unfold buffer_ok, INT_MAX. split_and!; lia.
  - intros j t Hj Ht. case_decide as Hpix.
    + rewrite Hrows by lia. f_equal; lia.
    + rewrite Hpad by lia. unfold dst1.
      apply lookup_replicate_2. nia.
Qed.

(** X16. In the buffer [cropImage] builds from an empty vector, the
    padding bytes of every row, from [cropWidth * bytesPerPixel] up to the
    stride, are zero, whatever the padding of the source holds. *)
Theorem crop_padding_is_zero src bpp width height rowSize x y cw ch :
  buffer_ok src bpp width height rowSize → rowSize `mod` 4 = 0 →
  0 ≤ x → 0 ≤ y → 0 ≤ cw → 0 ≤ ch → x + cw ≤ width → y + ch ≤ height →
  ∃ dst,
    cropImage src [] width height bpp rowSize x y cw ch = Ok dst
    ∧ ∀ j o, 0 ≤ j < ch →
        cw * bpp ≤ o < Z.land (cw * bpp + 3) (Z.lnot 3) →
        load dst (j * Z.land (cw * bpp + 3) (Z.lnot 3) + o) = Ok Byte.x00.
Proof.
  intros Hok Hmod Hx Hy Hcw Hch Hxw Hyh.
  destruct (cropImage_full src bpp width height rowSize x y cw ch)
    as (dst & Hrun & Hokd & _ & Hget); [done..|].
  exists dst. split; [done|]. intros j o Hj Ho.
  assert (0 ≤ cw * bpp) by (destruct Hok as (? & _); nia).
  specialize (Hget j o Hj ltac:(lia)).
  rewrite decide_False in Hget by lia.
  apply load_Ok. split; [|done].
  destruct Hokd as (_ & _ & _ & _ & _ & _). nia.
Qed.

Lemma crop_padding_is_zero_witness :
  ∃ dst,
    cropImage
      [Byte.x01; Byte.x02; Byte.x03; Byte.x04; Byte.x05; Byte.x06;
       Byte.xaa; Byte.xbb;
       Byte.x07; Byte.x08; Byte.x09; Byte.x0a; Byte.x0b; Byte.x0c;
       Byte.xcc; Byte.xdd]
      [] 2 2 3 8 1 1 1 1 = Ok dst
    ∧ ∀ j o, 0 ≤ j < 1 →
        1 * 3 ≤ o < Z.land (1 * 3 + 3) (Z.lnot 3) →
        load dst (j * Z.land (1 * 3 + 3) (Z.lnot 3) + o) = Ok Byte.x00.
Proof.
  apply (crop_padding_is_zero
           [Byte.x01; Byte.x02; Byte.x03; Byte.x04; Byte.x05; Byte.x06;
            Byte.xaa; Byte.xbb;
            Byte.x07; Byte.x08; Byte.x09; Byte.x0a; Byte.x0b; Byte.x0c;
            Byte.xcc; Byte.xdd]
           3 2 2 8 1 1 1 1).
  - unfold buffer_ok, INT_MAX. simpl. lia.
  - reflexivity.
  - lia.
  - lia.
  - lia.
  - lia.
  - lia.
  - lia.
Defined.

(** X17. Cropping a crop is cropping the original: taking the rectangle
    [(x2, y2, w2, h2)] out of the rectangle [(x1, y1, w1, h1)] of a buffer
    gives, byte for byte, the buffer that the rectangle
    [(x1 + x2, y1 + y2, w2, h2)] of the original gives. *)
Theorem crop_of_crop src bpp width height rowSize x1 y1 w1 h1 x2 y2 w2 h2 :
  buffer_ok src bpp width height rowSize → rowSize `mod` 4 = 0 →
  0 ≤ x1 → 0 ≤ y1 → 0 ≤ w1 → 0 ≤ h1 →
  x1 + w1 ≤ width → y1 + h1 ≤ height →
  0 ≤ x2 → 0 ≤ y2 → 0 ≤ w2 → 0 ≤ h2 → x2 + w2 ≤ w1 → y2 + h2 ≤ h1 →
  ∃ mid dst,
    cropImage src [] width height bpp rowSize x1 y1 w1 h1 = Ok mid
    ∧ cropImage mid [] w1 h1 bpp (Z.land (w1 * bpp + 3) (Z.lnot 3))
                x2 y2 w2 h2 = Ok dst
    ∧ cropImage src [] width height bpp rowSize (x1 + x2) (y1 + y2) w2 h2
      = Ok dst.
Proof.
  intros Hok Hmod Hx1 Hy1 Hw1 Hh1 Hxw1 Hyh1 Hx2 Hy2 Hw2 Hh2 Hxw2 Hyh2.
  destruct (cropImage_full src bpp width height rowSize x1 y1 w1 h1)
    as (mid & Hmid & Hokm & Hmodm & Hgetm); [done..|].
  destruct (cropImage_full mid bpp w1 h1 (Z.land (w1 * bpp + 3) (Z.lnot 3))
              x2 y2 w2 h2) as (dst & Hdst & Hokd & _ & Hgetd); [done..|].
  destruct (cropImage_full src bpp width height rowSize
              (x1 + x2) (y1 + y2) w2 h2)
    as (dir & Hdir & Hokr & _ & Hgetr); [done || lia..|].
  exists mid, dst. split_and!; [done..|]. rewrite Hdir. f_equal.
  set (crs1 := Z.land (w1 * bpp + 3) (Z.lnot 3)) in *.
  set (crs2 := Z.land (w2 * bpp + 3) (Z.lnot 3)) in *.
  destruct Hokd as (Hb & _ & _ & Hn2 & Hlend & _).
  destruct Hokr as (_ & _ & _ & _ & Hlenr & _).
  destruct Hokm as (_ & _ & _ & Hn1 & _ & _).
  apply list_eq_same_length with (length dst); [done|lia|].
  intros k a b Hk Ha Hb'.
  assert (0 < crs2) as Hpos by nia.
  set (j := Z.of_nat k / crs2). set (t := Z.of_nat k `mod` crs2).
  assert (Z.of_nat k = j * crs2 + t) as Hkjt
    by (unfold j, t; rewrite Z.mul_comm; apply Z.div_mod; lia).
  assert (0 ≤ t < crs2) as Ht by (apply Z.mod_pos_bound; lia).
  assert (0 ≤ j < h2) as Hj.
  { split; [apply Z.div_pos; lia|].
    apply Z.div_lt_upper_bound; [lia|]. nia. }
  pose proof (Hgetd j t Hj Ht) as Ed. pose proof (Hgetr j t Hj Ht) as Er.
  rewrite <- Hkjt, Nat2Z.id in Ed, Er.
  rewrite Ha in Er. rewrite Hb' in Ed.
  destruct (decide (t < w2 * bpp)) as [Hpix|Hpad]; [|congruence].
  assert (0 ≤ x2 * bpp ∧ x2 * bpp + w2 * bpp ≤ w1 * bpp) by nia.
  pose proof (Hgetm (y2 + j) (x2 * bpp + t) ltac:(lia) ltac:(lia)) as Em.
  rewrite decide_True in Em by lia.
  rewrite <- Z.add_assoc in Ed. rewrite Em in Ed.
  assert (Some a = Some b) as [= ->]; [|done].
  rewrite Er, Ed. do 2 f_equal. lia.
Qed.

Lemma crop_of_crop_witness :
  ∃ mid dst,
    cropImage
      [Byte.x01; Byte.x02; Byte.x03; Byte.x04; Byte.x05; Byte.x06;
       Byte.xaa; Byte.xbb;
       Byte.x07; Byte.x08; Byte.x09; Byte.x0a; Byte.x0b; Byte.x0c;
       Byte.xcc; Byte.xdd]
      [] 2 2 3 8 0 1 2 1 = Ok mid
    ∧ cropImage mid [] 2 1 3 (Z.land (2 * 3 + 3) (Z.lnot 3)) 1 0 1 1 = Ok dst
    ∧ cropImage
        [Byte.x01; Byte.x02; Byte.x03; Byte.x04; Byte.x05; Byte.x06;
         Byte.xaa; Byte.xbb;
         Byte.x07; Byte.x08; Byte.x09; Byte.x0a; Byte.x0b; Byte.x0c;
         Byte.xcc; Byte.xdd]
        [] 2 2 3 8 (0 + 1) (1 + 0) 1 1 = Ok dst.
Proof.
  apply (crop_of_crop
           [Byte.x01; Byte.x02; Byte.x03; Byte.x04; Byte.x05; Byte.x06;
            Byte.xaa; Byte.xbb;
            Byte.x07; Byte.x08; Byte.x09; Byte.x0a; Byte.x0b; Byte.x0c;
            Byte.xcc; Byte.xdd]
           3 2 2 8 0 1 2 1 1 0 1 1).
  - unfold buffer_ok, INT_MAX. simpl. lia.
  - reflexivity.
  - lia.
  - lia.
  - lia.
  - lia.
  - lia.
  - lia.
  - lia.
  - lia.
  - lia.
  - lia.
  - lia.
  - lia.
Defined.

(** ** The three programs as a whole *)

(** X18. The crop and the flip program either end normally, having written
    exactly one file under their output name, or end abnormally having
    written nothing: no run leaves a partial or stray file. *)
Theorem one_file_or_none input openable x y cw ch :
  ((∃ out, Crop.main_roi input openable x y cw ch
            = Run [(Crop.outputFileName, out)] (Ok tt))
   ∨ (written (Crop.main_roi input openable x y cw ch) = []
      ∧ status (Crop.main_roi input openable x y cw ch) ≠ Ok tt))
  ∧ ((∃ out, Flip.main input openable
              = Run [(Flip.outputFileName, out)] (Ok tt))
     ∨ (written (Flip.main input openable) = []
        ∧ status (Flip.main input openable) ≠ Ok tt)).
Proof.
  split.
  - unfold Crop.main_roi.
    destruct (decode_file true input) as [img| |];
      [|by right..].
    destruct (_ || _); [by right|].
    destruct (cropImage _ _ _ _ _ _ _ _ _ _) as [px| |]; [|by right..].
    destruct (openable Crop.outputFileName); [left; by eexists|by right].
  - unfold Flip.main.
    destruct (decode_file false input) as [img| |]; [|by right..].
    destruct (flipHorizontally _ _ _ _ _) as [px| |]; [|by right..].
    destruct (openable Flip.outputFileName); [left; by eexists|by right].
Qed.

(** The headers of a decoded image, written out, are the first 54 bytes of
    the file. *)
Lemma decoded_encode u file img px :
  decode_file u (Some file) = Ok img →
  encode (img_fileHeader img) (img_infoHeader img) px = take 54 file ++ px.
Proof.
  intros (H54 & -> & -> & _)%decode_file_Ok. unfold encode.
  rewrite serialize_parseFileHeader by (rewrite length_take; lia).
  rewrite serialize_parseInfoHeader by (rewrite length_take, length_drop; lia).
  by rewrite app_assoc, (take_take_drop file 14 40).
Qed.

(** Decoding looks at the first 54 bytes and at the bytes from the
    pixel-data offset on, and at nothing else. *)
Lemma decode_file_same_headers u file1 file2 img1 :
  decode_file u (Some file1) = Ok img1 →
  take 54 file2 = take 54 file1 → (54 ≤ length file2)%nat →
  decode_file u (Some file2)
  = Ok {| img_fileHeader := img_fileHeader img1;
          img_infoHeader := img_infoHeader img1;
          img_width := img_width img1;
          img_height := img_height img1;
          img_bytesPerPixel := img_bytesPerPixel img1;
          img_rowSize := img_rowSize img1;
          img_pixelData :=
            take (length (img_pixelData img1))
                 (drop (Z.to_nat (bfOffBits (img_fileHeader img1))) file2)
            ++ replicate
                 (length (img_pixelData img1)
                  - length (drop (Z.to_nat (bfOffBits (img_fileHeader img1)))
                                 file2))
                 Byte.x00 |}.
Proof.
  intros Hdec Hpre Hlen2.
  pose proof (decoded_pixelData_length _ _ _ Hdec) as Hn.
  pose proof (decode_file_short _ _ _ Hdec) as Hlen1.
  assert (take 14 file2 = take 14 file1) as E14.
  { transitivity (take 14 (take 54 file2)); [by rewrite take_take|].
    rewrite Hpre. by rewrite take_take. }
  assert (take 40 (drop 14 file2) = take 40 (drop 14 file1)) as E40.
  { rewrite !take_drop_commute. change (14 + 40)%nat with 54%nat.
    by rewrite Hpre. }
  rewrite decode_file_eq in Hdec by done. rewrite decode_file_eq by done.
  cbv zeta in Hdec |- *. rewrite E14, E40.
  case_bool_decide as Hsig; [done|].
  destruct (_ && _ || _); [done|].
  case_bool_decide as Hneg; [done|].
  apply Ok_inj in Hdec. subst img1.
  cbn [img_fileHeader img_infoHeader img_width img_height img_bytesPerPixel
       img_rowSize img_pixelData] in *.
  clear Hn. do 2 f_equal.
  match goal with
  | |- take ?n ?X ++ _ = _ => set (N := n); set (X2 := X)
  end.
  rewrite (length_app (take N _)), !length_take, length_replicate.
  f_equal; f_equal; lia.
Qed.

(** The buffer decoded from a file that ends with its pixel data, starting
    at offset 54. *)
Lemma decoded_pixels_exact u file img :
  decode_file u (Some file) = Ok img →
  bfOffBits (img_fileHeader img) = 54 →
  length file = (54 + length (img_pixelData img))%nat →
  img_pixelData img = drop 54 file.
Proof.
  intros Hdec Hoff Hlen.
  pose proof (decoded_pixelData_length _ _ _ Hdec) as Hn.
  apply decode_file_Ok in Hdec as (_ & _ & _ & _ & _ & _ & _ & Hpos & Hpx).
  rewrite Hoff in Hpx. change (Z.to_nat 54) with 54%nat in Hpx.
  rewrite Hpx at 1.
  rewrite take_ge by (rewrite length_drop; lia).
  replace (_ - _)%nat with 0%nat by (rewrite length_drop; lia).
  by rewrite app_nil_r.
Qed.

(** X19. On an input that decodes to a well-formed image, the flip program
    writes one file: the first 54 bytes of the input, unchanged, followed
    by the flipped buffer, which is as long as the decoded one. *)
Theorem flip_main_output file img openable :
  decode_file false (Some file) = Ok img →
  0 ≤ img_width img → 0 ≤ img_height img → no_overflow img →
  openable Flip.outputFileName = true →
  ∃ flipped,
    flipHorizontally (img_pixelData img) (img_width img) (img_height img)
                     (img_rowSize img) (img_bytesPerPixel img) = Ok flipped
    ∧ length flipped = length (img_pixelData img)
    ∧ Flip.main (Some file) openable
      = Run [(Flip.outputFileName, take 54 file ++ flipped)] (Ok tt).
Proof.
  intros Hdec Hw Hh Hov Hopen.
  destruct (decoded_buffer_ok false file img Hdec Hw Hh Hov) as [Hok _].
  destruct (flipHorizontally_spec _ _ _ _ _ Hok)
    as (flipped & Hrun & Hlen & _).
  exists flipped. split_and!; [done..|].
  unfold Flip.main. rewrite Hdec, Hrun, Hopen.
  by rewrite (decoded_encode false file img).
Qed.

Lemma flip_main_output_witness :
  ∃ flipped,
    flipHorizontally (img_pixelData sample_image) (img_width sample_image)
                     (img_height sample_image) (img_rowSize sample_image)
                     (img_bytesPerPixel sample_image) = Ok flipped
    ∧ length flipped = length (img_pixelData sample_image)
    ∧ Flip.main (Some bmp_1x1) (λ _, true)
      = Run [(Flip.outputFileName, take 54 bmp_1x1 ++ flipped)] (Ok tt).
Proof.
  apply (flip_main_output bmp_1x1 sample_image (λ _, true)).
  - vm_compute. reflexivity.
  - simpl. lia.
  - simpl. lia.
  - unfold no_overflow, INT_MAX. simpl. lia.
  - reflexivity.
Defined.

(** X20. Running the flip program on its own output gives the input back:
    for an input that decodes to a well-formed image, with its pixel data
    at offset 54 and nothing after it, the second run writes the bytes of
    the first run's input. *)
Theorem flip_main_twice file img openable :
  decode_file false (Some file) = Ok img →
  0 ≤ img_width img → 0 ≤ img_height img → no_overflow img →
  bfOffBits (img_fileHeader img) = 54 →
  length file = (54 + length (img_pixelData img))%nat →
  openable Flip.outputFileName = true →
  ∃ out,
    Flip.main (Some file) openable = Run [(Flip.outputFileName, out)] (Ok tt)
    ∧ Flip.main (Some out) openable
      = Run [(Flip.outputFileName, file)] (Ok tt).
Proof.
  intros Hdec Hw Hh Hov Hoff Hlen Hopen.
  destruct (decoded_buffer_ok false file img Hdec Hw Hh Hov) as [Hok _].
  destruct (flipHorizontally_twice _ _ _ _ _ Hok)
    as (flipped & Hrun & Hback).
  assert (length flipped = length (img_pixelData img)) as Hlf.
  { destruct (flipHorizontally_spec _ _ _ _ _ Hok) as (f' & Hrun' & Hl & _).
    rewrite Hrun in Hrun'. by apply Ok_inj in Hrun' as ->. }
  pose proof (decode_file_short _ _ _ Hdec) as H54.
  assert (length (take 54 file) = 54%nat) as Ht54
    by (rewrite length_take; lia).
  exists (take 54 file ++ flipped). split.
  { unfold Flip.main. rewrite Hdec, Hrun, Hopen.
    by rewrite (decoded_encode false file img). }
  assert (take 54 (take 54 file ++ flipped) = take 54 file) as Hpre
    by (by rewrite take_app_length').
  assert (54 ≤ length (take 54 file ++ flipped))%nat as Hl2
    by (rewrite length_app; lia).
  pose proof (decode_file_same_headers false file (take 54 file ++ flipped)
                img Hdec Hpre Hl2) as Hdec2.
  rewrite Hoff in Hdec2. change (Z.to_nat 54) with 54%nat in Hdec2.
  rewrite drop_app_length' in Hdec2 by done.
  rewrite <- Hlf in Hdec2. rewrite (take_ge flipped) in Hdec2 by lia.
  rewrite Nat.sub_diag in Hdec2. simpl replicate in Hdec2.
  rewrite app_nil_r in Hdec2.
  unfold Flip.main. rewrite Hdec2.
  cbn [img_fileHeader img_infoHeader img_width img_height img_bytesPerPixel
       img_rowSize img_pixelData].
  rewrite Hback, Hopen. rewrite (decoded_encode false file img) by done.
  rewrite (decoded_pixels_exact false file img) by done.
  by rewrite take_drop.
Qed.

Lemma flip_main_twice_witness :
  ∃ out,
    Flip.main (Some bmp_1x1) (λ _, true)
      = Run [(Flip.outputFileName, out)] (Ok tt)
    ∧ Flip.main (Some out) (λ _, true)
      = Run [(Flip.outputFileName, bmp_1x1)] (Ok tt).
Proof.
  apply (flip_main_twice bmp_1x1 sample_image (λ _, true)).
  - vm_compute. reflexivity.
  - simpl. lia.
  - simpl. lia.
  - unfold no_overflow, INT_MAX. simpl. lia.
  - reflexivity.
  - reflexivity.
  - reflexivity.
Defined.

Lemma modify_in_range f i buf :
  0 ≤ i < Z.of_nat (length buf) →
  ∃ v, modify f i buf = Ok (<[Z.to_nat i := v]> buf).
Proof.
  intros Hin. destruct (load_in_range buf i Hin) as [v Hv].
  exists (f v). unfold modify. rewrite Hv. cbn [mbind result_bind].
  by apply store_Ok.
Qed.

Lemma modify_out_of_range f i buf :
  ¬ (0 ≤ i < Z.of_nat (length buf)) → modify f i buf = Crash OutOfBounds.
Proof.
  intros Hout. unfold modify, load, in_range.
  by rewrite bool_decide_eq_false_2.
Qed.

(** A run of updates succeeds exactly when every index lies inside the
    buffer, whatever the update is. *)
Lemma forM_modify_Ok_iff (f : byte → byte) idxs buf :
  (∃ buf', forM (modify f) idxs buf = Ok buf')
  ↔ Forall (λ i, 0 ≤ i < Z.of_nat (length buf)) idxs.
Proof.
  revert buf. induction idxs as [|i idxs IH]; intros buf.
  { split; [constructor|]. by exists buf. }
  cbn [forM]. rewrite Forall_cons.
  destruct (decide (0 ≤ i < Z.of_nat (length buf))) as [Hin|Hout].
  - destruct (modify_in_range f i buf Hin) as [v ->].
    cbn [mbind result_bind]. rewrite IH, length_insert. tauto.
  - rewrite modify_out_of_range by done. cbn [mbind result_bind].
    split; [by intros [? ?]|tauto].
Qed.

Lemma quantize_Ok_iff buf bpp width height rowSize bits :
  1 ≤ bits ≤ 8 →
  (∃ buf', quantizePixelData buf bpp width height rowSize bits = Ok buf')
  ↔ Forall (λ i, 0 ≤ i < Z.of_nat (length buf))
           (channel_indexes bpp width height rowSize).
Proof.
  intros Hbits. rewrite quantizePixelData_eq by done.
  apply forM_modify_Ok_iff.
Qed.

(** X21. With every output path openable, the quantization program writes
    all three of its files or none: either the run ends abnormally with
    nothing written, or it ends normally with output2_1.bmp, output2_2.bmp
    and output2_3.bmp written in this order. *)
Theorem quantization_all_or_nothing input openable :
  (∀ name, openable name = true) →
  (written (Quantization.main input openable) = []
   ∧ status (Quantization.main input openable) ≠ Ok tt)
  ∨ ∃ out6 out4 out2,
      Quantization.main input openable
      = Run [("output2_1.bmp"%string, out6); ("output2_2.bmp"%string, out4);
             ("output2_3.bmp"%string, out2)] (Ok tt).
Proof.
  intros Hopen. unfold Quantization.main.
  destruct (decode_file false input) as [img| |]; [|by left..].
  unfold Quantization.process. cbn [status written].
  destruct (quantizePixelData _ _ _ _ _ 6) as [p6| |] eqn:E6;
    [|by left..].
  assert (∃ b, quantizePixelData (img_pixelData img) (img_bytesPerPixel img)
                 (img_width img) (img_height img) (img_rowSize img) 6 = Ok b)
    as Hin by eauto.
  apply quantize_Ok_iff in Hin; [|lia].
  destruct (proj2 (quantize_Ok_iff (img_pixelData img) (img_bytesPerPixel img)
              (img_width img) (img_height img) (img_rowSize img) 4
              ltac:(lia)) Hin) as [p4 E4].
  destruct (proj2 (quantize_Ok_iff (img_pixelData img) (img_bytesPerPixel img)
              (img_width img) (img_height img) (img_rowSize img) 2
              ltac:(lia)) Hin) as [p2 E2].
  cbn [status written]. rewrite E4. cbn [status written]. rewrite E2.
  rewrite !Hopen. right. by eexists _, _, _.
Qed.

Lemma quantization_all_or_nothing_witness :
  (written (Quantization.main (Some bmp_1x1) (λ _, true)) = []
   ∧ status (Quantization.main (Some bmp_1x1) (λ _, true)) ≠ Ok tt)
  ∨ ∃ out6 out4 out2,
      Quantization.main (Some bmp_1x1) (λ _, true)
      = Run [("output2_1.bmp"%string, out6); ("output2_2.bmp"%string, out4);
             ("output2_3.bmp"%string, out2)] (Ok tt).
Proof.
  apply (quantization_all_or_nothing (Some bmp_1x1) (λ _, true)).
  reflexivity.
Defined.

(** X22. On an input that decodes to a well-formed image, with every
    output path openable, the quantization program writes three files:
    each is the first 54 bytes of the input, unchanged, followed by the
    decoded buffer quantized to 6, 4 and 2 bits, in this order. *)
Theorem quantization_main_output file img openable :
  decode_file false (Some file) = Ok img →
  0 ≤ img_width img → 0 ≤ img_height img → no_overflow img →
  (∀ name, openable name = true) →
  ∃ p6 p4 p2,
    quantizePixelData (img_pixelData img) (img_bytesPerPixel img)
      (img_width img) (img_height img) (img_rowSize img) 6 = Ok p6
    ∧ quantizePixelData (img_pixelData img) (img_bytesPerPixel img)
        (img_width img) (img_height img) (img_rowSize img) 4 = Ok p4
    ∧ quantizePixelData (img_pixelData img) (img_bytesPerPixel img)
        (img_width img) (img_height img) (img_rowSize img) 2 = Ok p2
    ∧ Quantization.main (Some file) openable
      = Run [("output2_1.bmp"%string, take 54 file ++ p6);
             ("output2_2.bmp"%string, take 54 file ++ p4);
             ("output2_3.bmp"%string, take 54 file ++ p2)] (Ok tt).
Proof.
  intros Hdec Hw Hh Hov Hopen.
  destruct (decoded_buffer_ok false file img Hdec Hw Hh Hov) as [Hok _].
  pose proof Hdec as (_ & _ & _ & _ & _ & Hbpp & _)%decode_file_Ok.
  assert (3 ≤ img_bytesPerPixel img) as Hbpp3 by (destruct Hbpp; lia).
  destruct (quantizePixelData_spec _ _ _ _ _ 6 Hok Hbpp3 ltac:(lia))
    as (p6 & E6 & _).
  destruct (quantizePixelData_spec _ _ _ _ _ 4 Hok Hbpp3 ltac:(lia))
    as (p4 & E4 & _).
  destruct (quantizePixelData_spec _ _ _ _ _ 2 Hok Hbpp3 ltac:(lia))
    as (p2 & E2 & _).
  exists p6, p4, p2. split_and!; [done..|].
  unfold Quantization.main. rewrite Hdec.
  unfold Quantization.process. cbn [status written].
  rewrite E6. cbn [status written]. rewrite E4. cbn [status written].
  rewrite E2, !Hopen.
  by rewrite !(decoded_encode false file img).
Qed.

Lemma quantization_main_output_witness :
  ∃ p6 p4 p2,
    quantizePixelData (img_pixelData sample_image)
      (img_bytesPerPixel sample_image) (img_width sample_image)
      (img_height sample_image) (img_rowSize sample_image) 6 = Ok p6
    ∧ quantizePixelData (img_pixelData sample_image)
        (img_bytesPerPixel sample_image) (img_width sample_image)
        (img_height sample_image) (img_rowSize sample_image) 4 = Ok p4
    ∧ quantizePixelData (img_pixelData sample_image)
        (img_bytesPerPixel sample_image) (img_width sample_image)
        (img_height sample_image) (img_rowSize sample_image) 2 = Ok p2
    ∧ Quantization.main (Some bmp_1x1) (λ _, true)
      = Run [("output2_1.bmp"%string, take 54 bmp_1x1 ++ p6);
             ("output2_2.bmp"%string, take 54 bmp_1x1 ++ p4);
             ("output2_3.bmp"%string, take 54 bmp_1x1 ++ p2)] (Ok tt).
Proof.
  apply (quantization_main_output bmp_1x1 sample_image (λ _, true)).
  - vm_compute. reflexivity.
  - simpl. lia.
  - simpl. lia.
  - unfold no_overflow, INT_MAX. simpl. lia.
  - reflexivity.
Defined.

(** The run of the crop program on a rectangle inside the image, with the
    buffer it writes. *)
Lemma crop_main_run file img openable x y cw ch :
  decode_file true (Some file) = Ok img → no_overflow img →
  0 ≤ x → 0 ≤ y → 0 ≤ cw → 0 ≤ ch →
  x + cw ≤ img_width img → y + ch ≤ img_height img →
  openable Crop.outputFileName = true →
  ∃ dst fh ih,
    cropImage (img_pixelData img) [] (img_width img) (img_height img)
              (img_bytesPerPixel img) (img_rowSize img) x y cw ch = Ok dst
    ∧ Z.of_nat (length dst)
      = Z.land (cw * img_bytesPerPixel img + 3) (Z.lnot 3) * ch
    ∧ fileHeader_ok fh ∧ infoHeader_ok true ih
    ∧ biWidth ih = cw ∧ biHeight ih = ch
    ∧ Crop.main_roi (Some file) openable x y cw ch
      = Run [(Crop.outputFileName, encode fh ih dst)] (Ok tt)
    ∧ bfType fh = bfType (img_fileHeader img)
    ∧ bfOffBits fh = bfOffBits (img_fileHeader img)
    ∧ biBitCount ih = biBitCount (img_infoHeader img)
    ∧ biCompression ih = biCompression (img_infoHeader img).
Proof.
  intros Hdec Hov Hx Hy Hcw Hch Hxw Hyh Hopen.
  destruct (decoded_buffer_ok true file img) as [Hok Hmod];
    [done | lia | lia | done |].
  pose proof Hdec as (_ & _ & _ & Hw & Hh & Hbpp & _)%decode_file_Ok.
  pose proof (wrap32_range (biWidth (img_infoHeader img))) as Hwr.
  pose proof (wrap32_range (biHeight (img_infoHeader img))) as Hhr.
  rewrite <- Hw in Hwr. rewrite <- Hh in Hhr.
  destruct (cropImage_spec (img_pixelData img) [] (img_bytesPerPixel img)
              (img_width img) (img_height img) (img_rowSize img) x y cw ch)
    as (dst & Hrun & Hlen & Hsz & _); [done..|].
  destruct Hov as [Hov1 Hov2].
  destruct (decoded_headers_ok _ _ _ Hdec)
    as [(F1 & F2 & F3 & F4 & F5)
        (I1 & I2 & I3 & I4 & I5 & I6 & I7 & I8 & I9 & I10 & I11)].
  assert (0 ≤ cw ≤ INT_MAX ∧ 0 ≤ ch ≤ INT_MAX) as [Hcwr Hchr] by lia.
  assert (0 ≤ Z.of_nat (length dst) ≤ INT_MAX) as Hsize by lia.
  eexists dst, _, _. split; [exact Hrun|]. split; [exact Hlen|].
  split_and!; [| | | |
    unfold Crop.main_roi; rewrite Hdec;
    rewrite (wrap32_id (x + cw)), (wrap32_id (y + ch))
      by (unfold INT_MIN, INT_MAX in *; lia);
    rewrite !bool_decide_eq_false_2 by lia; cbn [orb];
    rewrite Hrun, Hopen; reflexivity
    | reflexivity..].
  - unfold fileHeader_ok, u32.
    cbn [bfType bfSize bfReserved1 bfReserved2 bfOffBits].
    match goal with
    | |- context [?a `mod` 2 ^ 32 < _] =>
        pose proof (Z.mod_pos_bound a (2 ^ 32) ltac:(lia))
    end.
    split_and!; try done; lia.
  - unfold infoHeader_ok, dim_ok, u32.
    cbn [biSize biWidth biHeight biPlanes biBitCount biCompression
         biSizeImage biXPelsPerMeter biYPelsPerMeter biClrUsed
         biClrImportant].
    pose proof (Z.mod_pos_bound cw (2 ^ 32) ltac:(lia)).
    pose proof (Z.mod_pos_bound ch (2 ^ 32) ltac:(lia)).
    match goal with
    | |- context [wrap32 ?a `mod` 2 ^ 32] =>
        pose proof (Z.mod_pos_bound (wrap32 a) (2 ^ 32) ltac:(lia))
    end.
    split_and!; try done; lia.
  - cbn [biWidth]. unfold u32. apply Z.mod_small.
    unfold INT_MAX in *. lia.
  - cbn [biHeight]. unfold u32. apply Z.mod_small.
    unfold INT_MAX in *. lia.
Qed.

(** Header fields that make [decode_file] succeed, and the geometry of
    the image it then returns. *)
Lemma decode_file_accepted u file :
  let ihb := take 40 (drop 14 file) in
  let width := wrap32 (field 4 4 ihb) in
  let height := wrap32 (field 8 4 ihb) in
  let bitCount := field 14 2 ihb in
  let rowSize := align4 (wrap32 (width * Z.quot bitCount 8)) in
  (54 ≤ length file)%nat → field 0 2 file = 19778 →
  bitCount = 24 ∨ bitCount = 32 → field 16 4 ihb = 0 →
  0 ≤ wrap32 (rowSize * height) →
  ∃ img,
    decode_file u (Some file) = Ok img
    ∧ img_width img = width ∧ img_height img = height
    ∧ img_bytesPerPixel img = Z.quot bitCount 8
    ∧ img_rowSize img = rowSize.
Proof.
  cbv zeta. intros Hlen Hsig Hbits Hc Hpos.
  rewrite decode_file_eq by done. cbv zeta.
  unfold parseInfoHeader, parseFileHeader.
  cbn [bfType biWidth biHeight biBitCount biCompression].
  rewrite !wrap32_dim, signature_of_prefix.
  rewrite (bool_decide_eq_false_2 (_ ≠ 19778)) by (intros H; by apply H).
  rewrite (bool_decide_eq_false_2 (_ ≠ 0)) by (intros H; by apply H).
  rewrite (bool_decide_eq_false_2 (_ < 0)) by lia.
  destruct Hbits as [Hb|Hb].
  - rewrite (bool_decide_eq_false_2 (_ ≠ 24)) by (intros H; by apply H).
    cbn [andb orb]. by eexists.
  - rewrite (bool_decide_eq_false_2 (_ ≠ 32)) by (intros H; by apply H).
    rewrite andb_false_r. cbn [orb]. by eexists.
Qed.

(** X23. The crop program as written, with its region (120, 150, 100, 100):
    on a supported input whose header states at least 220 by 250 pixels
    (sizes within [int]), it writes one file, a 100 by 100 image of
    exactly 54 + 100 * 100 * bytesPerPixel bytes. *)
Theorem crop_main_fixed_region file openable :
  let ihb := take 40 (drop 14 file) in
  let width := wrap32 (field 4 4 ihb) in
  let height := wrap32 (field 8 4 ihb) in
  let bitCount := field 14 2 ihb in
  (54 ≤ length file)%nat → field 0 2 file = 19778 →
  bitCount = 24 ∨ bitCount = 32 → field 16 4 ihb = 0 →
  220 ≤ width → 250 ≤ height →
  (width * Z.quot bitCount 8 + 3) * height ≤ INT_MAX →
  openable Crop.outputFileName = true →
  ∃ out,
    Crop.main (Some file) openable = Run [(Crop.outputFileName, out)] (Ok tt)
    ∧ biWidth (parseInfoHeader true (take 40 (drop 14 out))) = 100
    ∧ biHeight (parseInfoHeader true (take 40 (drop 14 out))) = 100
    ∧ Z.of_nat (length out) = 54 + 100 * 100 * Z.quot bitCount 8.
Proof.
  cbv zeta. intros Hlen Hsig Hbits Hc Hw Hh Hsz Hopen.
  set (w := wrap32 (field 4 4 (take 40 (drop 14 file)))) in *.
  set (h := wrap32 (field 8 4 (take 40 (drop 14 file)))) in *.
  set (bits := field 14 2 (take 40 (drop 14 file))) in *.
  assert (Z.quot bits 8 = 3 ∨ Z.quot bits 8 = 4) as Hbpp
    by (destruct Hbits as [-> | ->]; [by left|by right]).
  unfold INT_MAX in Hsz.
  assert (0 ≤ w * Z.quot bits 8) as Hn by (destruct Hbpp as [-> | ->]; lia).
  assert (w * Z.quot bits 8 + 3 ≤ (w * Z.quot bits 8 + 3) * h) as Hle by nia.
  assert (w * Z.quot bits 8 + 3 ≤ INT_MAX) as Hn3 by (unfold INT_MAX; lia).
  destruct (align4_spec (w * Z.quot bits 8)) as (_ & Hal & _); [done..|].
  assert (align4 (w * Z.quot bits 8) * h ≤ (w * Z.quot bits 8 + 3) * h)
    by nia.
  assert (0 ≤ align4 (w * Z.quot bits 8) * h ≤ INT_MAX) as Hrh
    by (unfold INT_MAX; nia).
  destruct (decode_file_accepted true file)
    as (img & Hdec & Ew & Eh & Eb & Er); [done..| |].
  { fold w h bits.
    rewrite (wrap32_id (w * _)) by (unfold INT_MIN, INT_MAX in *; lia).
    rewrite wrap32_id by (unfold INT_MIN, INT_MAX in *; lia). lia. }
  fold w h bits in Ew, Eh, Eb, Er.
  rewrite (wrap32_id (w * _)) in Er by (unfold INT_MIN, INT_MAX in *; lia).
  destruct (crop_main_run file img openable 120 150 100 100)
    as (dst & fh & ih & _ & Hlend & Hfh & Hih & Hbw & Hbh & Hmain & _);
    [done | | lia.. | done |].
  { unfold no_overflow. rewrite Ew, Eh, Eb, Er. lia. }
  exists (encode fh ih dst). split; [exact Hmain|].
  destruct (parse_encode true fh ih dst Hfh Hih) as [_ ->].
  rewrite encode_length.
  split_and!; [done..|].
  rewrite Nat2Z.inj_add, Hlend, Eb.
  destruct Hbpp as [-> | ->]; reflexivity.
Qed.

Lemma crop_main_fixed_region_witness :
  ∃ out,
    Crop.main (Some bmp_220x250_header) (λ _, true)
      = Run [(Crop.outputFileName, out)] (Ok tt)
    ∧ biWidth (parseInfoHeader true (take 40 (drop 14 out))) = 100
    ∧ biHeight (parseInfoHeader true (take 40 (drop 14 out))) = 100
    ∧ Z.of_nat (length out)
      = 54 + 100 * 100
             * Z.quot (field 14 2 (take 40 (drop 14 bmp_220x250_header))) 8.
Proof.
  apply (crop_main_fixed_region bmp_220x250_header (λ _, true)).
  - vm_compute. lia.
  - vm_compute. reflexivity.
  - left. vm_compute. reflexivity.
  - vm_compute. reflexivity.
  - vm_compute. discriminate.
  - vm_compute. discriminate.
  - vm_compute. discriminate.
  - reflexivity.
Defined.

(** ** Output streams that do not open *)

(** X24. The quantization program never tests its output streams: on an
    input that decodes to a well-formed image it ends normally whichever
    output paths can be opened, and the files it leaves are exactly the
    openable ones among its three names, in program order. *)
Theorem quantization_ignores_open_failure file img openable :
  decode_file false (Some file) = Ok img →
  0 ≤ img_width img → 0 ≤ img_height img → no_overflow img →
  status (Quantization.main (Some file) openable) = Ok tt
  ∧ (written (Quantization.main (Some file) openable)).*1
    = filter (λ name, openable name)
             ["output2_1.bmp"; "output2_2.bmp"; "output2_3.bmp"]%string.
Proof.
  intros Hdec Hw Hh Hov.
  destruct (decoded_buffer_ok false file img Hdec Hw Hh Hov) as [Hok _].
  pose proof Hdec as (_ & _ & _ & _ & _ & Hbpp & _)%decode_file_Ok.
  assert (3 ≤ img_bytesPerPixel img) as Hbpp3 by lia.
  destruct (quantizePixelData_spec _ _ _ _ _ 6 Hok Hbpp3)
    as (p6 & H6 & _); [lia|].
  destruct (quantizePixelData_spec _ _ _ _ _ 4 Hok Hbpp3)
    as (p4 & H4 & _); [lia|].
  destruct (quantizePixelData_spec _ _ _ _ _ 2 Hok Hbpp3)
    as (p2 & H2 & _); [lia|].
  unfold Quantization.main. rewrite Hdec.
  unfold Quantization.process. cbn [status written].
  rewrite H6. cbn [status written]. rewrite H4. cbn [status written].
  rewrite H2. cbn [status written]. split; [done|].
  rewrite !fmap_app.
  rewrite (filter_app _ ["output2_1.bmp"%string]
             ["output2_2.bmp"%string; "output2_3.bmp"%string]).
  rewrite (filter_app _ ["output2_2.bmp"%string] ["output2_3.bmp"%string]).
  rewrite <- app_assoc. cbn [app fmap list_fmap].
  f_equal; [|f_equal].
  - destruct (openable "output2_1.bmp") eqn:E.
    + rewrite filter_cons_True by (by rewrite E).
      by rewrite filter_nil.
    + rewrite filter_cons_False by (rewrite E; simpl; tauto).
      by rewrite filter_nil.
  - destruct (openable "output2_2.bmp") eqn:E.
    + rewrite filter_cons_True by (by rewrite E).
      by rewrite filter_nil.
    + rewrite filter_cons_False by (rewrite E; simpl; tauto).
      by rewrite filter_nil.
  - destruct (openable "output2_3.bmp") eqn:E.
    + rewrite filter_cons_True by (by rewrite E).
      by rewrite filter_nil.
    + rewrite filter_cons_False by (rewrite E; simpl; tauto).
      by rewrite filter_nil.
Qed.

Lemma quantization_ignores_open_failure_witness :
  status (Quantization.main (Some bmp_1x1)
            (λ name, String.eqb name "output2_2.bmp")) = Ok tt
  ∧ (written (Quantization.main (Some bmp_1x1)
                (λ name, String.eqb name "output2_2.bmp"))).*1
    = filter (λ name, String.eqb name "output2_2.bmp")
             ["output2_1.bmp"; "output2_2.bmp"; "output2_3.bmp"]%string.
Proof.
  apply (quantization_ignores_open_failure bmp_1x1 sample_image
           (λ name, String.eqb name "output2_2.bmp")).
  - vm_compute. reflexivity.
  - simpl. lia.
  - simpl. lia.
  - unfold no_overflow, INT_MAX. simpl. lia.
Defined.

(** X25. The flip and the crop program do test their output stream: when
    the output path cannot be opened, a run that got through decoding and
    its transform ends with the open error and leaves no file. *)
Theorem output_open_failure_reported file imgF imgC openable x y cw ch :
  decode_file false (Some file) = Ok imgF →
  0 ≤ img_width imgF → 0 ≤ img_height imgF → no_overflow imgF →
  decode_file true (Some file) = Ok imgC → no_overflow imgC →
  0 ≤ x → 0 ≤ y → 0 ≤ cw → 0 ≤ ch →
  x + cw ≤ img_width imgC → y + ch ≤ img_height imgC →
  openable Flip.outputFileName = false →
  openable Crop.outputFileName = false →
  Flip.main (Some file) openable = Run [] (Err OpenError)
  ∧ Crop.main_roi (Some file) openable x y cw ch = Run [] (Err OpenError).
Proof.
  intros HdecF HwF HhF HovF HdecC HovC Hx Hy Hcw Hch Hxw Hyh HopenF HopenC.
  split.
  - destruct (decoded_buffer_ok false file imgF HdecF HwF HhF HovF)
      as [Hok _].
    destruct (flipHorizontally_spec _ _ _ _ _ Hok) as (flipped & Hrun & _).
    unfold Flip.main. by rewrite HdecF, Hrun, HopenF.
  - destruct (decoded_buffer_ok true file imgC) as [Hok Hmod];
      [done | lia | lia | done |].
    pose proof HdecC as (_ & _ & _ & Hw & Hh & _)%decode_file_Ok.
    pose proof (wrap32_range (biWidth (img_infoHeader imgC))) as Hwr.
    pose proof (wrap32_range (biHeight (img_infoHeader imgC))) as Hhr.
    rewrite <- Hw in Hwr. rewrite <- Hh in Hhr.
    destruct (cropImage_spec (img_pixelData imgC) []
                (img_bytesPerPixel imgC) (img_width imgC) (img_height imgC)
                (img_rowSize imgC) x y cw ch)
      as (dst & Hrun & _); [done..|].
    unfold Crop.main_roi. rewrite HdecC.
    rewrite (wrap32_id (x + cw)), (wrap32_id (y + ch))
      by (unfold INT_MIN, INT_MAX in *; lia).
    rewrite !bool_decide_eq_false_2 by lia. cbn [orb].
    by rewrite Hrun, HopenC.
Qed.

Lemma output_open_failure_reported_witness :
  Flip.main (Some bmp_1x1) (λ _, false) = Run [] (Err OpenError)
  ∧ Crop.main_roi (Some bmp_1x1) (λ _, false) 0 0 1 1
    = Run [] (Err OpenError).
Proof.
  apply (output_open_failure_reported bmp_1x1 sample_image sample_image
           (λ _, false) 0 0 1 1).
  - vm_compute. reflexivity.
  - simpl. lia.
  - simpl. lia.
  - unfold no_overflow, INT_MAX. simpl. lia.
  - vm_compute. reflexivity.
  - unfold no_overflow, INT_MAX. simpl. lia.
  - lia.
  - lia.
  - lia.
  - lia.
  - simpl. lia.
  - simpl. lia.
  - reflexivity.
  - reflexivity.
Defined.

(** ** Crop without the caller's bounds check *)

(** X26. [cropImage] itself checks nothing: called with a rectangle that
    starts inside the image and reaches below its last row, it copies the
    rows that exist and then reads the source vector out of bounds at the
    first row that does not.  Only the test in [main] keeps such
    rectangles away. *)
Theorem crop_below_last_row_out_of_bounds
    src bpp width height rowSize x y cw ch :
  buffer_ok src bpp width height rowSize →
  0 < bpp → 0 ≤ x → 0 < cw → x + cw ≤ width →
  0 ≤ y → y ≤ height → height < y + ch → 1 ≤ height →
  cw * bpp + 3 ≤ INT_MAX →
  Z.land (cw * bpp + 3) (Z.lnot 3) * ch ≤ INT_MAX →
  cropImage src [] width height bpp rowSize x y cw ch = Crash OutOfBounds.
Proof.
  intros (Hb & Hw & Hh & Hrs & Hlen & Hmax) Hbpp Hx Hcw Hxw Hy Hyh Hch Hh1
    Hn3 Hsize.
  unfold INT_MAX in Hmax, Hn3, Hsize.
  assert (0 < cw * bpp ≤ width * bpp) as Hn by nia.
  assert (0 ≤ x * bpp ∧ x * bpp + cw * bpp ≤ width * bpp) as Hxb by nia.
  assert (0 < rowSize ≤ rowSize * height) as Hrs' by nia.
  destruct (align4_spec (cw * bpp)) as (Hal & Hcrs' & _);
    [lia | unfold INT_MAX; lia |].
  unfold cropImage.
  rewrite (wrap32_id (cw * bpp)) by (unfold INT_MIN, INT_MAX; lia).
  rewrite <- Hal in Hsize. set (crs := align4 (cw * bpp)) in *.
  assert (0 ≤ crs * ch) as Hsz by nia.
  rewrite (wrap32_id (crs * ch)) by (unfold INT_MIN, INT_MAX; lia).
  destruct (resize_Ok (crs * ch) []) as (dst1 & -> & Hlen1); [lia|].
  cbn [mbind result_bind].
  set (j0 := height - y).
  assert (0 ≤ j0 < ch) as Hj0 by (unfold j0; lia).
  unfold for_lt.
  replace ch with (j0 + (ch - j0)) at 1 by lia.
  rewrite seqZ_app by lia. rewrite forM_app.
  destruct (copy_rows src
              (λ j, if decide (j < j0) then (y + j) * rowSize + x * bpp else 0)
              (cw * bpp) crs ch (Z.to_nat j0) dst1)
    as (dstA & HrunA & HlA & _); [lia | lia | done | |].
  { intros j Hj. destruct (decide (j < j0)); [unfold j0 in *; nia | lia]. }
  rewrite Z2Nat.id in HrunA by lia.
  rewrite (forM_ext _
             (λ j d, memcpy d (j * crs) src
                       (if decide (j < j0)
                        then (y + j) * rowSize + x * bpp else 0)
                       (cw * bpp))).
  2:{ intros j d Hj%elem_of_seqZ.
      rewrite decide_True by lia.
      assert (0 ≤ (y + j) * rowSize ≤ rowSize * height)
        by (unfold j0 in *; nia).
      assert (0 ≤ j * crs ≤ crs * ch) by nia.
      assert (height ≤ rowSize * height) by nia.
      rewrite (wrap32_id (y + j))
        by (unfold INT_MIN, INT_MAX, j0 in *; lia).
      rewrite (wrap32_id ((y + j) * rowSize))
        by (unfold INT_MIN, INT_MAX; lia).
      rewrite (wrap32_id (x * bpp)) by (unfold INT_MIN, INT_MAX; lia).
      assert ((y + j) * rowSize + rowSize ≤ rowSize * height)
        by (unfold j0 in *; nia).
      rewrite (wrap32_id (_ + _)) by (unfold INT_MIN, INT_MAX; lia).
      rewrite (wrap32_id (j * crs)) by (unfold INT_MIN, INT_MAX; lia).
      done. }
  rewrite HrunA. cbn [mbind result_bind].
  rewrite Z.add_0_l, seqZ_cons by lia. cbn [forM].
  replace (y + j0) with height by (unfold j0; lia).
  assert (height ≤ rowSize * height) by nia.
  rewrite (wrap32_id height) by (unfold INT_MIN, INT_MAX; lia).
  rewrite (wrap32_id (height * rowSize)) by (unfold INT_MIN, INT_MAX; lia).
  rewrite (wrap32_id (x * bpp)) by (unfold INT_MIN, INT_MAX; lia).
  unfold memcpy. rewrite bool_decide_eq_false_2; [done|].
  intros (_ & _ & _ & Hs0 & Hs1).
  destruct (decide (height * rowSize + x * bpp ≤ 2 ^ 31 - 1)) as [Hfit|Hfit].
  - rewrite wrap32_id in Hs1 by (unfold INT_MIN, INT_MAX; lia). lia.
  - unfold wrap32 in Hs0.
    replace ((height * rowSize + x * bpp + 2 ^ 31) `mod` 2 ^ 32)
      with (height * rowSize + x * bpp + 2 ^ 31 - 2 ^ 32) in Hs0; [lia|].
    apply Z.mod_unique with 1; lia.
Qed.

Lemma crop_below_last_row_out_of_bounds_witness :
  cropImage
    [Byte.x01; Byte.x02; Byte.x03; Byte.x04; Byte.x05; Byte.x06;
     Byte.x00; Byte.x00;
     Byte.x07; Byte.x08; Byte.x09; Byte.x0a; Byte.x0b; Byte.x0c;
     Byte.x00; Byte.x00]
    [] 2 2 3 8 0 1 2 2 = Crash OutOfBounds.
Proof.
  apply (crop_below_last_row_out_of_bounds
           [Byte.x01; Byte.x02; Byte.x03; Byte.x04; Byte.x05; Byte.x06;
            Byte.x00; Byte.x00;
            Byte.x07; Byte.x08; Byte.x09; Byte.x0a; Byte.x0b; Byte.x0c;
            Byte.x00; Byte.x00]
           3 2 2 8 0 1 2 2).
  - unfold buffer_ok, INT_MAX. simpl. lia.
  - lia.
  - lia.
  - lia.
  - lia.
  - lia.
  - lia.
  - lia.
  - lia.
  - unfold INT_MAX. lia.
  - vm_compute. discriminate.
Defined.

(** ** The crop program's output as an input *)

(** What the header checks of a successful [decode_file] established. *)
Lemma decoded_format u file img :
  decode_file u (Some file) = Ok img →
  bfType (img_fileHeader img) = 19778
  ∧ (biBitCount (img_infoHeader img) = 24
     ∨ biBitCount (img_infoHeader img) = 32)
  ∧ biCompression (img_infoHeader img) = 0
  ∧ img_bytesPerPixel img = Z.quot (biBitCount (img_infoHeader img)) 8.
Proof.
  intros Hdec. pose proof (decode_file_short _ _ _ Hdec) as H54.
  rewrite decode_file_eq in Hdec by done. cbv zeta in Hdec.
  case_bool_decide as Hsig; [done|].
  destruct (_ && _ || _) eqn:Hfmt in Hdec; [done|].
  case_bool_decide as Hneg; [done|].
  apply Ok_inj in Hdec. subst img.
  cbn [img_fileHeader img_infoHeader img_bytesPerPixel].
  apply orb_false_iff in Hfmt as [Hand Hc].
  apply bool_decide_eq_false in Hc.
  split_and!; [first [done | by apply dec_stable] |
               | first [done | by apply dec_stable] | done].
  apply andb_false_iff in Hand as [H|H]; apply bool_decide_eq_false in H;
    [left|right]; first [done | by apply dec_stable].
Qed.

(** X27. What the crop program writes is an input the programs accept:
    when the pixel data of the input starts at offset 54, decoding the
    output gives an image of the crop's width and height, with the bytes
    per pixel of the input, the cropped stride, and the buffer [cropImage]
    built as its pixel data. *)
Theorem crop_output_decodes file img openable x y cw ch :
  decode_file true (Some file) = Ok img → no_overflow img →
  0 ≤ x → 0 ≤ y → 0 ≤ cw → 0 ≤ ch →
  x + cw ≤ img_width img → y + ch ≤ img_height img →
  bfOffBits (img_fileHeader img) = 54 →
  openable Crop.outputFileName = true →
  ∃ out dst img',
    Crop.main_roi (Some file) openable x y cw ch
      = Run [(Crop.outputFileName, out)] (Ok tt)
    ∧ cropImage (img_pixelData img) [] (img_width img) (img_height img)
                (img_bytesPerPixel img) (img_rowSize img) x y cw ch = Ok dst
    ∧ decode_file true (Some out) = Ok img'
    ∧ img_width img' = cw ∧ img_height img' = ch
    ∧ img_bytesPerPixel img' = img_bytesPerPixel img
    ∧ img_rowSize img'
      = Z.land (cw * img_bytesPerPixel img + 3) (Z.lnot 3)
    ∧ img_pixelData img' = dst.
Proof.
  intros Hdec Hov Hx Hy Hcw Hch Hxw Hyh Hoff Hopen.
  destruct (crop_main_run file img openable x y cw ch)
    as (dst & fh & ih & Hcrop & Hlen & Hfh & Hih & Hbw & Hbh & Hmain
        & Ety & Eoff & Ebits & Ecomp); [done..|].
  destruct (decoded_format _ _ _ Hdec) as (Hsig & Hbits & Hc & Hbpp).
  destruct (decoded_buffer_ok true file img) as [Hok Hmod];
    [done | lia | lia | done |].
  destruct Hok as (Hb & Hw & Hh & Hrs & Hlens & Hmax).
  destruct Hov as [Hov1 Hov2].
  pose proof Hdec as (_ & _ & _ & Ew & Eh & _)%decode_file_Ok.
  pose proof (wrap32_range (biWidth (img_infoHeader img))) as Hwr.
  pose proof (wrap32_range (biHeight (img_infoHeader img))) as Hhr.
  rewrite <- Ew in Hwr. rewrite <- Eh in Hhr. clear Ew Eh.
  assert (0 ≤ cw * img_bytesPerPixel img
          ≤ img_width img * img_bytesPerPixel img) as Hn by nia.
  destruct (align4_spec (cw * img_bytesPerPixel img)) as (Hal & Hcrs & _);
    [lia | lia |].
  assert (0 ≤ Z.of_nat (length dst)) as Hpos by lia.
  assert (Z.of_nat (length dst) ≤ INT_MAX) as Hdmax.
  { destruct (cropImage_spec (img_pixelData img) [] (img_bytesPerPixel img)
                (img_width img) (img_height img) (img_rowSize img) x y cw ch)
      as (dst' & Hcrop' & _ & Hsz & _);
      [unfold buffer_ok; split_and!; done | done..|].
    lia. }
  exists (encode fh ih dst), dst.
  rewrite (decode_file_eq true (encode fh ih dst))
    by (rewrite encode_length; lia).
  destruct (parse_encode true fh ih dst Hfh Hih) as [-> ->].
  cbv zeta. rewrite Ety, Eoff, Ebits, Ecomp, Hbw, Hbh, <- Hbpp, Hsig, Hc, Hoff.
  rewrite (wrap32_id cw), (wrap32_id ch)
    by (unfold INT_MIN, INT_MAX in *; lia).
  rewrite (wrap32_id (cw * _)) by (unfold INT_MIN, INT_MAX in *; lia).
  rewrite Hal, <- Hlen.
  rewrite (wrap32_id (Z.of_nat _)) by (unfold INT_MIN, INT_MAX in *; lia).
  rewrite (bool_decide_eq_false_2 (19778 ≠ 19778)) by (intros H; by apply H).
  rewrite (bool_decide_eq_false_2 (0 ≠ 0)) by (intros H; by apply H).
  rewrite (bool_decide_eq_false_2 (_ < 0)) by lia.
  assert (bool_decide (biBitCount (img_infoHeader img) ≠ 24)
          && bool_decide (biBitCount (img_infoHeader img) ≠ 32) = false)
    as ->.
  { destruct Hbits as [-> | ->]; reflexivity. }
  cbn [orb]. eexists. split_and!; [done | done | reflexivity | ..];
    cbn [img_width img_height img_bytesPerPixel img_rowSize img_pixelData];
    try done.
  change (Z.to_nat 54) with 54%nat. rewrite drop_encode, Nat2Z.id.
  rewrite firstn_all, Nat.sub_diag. apply app_nil_r.
Qed.

Lemma crop_output_decodes_witness :
  ∃ out dst img',
    Crop.main_roi (Some bmp_1x1) (λ _, true) 0 0 1 1
      = Run [(Crop.outputFileName, out)] (Ok tt)
    ∧ cropImage (img_pixelData sample_image) [] (img_width sample_image)
                (img_height sample_image) (img_bytesPerPixel sample_image)
                (img_rowSize sample_image) 0 0 1 1 = Ok dst
    ∧ decode_file true (Some out) = Ok img'
    ∧ img_width img' = 1 ∧ img_height img' = 1
    ∧ img_bytesPerPixel img' = img_bytesPerPixel sample_image
    ∧ img_rowSize img'
      = Z.land (1 * img_bytesPerPixel sample_image + 3) (Z.lnot 3)
    ∧ img_pixelData img' = dst.
Proof.
  apply (crop_output_decodes bmp_1x1 sample_image (λ _, true) 0 0 1 1).
  - vm_compute. reflexivity.
  - unfold no_overflow, INT_MAX. simpl. lia.
  - lia.
  - lia.
  - lia.
  - lia.
  - simpl. lia.
  - simpl. lia.
  - reflexivity.
  - reflexivity.
Defined.

(** ** Crop and the other two transforms *)

(** Which bytes of a pixel the quantization loop visits. *)
Lemma channel_index_iff buf bpp width height rowSize y x c :
  buffer_ok buf bpp width height rowSize → 3 ≤ bpp →
  0 ≤ y < height → 0 ≤ x < width → 0 ≤ c < bpp →
  y * rowSize + x * bpp + c ∈ channel_indexes bpp width height rowSize
  ↔ c < 3.
Proof.
  intros Hok Hbpp Hy Hx Hc. rewrite (channel_indexes_pix buf) by done. split.
  - intros (y' & x' & c' & Hy' & Hx' & Hc' & Heq).
    apply (pix_inj buf bpp width height rowSize Hok) in Heq; [lia|lia..].
  - intros H3. exists y, x, c. split_and!; lia.
Qed.

Lemma padding_not_channel buf bpp width height rowSize y o :
  buffer_ok buf bpp width height rowSize → 3 ≤ bpp →
  0 ≤ y < height → width * bpp ≤ o < rowSize →
  y * rowSize + o ∉ channel_indexes bpp width height rowSize.
Proof.
  intros Hok Hbpp Hy Ho. rewrite (channel_indexes_pix buf) by done.
  intros (y' & x' & c' & Hy' & Hx' & Hc' & Heq).
  by apply (pad_not_pix buf bpp width height rowSize Hok y o y' x' c') in Heq;
    [|lia..].
Qed.

(** X28. Cropping and quantizing commute: quantizing the cropped buffer
    and cropping the quantized buffer give the same bytes, padding
    included. *)
Theorem crop_quantize_commute
    src bpp width height rowSize x y cw ch bits :
  buffer_ok src bpp width height rowSize → rowSize `mod` 4 = 0 →
  3 ≤ bpp → 1 ≤ bits ≤ 8 →
  0 ≤ x → 0 ≤ y → 0 ≤ cw → 0 ≤ ch → x + cw ≤ width → y + ch ≤ height →
  ∃ cropped quantized_ both,
    cropImage src [] width height bpp rowSize x y cw ch = Ok cropped
    ∧ quantizePixelData src bpp width height rowSize bits = Ok quantized_
    ∧ quantizePixelData cropped bpp cw ch
        (Z.land (cw * bpp + 3) (Z.lnot 3)) bits = Ok both
    ∧ cropImage quantized_ [] width height bpp rowSize x y cw ch = Ok both.
Proof.
  intros Hok Hmod Hbpp Hbits Hx Hy Hcw Hch Hxw Hyh.
  destruct (cropImage_full src bpp width height rowSize x y cw ch)
    as (C & HC & HokC & _ & HgetC); [done..|].
  destruct (quantizePixelData_spec src bpp width height rowSize bits)
    as (Q & HQ & HlQ & HgetQ); [done..|].
  assert (buffer_ok Q bpp width height rowSize) as HokQ
    by (unfold buffer_ok in *; by rewrite HlQ).
  set (crs := Z.land (cw * bpp + 3) (Z.lnot 3)) in *.
  destruct (quantizePixelData_spec C bpp cw ch crs bits)
    as (QC & HQC & HlQC & HgetQC); [done..|].
  destruct (cropImage_full Q bpp width height rowSize x y cw ch)
    as (CQ & HCQ & HokCQ & _ & HgetCQ); [done..|].
  fold crs in HgetCQ, HokCQ.
  exists C, Q, QC. split_and!; [done..|]. rewrite HCQ. f_equal.
  pose proof HokC as (_ & _ & _ & Hn & HlenC & _).
  destruct HokCQ as (_ & _ & _ & _ & HlenCQ & _).
  apply list_eq_same_length with (length C); [lia|lia|].
  intros k a b Hk Ha Hb.
  assert (0 < crs) as Hpos by nia.
  set (j := Z.of_nat k / crs). set (t := Z.of_nat k `mod` crs).
  assert (Z.of_nat k = j * crs + t) as Hkjt
    by (unfold j, t; rewrite Z.mul_comm; apply Z.div_mod; lia).
  assert (0 ≤ t < crs) as Ht by (apply Z.mod_pos_bound; lia).
  assert (0 ≤ j < ch) as Hj.
  { split; [apply Z.div_pos; lia|].
    apply Z.div_lt_upper_bound; [lia|]. nia. }
  pose proof (HgetC j t Hj Ht) as EC. pose proof (HgetCQ j t Hj Ht) as ECQ.
  rewrite <- Hkjt, Nat2Z.id in EC, ECQ.
  rewrite HgetQC, EC in Hb. rewrite Ha in ECQ.
  assert (Some b = Some a) as [= ->]; [|done].
  rewrite <- Hb, ECQ.
  destruct (decide (t < cw * bpp)) as [Hpix|Hpad].
  - set (i := t / bpp). set (c := t `mod` bpp).
    assert (t = i * bpp + c) as Htic
      by (unfold i, c; rewrite Z.mul_comm; apply Z.div_mod; lia).
    assert (0 ≤ c < bpp) as Hc by (apply Z.mod_pos_bound; lia).
    assert (0 ≤ i < cw) as Hi.
    { split; [apply Z.div_pos; lia|].
      apply Z.div_lt_upper_bound; [lia|]. nia. }
    assert (0 ≤ rowSize) as Hrs0
      by (destruct Hok as (? & ? & ? & ? & _); nia).
    assert (0 ≤ (y + j) * rowSize + x * bpp + t) as Hs0 by nia.
    pose proof (HgetQ (Z.to_nat ((y + j) * rowSize + x * bpp + t))) as EQ.
    rewrite Z2Nat.id in EQ by done. rewrite EQ.
    pose proof (channel_index_iff C bpp cw ch crs j i c HokC Hbpp Hj Hi Hc)
      as HinC.
    pose proof (channel_index_iff src bpp width height rowSize
                  (y + j) (x + i) c Hok Hbpp ltac:(lia) ltac:(lia) Hc)
      as HinS.
    replace (j * crs + i * bpp + c) with (Z.of_nat k) in HinC by lia.
    replace ((y + j) * rowSize + (x + i) * bpp + c)
      with ((y + j) * rowSize + x * bpp + t) in HinS by lia.
    destruct (decide (Z.of_nat k ∈ _)), (decide (_ + t ∈ _)); tauto || done.
  - rewrite decide_False; [done|].
    rewrite Hkjt.
    apply (padding_not_channel C bpp cw ch crs j t HokC Hbpp Hj). lia.
Qed.

Lemma crop_quantize_commute_witness :
  ∃ cropped quantized_ both,
    cropImage
      [Byte.x01; Byte.x42; Byte.x83; Byte.xc4; Byte.x05; Byte.xf6;
       Byte.xaa; Byte.xbb;
       Byte.x97; Byte.x58; Byte.x19; Byte.xfa; Byte.x7b; Byte.x3c;
       Byte.xcc; Byte.xdd]
      [] 2 2 3 8 1 1 1 1 = Ok cropped
    ∧ quantizePixelData
        [Byte.x01; Byte.x42; Byte.x83; Byte.xc4; Byte.x05; Byte.xf6;
         Byte.xaa; Byte.xbb;
         Byte.x97; Byte.x58; Byte.x19; Byte.xfa; Byte.x7b; Byte.x3c;
         Byte.xcc; Byte.xdd]
        3 2 2 8 2 = Ok quantized_
    ∧ quantizePixelData cropped 3 1 1
        (Z.land (1 * 3 + 3) (Z.lnot 3)) 2 = Ok both
    ∧ cropImage quantized_ [] 2 2 3 8 1 1 1 1 = Ok both.
Proof.
  apply (crop_quantize_commute
           [Byte.x01; Byte.x42; Byte.x83; Byte.xc4; Byte.x05; Byte.xf6;
            Byte.xaa; Byte.xbb;
            Byte.x97; Byte.x58; Byte.x19; Byte.xfa; Byte.x7b; Byte.x3c;
            Byte.xcc; Byte.xdd]
           3 2 2 8 1 1 1 1 2).
  - unfold buffer_ok, INT_MAX. simpl. lia.
  - reflexivity.
  - lia.
  - lia.
  - lia.
  - lia.
  - lia.
  - lia.
  - lia.
  - lia.
Defined.

(** X29. Cropping and flipping commute up to mirroring the rectangle:
    the rectangle at column [x] of the flipped buffer is, byte for byte,
    the flip of the rectangle at column [width - x - cropWidth] of the
    original. *)
Theorem crop_flip_commute src bpp width height rowSize x y cw ch :
  buffer_ok src bpp width height rowSize → rowSize `mod` 4 = 0 →
  0 < bpp → 0 ≤ x → 0 ≤ y → 0 ≤ cw → 0 ≤ ch →
  x + cw ≤ width → y + ch ≤ height →
  ∃ flipped cropped both,
    flipHorizontally src width height rowSize bpp = Ok flipped
    ∧ cropImage src [] width height bpp rowSize (width - x - cw) y cw ch
      = Ok cropped
    ∧ cropImage flipped [] width height bpp rowSize x y cw ch = Ok both
    ∧ flipHorizontally cropped cw ch (Z.land (cw * bpp + 3) (Z.lnot 3)) bpp
      = Ok both.
Proof.
  intros Hok Hmod Hbpp Hx Hy Hcw Hch Hxw Hyh.
  destruct (flipHorizontally_spec src bpp width height rowSize Hok)
    as (F & HF & HlF & _).
  assert (buffer_ok F bpp width height rowSize) as HokF
    by (unfold buffer_ok in *; by rewrite HlF).
  destruct (cropImage_full src bpp width height rowSize (width - x - cw) y
              cw ch) as (C & HC & HokC & _ & HgetC); [done || lia..|].
  destruct (cropImage_full F bpp width height rowSize x y cw ch)
    as (CF & HCF & HokCF & _ & HgetCF); [done..|].
  set (crs := Z.land (cw * bpp + 3) (Z.lnot 3)) in *.
  destruct (flipHorizontally_spec C bpp cw ch crs HokC)
    as (FC & HFC & HlFC & _).
  exists F, C, CF. split_and!; [done..|]. rewrite HFC. f_equal.
  pose proof HokC as (_ & _ & _ & Hn & HlenC & _).
  destruct HokCF as (_ & _ & _ & _ & HlenCF & _).
  assert (0 ≤ rowSize) as Hrs0
    by (destruct Hok as (? & ? & ? & ? & _); nia).
  apply list_eq_same_length with (length C); [lia|lia|].
  intros k a b Hk Ha Hb.
  assert (0 < crs) as Hpos by nia.
  set (j := Z.of_nat k / crs). set (t := Z.of_nat k `mod` crs).
  assert (Z.of_nat k = j * crs + t) as Hkjt
    by (unfold j, t; rewrite Z.mul_comm; apply Z.div_mod; lia).
  assert (0 ≤ t < crs) as Ht by (apply Z.mod_pos_bound; lia).
  assert (0 ≤ j < ch) as Hj.
  { split; [apply Z.div_pos; lia|].
    apply Z.div_lt_upper_bound; [lia|]. nia. }
  pose proof (HgetCF j t Hj Ht) as ECF.
  rewrite <- Hkjt, Nat2Z.id, Hb in ECF.
  assert (Some a = Some b) as [= ->]; [|done].
  rewrite <- Ha, ECF.
  destruct (decide (t < cw * bpp)) as [Hpix|Hpad].
  - set (i := t / bpp). set (c := t `mod` bpp).
    assert (t = i * bpp + c) as Htic
      by (unfold i, c; rewrite Z.mul_comm; apply Z.div_mod; lia).
    assert (0 ≤ c < bpp) as Hc by (apply Z.mod_pos_bound; lia).
    assert (0 ≤ i < cw) as Hi.
    { split; [apply Z.div_pos; lia|].
      apply Z.div_lt_upper_bound; [lia|]. nia. }
    destruct (flipHorizontally_pixel C bpp cw ch crs HokC FC j i c HFC)
      as (v & Hv & Hv'); [done..|].
    destruct (flipHorizontally_pixel src bpp width height rowSize Hok F
                (y + j) (x + i) c HF) as (w & Hw & Hw'); [lia..|].
    apply load_Ok in Hv as [_ Hv]. apply load_Ok in Hv' as [_ Hv'].
    apply load_Ok in Hw as [_ Hw]. apply load_Ok in Hw' as [_ Hw'].
    replace (j * crs + i * bpp + c) with (Z.of_nat k) in Hv' by lia.
    rewrite Nat2Z.id in Hv'. rewrite Hv'.
    replace ((y + j) * rowSize + x * bpp + t)
      with ((y + j) * rowSize + (x + i) * bpp + c) by lia.
    rewrite Hw'. rewrite <- Hv, <- Hw.
    assert (0 ≤ (cw - 1 - i) * bpp + c < cw * bpp) as Hm by nia.
    pose proof (HgetC j ((cw - 1 - i) * bpp + c) Hj ltac:(lia)) as EC.
    rewrite decide_True in EC by lia.
    replace (j * crs + ((cw - 1 - i) * bpp + c))
      with (j * crs + (cw - 1 - i) * bpp + c) in EC by lia.
    rewrite EC. f_equal. f_equal. lia.
  - destruct (flipHorizontally_padding C bpp cw ch crs HokC FC j t HFC)
      as (v & Hv & Hv'); [done | lia |].
    apply load_Ok in Hv as [_ Hv]. apply load_Ok in Hv' as [_ Hv'].
    rewrite <- Hkjt, Nat2Z.id in Hv, Hv'. rewrite Hv', <- Hv.
    pose proof (HgetC j t Hj Ht) as EC.
    rewrite decide_False in EC by done.
    by rewrite <- Hkjt, Nat2Z.id in EC.
Qed.

Lemma crop_flip_commute_witness :
  ∃ flipped cropped both,
    flipHorizontally
      [Byte.x01; Byte.x02; Byte.x03; Byte.x04; Byte.x05; Byte.x06;
       Byte.x07; Byte.x08; Byte.x09; Byte.xaa; Byte.xbb; Byte.xcc]
      3 1 12 3 = Ok flipped
    ∧ cropImage
        [Byte.x01; Byte.x02; Byte.x03; Byte.x04; Byte.x05; Byte.x06;
         Byte.x07; Byte.x08; Byte.x09; Byte.xaa; Byte.xbb; Byte.xcc]
        [] 3 1 3 12 (3 - 0 - 2) 0 2 1 = Ok cropped
    ∧ cropImage flipped [] 3 1 3 12 0 0 2 1 = Ok both
    ∧ flipHorizontally cropped 2 1 (Z.land (2 * 3 + 3) (Z.lnot 3)) 3
      = Ok both.
Proof.
  apply (crop_flip_commute
           [Byte.x01; Byte.x02; Byte.x03; Byte.x04; Byte.x05; Byte.x06;
            Byte.x07; Byte.x08; Byte.x09; Byte.xaa; Byte.xbb; Byte.xcc]
           3 3 1 12 0 0 2 1).
  - unfold buffer_ok, INT_MAX. simpl. lia.
  - reflexivity.
  - lia.
  - lia.
  - lia.
  - lia.
  - lia.
  - lia.
  - lia.
Defined.

(** ** Quantize keeps the order of values *)

(** X30. Quantizing never inverts an order: whenever one channel byte of
    the buffer is at most another, anywhere in the image, the same holds
    for the two bytes after quantizing. *)
Theorem quantize_monotone
    buf bpp width height rowSize bits y1 x1 c1 y2 x2 c2 :
  buffer_ok buf bpp width height rowSize → 3 ≤ bpp → 1 ≤ bits ≤ 8 →
  0 ≤ y1 < height → 0 ≤ x1 < width → 0 ≤ c1 < 3 →
  0 ≤ y2 < height → 0 ≤ x2 < width → 0 ≤ c2 < 3 →
  ∃ buf' v1 v2 v1' v2',
    quantizePixelData buf bpp width height rowSize bits = Ok buf'
    ∧ load buf (y1 * rowSize + x1 * bpp + c1) = Ok v1
    ∧ load buf (y2 * rowSize + x2 * bpp + c2) = Ok v2
    ∧ load buf' (y1 * rowSize + x1 * bpp + c1) = Ok v1'
    ∧ load buf' (y2 * rowSize + x2 * bpp + c2) = Ok v2'
    ∧ (byte_to_Z v1 ≤ byte_to_Z v2 → byte_to_Z v1' ≤ byte_to_Z v2').
Proof.
  intros Hok Hbpp Hbits Hy1 Hx1 Hc1 Hy2 Hx2 Hc2.
  destruct (quantizePixelData_spec buf bpp width height rowSize bits)
    as (buf' & Hrun & _); [done..|].
  destruct (quantize_channel buf buf' bpp width height rowSize bits y1 x1 c1)
    as (v1 & Hv1 & Hv1'); [done..|].
  destruct (quantize_channel buf buf' bpp width height rowSize bits y2 x2 c2)
    as (v2 & Hv2 & Hv2'); [done..|].
  exists buf', v1, v2. eexists _, _. split_and!; [done..|].
  intros Hle.
  destruct (quantize_factor bits Hbits) as [_ Hstep].
  rewrite !quantized_Z by done.
  apply Z.mul_le_mono_nonneg_r; [lia|].
  apply Z.div_le_mono; lia.
Qed.

Lemma quantize_monotone_witness :
  ∃ buf' v1 v2 v1' v2',
    quantizePixelData [Byte.x10; Byte.xff; Byte.x7f; Byte.x00] 3 1 1 4 2
      = Ok buf'
    ∧ load [Byte.x10; Byte.xff; Byte.x7f; Byte.x00] (0 * 4 + 0 * 3 + 0)
      = Ok v1
    ∧ load [Byte.x10; Byte.xff; Byte.x7f; Byte.x00] (0 * 4 + 0 * 3 + 2)
      = Ok v2
    ∧ load buf' (0 * 4 + 0 * 3 + 0) = Ok v1'
    ∧ load buf' (0 * 4 + 0 * 3 + 2) = Ok v2'
    ∧ (byte_to_Z v1 ≤ byte_to_Z v2 → byte_to_Z v1' ≤ byte_to_Z v2').
Proof.
  apply (quantize_monotone [Byte.x10; Byte.xff; Byte.x7f; Byte.x00]
           3 1 1 4 2 0 0 0 0 0 2).
  - unfold buffer_ok, INT_MAX. simpl. lia.
  - lia.
  - lia.
  - lia.
  - lia.
  - lia.
  - lia.
  - lia.
  - lia.
Defined.
